(** * Snapshot Reporter: position-snapshot scripts of the K-HYPE / pool reports

    A shallow embedding of the reporting scripts (the pool variant
    [fetch-thbill-positions.js], the K-HYPE variant and the K-HYPE variant
    with a user allow-list) together with the properties their specification
    states about them.

    Conventions of the embedding:
    - a JavaScript string is a [string]; the strings the scripts handle
      (hex addresses, identifiers, decimal amounts) are ASCII;
    - a JavaScript Number is a binary64 value, [spec_float] of the standard
      library with precision 53 and maximal exponent 1024; arithmetic is the
      library's correctly rounded arithmetic;
    - a field that a decoded response may hold as [null] is an [option],
      with [None] for [null] (a response carries every field its query
      selects, so that a field of a snapshot is never [undefined]); the
      same type stands for an argument that may be [undefined] or [null];
    - the instant of a valid Date is not computed: the text that
      [toISOString] returns for it is kept as a value of its own;
    - a thrown exception is the [inl] of a sum, a normal result its [inr]. *)

From Stdlib Require Import ZArith List String Ascii Bool Lia.
From Stdlib Require Import Permutation Sorted.
From Stdlib Require Import Floats.SpecFloat.
Import ListNotations.

Local Open Scope Z_scope.

(** ** Strings *)

Module JSString.

Definition code (c : ascii) : Z := Z.of_nat (nat_of_ascii c).

Definition isUpper (c : ascii) : bool := (65 <=? code c) && (code c <=? 90).

Definition lowerChar (c : ascii) : ascii :=
  if isUpper c then ascii_of_nat (nat_of_ascii c + 32) else c.

(** [String.prototype.toLowerCase], on ASCII text. *)
Fixpoint toLowerCase (s : string) : string :=
  match s with
  | EmptyString => EmptyString
  | String c r => String (lowerChar c) (toLowerCase r)
  end.

Definition isDigit (c : ascii) : bool := (48 <=? code c) && (code c <=? 57).

Definition digitValue (c : ascii) : Z := code c - 48.

Definition digitChar (d : Z) : ascii := ascii_of_nat (Z.to_nat (48 + d)).

(** White space and line terminators that [TrimString] removes. *)
Definition isWhiteSpace (c : ascii) : bool :=
  let n := code c in
  (n =? 9) || (n =? 10) || (n =? 11) || (n =? 12) || (n =? 13) || (n =? 32).

Fixpoint trimStart (l : list ascii) : list ascii :=
  match l with
  | c :: r => if isWhiteSpace c then trimStart r else l
  | [] => []
  end.

(** The longest run of decimal digits at the head, and what follows it. *)
Fixpoint spanDigits (l : list ascii) : list ascii * list ascii :=
  match l with
  | c :: r =>
      if isDigit c then let (ds, rest) := spanDigits r in (c :: ds, rest)
      else ([], l)
  | [] => ([], [])
  end.

Definition digitsValue (ds : list ascii) : Z :=
  fold_left (fun acc c => 10 * acc + digitValue c) ds 0.

Definition isHexDigit (c : ascii) : bool :=
  isDigit c
  || ((97 <=? code c) && (code c <=? 102))
  || ((65 <=? code c) && (code c <=? 70)).

Definition hexDigitValue (c : ascii) : Z :=
  if isDigit c then code c - 48
  else if 97 <=? code c then code c - 87
  else code c - 55.

(** The longest run of hexadecimal digits at the head. *)
Fixpoint spanHexDigits (l : list ascii) : list ascii :=
  match l with
  | c :: r => if isHexDigit c then c :: spanHexDigits r else []
  | [] => []
  end.

Definition hexDigitsValue (ds : list ascii) : Z :=
  fold_left (fun acc c => 16 * acc + hexDigitValue c) ds 0.

Fixpoint decimalAux (fuel : nat) (n : Z) (acc : list ascii) : list ascii :=
  match fuel with
  | O => digitChar (n mod 10) :: acc
  | S k =>
      if n <? 10 then digitChar n :: acc
      else decimalAux k (n / 10) (digitChar (n mod 10) :: acc)
  end.

(** The digits of the decimal representation of [n >= 0], most
    significant first, with no leading zero ("0" for zero). *)
Definition decimal (n : Z) : list ascii :=
  decimalAux (Z.to_nat (Z.log2 n)) n [].

Definition zeros (k : nat) : list ascii := repeat "0"%char k.

Fixpoint isPrefix (p l : list ascii) : option (list ascii) :=
  match p, l with
  | [], _ => Some l
  | a :: p', b :: l' => if Ascii.eqb a b then isPrefix p' l' else None
  | _ :: _, [] => None
  end.

End JSString.

(** ** Numbers *)

Module JSNumber.
Import JSString.

Definition Number := spec_float.

Definition prec : Z := 53.
Definition emax : Z := 1024.

Definition NaN : Number := S754_nan.
Definition zero : Number := S754_zero false.

(** The Number nearest to an integer (ties to even). *)
Definition ofZ (z : Z) : Number := binary_normalize prec emax z 0 false.

Definition one : Number := ofZ 1.
Definition ten21 : Number := ofZ (10 ^ 21).

Definition add : Number -> Number -> Number := SFadd prec emax.
Definition sub : Number -> Number -> Number := SFsub prec emax.
Definition mul : Number -> Number -> Number := SFmul prec emax.
Definition div : Number -> Number -> Number := SFdiv prec emax.

(** The relational operators; all are false when an operand is NaN. *)
Definition lt (x y : Number) : bool := SFltb x y.
Definition le (x y : Number) : bool := SFleb x y.
Definition gt (x y : Number) : bool := SFltb y x.
Definition ge (x y : Number) : bool := SFleb y x.
Definition strictEq (x y : Number) : bool := SFeqb x y.

Definition abs : Number -> Number := SFabs.

(** Neither NaN nor an infinity. *)
Definition isFinite (x : Number) : bool :=
  match x with
  | S754_zero _ | S754_finite _ _ _ => true
  | _ => false
  end.

(** The Number nearest to [m * 10 ^ E] for a digit string value [m]
    (the rounding step of [StringNumericValue]). *)
Definition roundDecimal (neg : bool) (m : Z) (E : Z) : Number :=
  match m with
  | Zpos p =>
      if 0 <=? E
      then binary_normalize prec emax
             (if neg then - (m * 10 ^ E) else m * 10 ^ E) 0 false
      else SFdiv prec emax (S754_finite neg p 0)
             (S754_finite false (Z.to_pos (10 ^ (- E))) 0)
  | _ => S754_zero neg
  end.

(** The optional [ExponentPart]: an indicator, an optional sign and at
    least one digit; anything else is not part of the literal. *)
Definition exponentPart (l : list ascii) : Z :=
  match l with
  | c :: r =>
      if (code c =? 101) || (code c =? 69) then
        let '(neg, r') :=
          match r with
          | s :: r1 =>
              if code s =? 45 then (true, r1)
              else if code s =? 43 then (false, r1)
              else (false, r)
          | [] => (false, r)
          end in
        match fst (spanDigits r') with
        | [] => 0
        | ds => if neg then - digitsValue ds else digitsValue ds
        end
      else 0
  | [] => 0
  end.

(** [StrUnsignedDecimalLiteral]: the longest prefix that is one. *)
Definition unsignedLiteral (neg : bool) (l : list ascii) : Number :=
  match isPrefix (list_ascii_of_string "Infinity") l with
  | Some _ => S754_infinity neg
  | None =>
      let (ip, r) := spanDigits l in
      let '(fp, r') :=
        match r with
        | c :: r1 => if code c =? 46 then spanDigits r1 else ([], r)
        | [] => ([], r)
        end in
      match ip ++ fp with
      | [] => NaN
      | ds =>
          roundDecimal neg (digitsValue ds)
            (exponentPart r' - Z.of_nat (List.length fp))
      end
  end.

(** The global function [parseFloat] applied to a string. *)
Definition parseFloat (s : string) : Number :=
  match trimStart (list_ascii_of_string s) with
  | c :: r =>
      if code c =? 45 then unsignedLiteral true r
      else if code c =? 43 then unsignedLiteral false r
      else unsignedLiteral false (c :: r)
  | [] => NaN
  end.

(** The global function [parseInt] applied to a string, with no radix:
    leading white space and a sign are skipped, the prefix [0x] or [0X]
    selects radix 16, and the longest run of digits of the radix is read;
    NaN if there is none.  (For more than 20 significant decimal digits an
    implementation may round differently; the value is beyond every bound
    the scripts compare it with.) *)
Definition parseInt (s : string) : Number :=
  let '(neg, unsigned) :=
    match trimStart (list_ascii_of_string s) with
    | c :: r =>
        if code c =? 45 then (true, r)
        else if code c =? 43 then (false, r)
        else (false, c :: r)
    | [] => (false, [])
    end in
  let '(hex, body) :=
    match unsigned with
    | z :: x :: r =>
        if (code z =? 48) && ((code x =? 120) || (code x =? 88))
        then (true, r) else (false, unsigned)
    | _ => (false, unsigned)
    end in
  match (if hex then spanHexDigits body else fst (spanDigits body)) with
  | [] => NaN
  | ds =>
      let mathInt := if hex then hexDigitsValue ds else digitsValue ds in
      if mathInt =? 0 then S754_zero neg
      else ofZ (if neg then - mathInt else mathInt)
  end.

(** [floor (m * 2^e * 10^f + 1/2)]: the integer [n] for which
    [n / 10^f - x] is closest to zero, the larger one on a tie. *)
Definition roundHalfUp (m : positive) (e : Z) (f : nat) : Z :=
  if 0 <=? e then Zpos m * 2 ^ e * 10 ^ Z.of_nat f
  else (2 * Zpos m * 10 ^ Z.of_nat f + 2 ^ (- e)) / 2 ^ (1 - e).

(** Steps 11.b and 11.c of [Number.prototype.toFixed]. *)
Definition fixedDigits (n : Z) (f : nat) : list ascii :=
  let m := decimal n in
  match f with
  | O => m
  | _ =>
      let m' := if (List.length m <=? f)%nat
                then zeros (f + 1 - List.length m) ++ m else m in
      let k := List.length m' in
      firstn (k - f) m' ++ "."%char :: skipn (k - f) m'
  end.

(** Does [s * 10 ^ p] round to the positive Number [x]? *)
Definition roundsTo (x : Number) (s p : Z) : bool :=
  match x, roundDecimal false s p with
  | S754_finite _ m1 e1, S754_finite _ m2 e2 => Pos.eqb m1 m2 && (e1 =? e2)
  | _, _ => false
  end.

(** [floor (m * 2^e / 10^p)]. *)
Definition scaledFloor (m : positive) (e p : Z) : Z :=
  let num := Zpos m * (if 0 <=? e then 2 ^ e else 1) * (if p <? 0 then 10 ^ (- p) else 1) in
  let den := (if 0 <=? e then 1 else 2 ^ (- e)) * (if p <? 0 then 1 else 10 ^ p) in
  num / den.

(** The distance of [s * 10^p] to [m * 2^e], scaled by a positive factor
    that depends on [e] and [p] only. *)
Definition distance (m : positive) (e s p : Z) : Z :=
  let a := Zpos m * (if 0 <=? e then 2 ^ e else 1) * (if p <? 0 then 10 ^ (- p) else 1) in
  let b := s * (if 0 <=? e then 1 else 2 ^ (- e)) * (if p <? 0 then 1 else 10 ^ p) in
  Z.abs (a - b).

(** The smallest [n] with [m * 2^e < 10 ^ n]. *)
Fixpoint magnitudeFrom (fuel : nat) (m : positive) (e n : Z) : Z :=
  match fuel with
  | O => n
  | S k =>
      if scaledFloor m e n =? 0 then n else magnitudeFrom k m e (n + 1)
  end.

Definition magnitude (m : positive) (e : Z) : Z :=
  let b := Z.log2 (Zpos m) + e in
  magnitudeFrom 8 m e (b * 30103 / 100000 - 1).

(** The candidates [(n, s)] with [k] digits whose value rounds to [x]. *)
Definition candidates (x : Number) (m : positive) (e k : Z) : list (Z * Z) :=
  let n0 := magnitude m e in
  let cand (n s : Z) :=
    if (10 ^ (k - 1) <=? s) && (s <? 10 ^ k) && roundsTo x s (n - k)
    then [(n, s)] else [] in
  let at_ (n : Z) :=
    let lo := scaledFloor m e (n - k) in cand n lo ++ cand n (lo + 1) in
  at_ n0 ++ at_ (n0 + 1).

(** Of two candidates the one whose value is nearer to [m * 2^e]; the
    even digit string on a tie.  The two values are brought to the
    smaller of the two decimal exponents before they are compared. *)
Definition closer (m : positive) (e k : Z) (a b : Z * Z) : Z * Z :=
  let pa := fst a - k in
  let pb := fst b - k in
  let p := Z.min pa pb in
  let da := distance m e (snd a * 10 ^ (pa - p)) p in
  let db := distance m e (snd b * 10 ^ (pb - p)) p in
  if da <? db then a
  else if db <? da then b
  else if Z.even (snd a) then a else b.

(** The shortest digit string that identifies [x]: digit counts are
    tried in increasing order.  Seventeen digits identify every binary64
    value, so the search ends at a candidate; below that bound the
    truncation to [k] digits closes the recursion. *)
Fixpoint shortest (fuel : nat) (x : Number) (m : positive) (e k : Z)
  : Z * Z * Z :=
  match candidates x m e k with
  | c :: cs =>
      let best := fold_left (closer m e k) cs c in (fst best, k, snd best)
  | [] =>
      match fuel with
      | O =>
          (magnitude m e, k,
           Z.max (10 ^ (k - 1)) (scaledFloor m e (magnitude m e - k)))
      | S f => shortest f x m e (k + 1)
      end
  end.

(** Steps 5 to 10 of [Number::toString] in radix 10, for a positive
    finite value. *)
Definition toStringPositive (x : Number) (m : positive) (e : Z)
  : list ascii :=
  let '(n, k, s) := shortest 16 x m e 1 in
  let ds := decimal s in
  if (-5 <=? n) && (n <=? 21) then
    if k <=? n then ds ++ zeros (Z.to_nat (n - k))
    else if 0 <? n then
      firstn (Z.to_nat n) ds ++ "."%char :: skipn (Z.to_nat n) ds
    else "0"%char :: "."%char :: zeros (Z.to_nat (- n)) ++ ds
  else
    let ex := n - 1 in
    let sign := if ex <? 0 then "-"%char else "+"%char in
    let tail := "e"%char :: sign :: decimal (Z.abs ex) in
    match ds with
    | d :: (_ :: _) as rest =>
        d :: "."%char :: (skipn 1 ds) ++ tail
    | _ => ds ++ tail
    end.

(** [Number.prototype.toString] with no radix. *)
Definition toString (x : Number) : string :=
  match x with
  | S754_nan => "NaN"
  | S754_zero _ => "0"
  | S754_infinity s => if s then "-Infinity" else "Infinity"
  | S754_finite s m e =>
      string_of_list_ascii
        ((if s then ["-"%char] else []) ++
         toStringPositive (S754_finite false m e) m e)
  end.

(** [Number.prototype.toFixed (f)] for [0 <= f <= 100]; every call in
    the scripts passes a literal in that range, so no RangeError arises. *)
Definition toFixed (x : Number) (f : nat) : string :=
  match x with
  | S754_finite s m e =>
      string_of_list_ascii
        ((if s then ["-"%char] else []) ++
         (if ge (S754_finite false m e) ten21
          then toStringPositive (S754_finite false m e) m e
          else fixedDigits (roundHalfUp m e f) f))
  | S754_zero _ => string_of_list_ascii (fixedDigits 0 f)
  | _ => toString x
  end.

End JSNumber.

(** ** Dates *)

Module JSDate.
Import JSNumber.

(** The largest time value of a Date, in milliseconds. *)
Definition maxTime : Number := ofZ 8640000000000000.

(** [new Date(value)] for a Number holds a time value, the date is
    valid, exactly when [value] is finite and at most [maxTime] in
    magnitude ([TimeClip]). *)
Definition isValid (value : Number) : bool :=
  isFinite value && le (abs value) maxTime.

(** The argument of [new Date(parseInt(timestamp) * 1000)]. *)
Definition ofSeconds (timestamp : string) : Number :=
  mul (parseInt timestamp) (ofZ 1000).

(** Is [new Date(parseInt(timestamp) * 1000)] a valid date? *)
Definition validTimestamp (timestamp : string) : bool :=
  isValid (ofSeconds timestamp).

End JSDate.

(** ** The formatter *)

Module Format.
Import JSString JSNumber.
Local Open Scope string_scope.

(** [!amount]: [undefined], [null] and the empty string are falsy. *)
Definition falsy (amount : option string) : bool :=
  match amount with
  | None => true
  | Some s => String.eqb s ""
  end.

(** [parseFloat (amount)] for a possibly absent argument: [undefined]
    and [null] convert to text that is no decimal literal. *)
Definition parseFloatValue (amount : option string) : Number :=
  match amount with
  | None => NaN
  | Some s => parseFloat s
  end.

(** [parseFloat (field || 0)]. *)
Definition parseFloatOrZero (field : option string) : Number :=
  match field with
  | Some s => if String.eqb s "" then parseFloat "0" else parseFloat s
  | None => parseFloat "0"
  end.

Definition formatTokenAmount (amount : option string) : string :=
  match amount with
  | None => "0"
  | Some s =>
      if String.eqb s "" || String.eqb s "0" then "0"
      else
        let numAmount := parseFloat s in
        if strictEq numAmount zero then "0"
        else if ge numAmount one then toFixed numAmount 6
        else toFixed numAmount 12
  end.

(** The number of digits after the decimal point of a plain decimal
    numeral (an optional minus sign, at least one digit, and optionally a
    point followed by digits); [None] for any other text. *)
Definition decimalPlaces (s : string) : option nat :=
  let l := list_ascii_of_string s in
  let body :=
    match l with
    | c :: r => if (code c =? 45)%Z then r else l
    | [] => l
    end in
  match spanDigits body with
  | (_ :: _, []) => Some O
  | (_ :: _, c :: fp) =>
      if (code c =? 46)%Z && forallb isDigit fp
      then Some (List.length fp) else None
  | _ => None
  end.

End Format.

(** ** Data model *)

Module Token.
Record t := mk { id : string; name : string; symbol : string }.
End Token.

Module Pool.
Record t := mk { id : string; token0 : Token.t; token1 : Token.t }.
End Pool.

Module Position.
(** The position reference of a snapshot; [id] is absent when the
    subgraph returns none. *)
Record t := mk {
  id : option string;
  tickLower : option string;
  tickUpper : option string }.
End Position.

Module Snapshot.
Record t := mk {
  id : string;
  owner : string;
  pool : Pool.t;
  position : option Position.t;
  blockNumber : string;
  timestamp : string;
  liquidity : option string;
  depositedToken0 : option string;
  depositedToken1 : option string;
  withdrawnToken0 : option string;
  withdrawnToken1 : option string;
  collectedFeesToken0 : option string;
  collectedFeesToken1 : option string }.

(** [snapshot.position?.id] *)
Definition positionId (s : t) : option string :=
  match position s with
  | Some p => Position.id p
  | None => None
  end.

(** The truthiness of [snapshot.position?.id]. *)
Definition hasPositionId (s : t) : bool :=
  negb (Format.falsy (positionId s)).
End Snapshot.

(** ** Exceptions *)

Inductive JSError :=
| TypeError (message : string)
| RangeError (message : string)
| Error (message : string)
| FetchError (message : string).

Definition Result (A : Type) : Type := JSError + A.

(** ** Plain objects used as maps of arrays *)

Module JSObject.
Import JSString.
Local Open Scope string_scope.

(** The own properties of an object created by [{}], in creation order;
    every value the scripts store is an array. *)
Definition t (A : Type) : Type := list (string * list A).

(** The property names every such object inherits from
    [Object.prototype]. *)
Definition inheritedNames : list string :=
  [ "constructor"; "__proto__"; "hasOwnProperty"; "isPrototypeOf";
    "propertyIsEnumerable"; "toLocaleString"; "toString"; "valueOf";
    "__defineGetter__"; "__defineSetter__"; "__lookupGetter__";
    "__lookupSetter__" ].

Definition inherited (k : string) : bool :=
  existsb (String.eqb k) inheritedNames.

(** What [o[k]] evaluates to. *)
Inductive Value (A : Type) :=
| OwnArray (l : list A)
| Inherited
| Undefined.
Arguments OwnArray {A} l.
Arguments Inherited {A}.
Arguments Undefined {A}.

Section Ops.
Context {A : Type}.

Fixpoint getOwn (o : t A) (k : string) : option (list A) :=
  match o with
  | (k', v) :: r => if String.eqb k k' then Some v else getOwn r k
  | [] => None
  end.

Definition get (o : t A) (k : string) : Value A :=
  match getOwn o k with
  | Some l => OwnArray l
  | None => if inherited k then Inherited else Undefined
  end.

(** [o[k] = v]: an existing own property keeps its place, a new one
    is created last. *)
Fixpoint set (o : t A) (k : string) (v : list A) : t A :=
  match o with
  | (k', v') :: r =>
      if String.eqb k k' then (k', v) :: r else (k', v') :: set r k v
  | [] => [(k, v)]
  end.

(** [if (!o[k]) { o[k] = []; } o[k].push(x);] *)
Definition pushTo (o : t A) (k : string) (x : A) : Result (t A) :=
  let o1 :=
    match get o k with
    | Undefined => set o k []
    | _ => o
    end in
  match get o1 k with
  | OwnArray l => inr (set o1 k (l ++ [x]))
  | _ => inl (TypeError "push is not a function")
  end.

(** [l.forEach(x => { const k = key(x); if (!o[k]) ...; o[k].push(x) })];
    an exception leaves the loop. *)
Fixpoint groupInto (key : A -> string) (l : list A) (o : t A)
  : Result (t A) :=
  match l with
  | [] => inr o
  | x :: r =>
      match pushTo o (key x) x with
      | inr o' => groupInto key r o'
      | inl e => inl e
      end
  end.

Definition groupBy (key : A -> string) (l : list A) : Result (t A) :=
  groupInto key l [].

(** An array index: the canonical decimal numeral of an integer
    below [2^32 - 1]. *)
Definition arrayIndex (k : string) : option Z :=
  match list_ascii_of_string k with
  | [] => None
  | c :: r =>
      if forallb isDigit (c :: r)
         && (negb (code c =? 48)%Z || (List.length r =? 0)%nat)
         && (digitsValue (c :: r) <? 2 ^ 32 - 1)%Z
      then Some (digitsValue (c :: r)) else None
  end.

Definition isArrayIndex (k : string) : bool :=
  match arrayIndex k with Some _ => true | None => false end.

Definition indexOf (k : string) : Z :=
  match arrayIndex k with Some i => i | None => 0 end.

Fixpoint insertByIndex (p : string * list A) (l : t A) : t A :=
  match l with
  | [] => [p]
  | q :: r =>
      if (indexOf (fst p) <=? indexOf (fst q))%Z then p :: q :: r
      else q :: insertByIndex p r
  end.

Definition sortByIndex (l : t A) : t A :=
  fold_right insertByIndex [] l.

(** [Object.entries (o)]: array-index keys in ascending numeric
    order, then the other keys in creation order. *)
Definition entries (o : t A) : list (string * list A) :=
  sortByIndex (filter (fun p => isArrayIndex (fst p)) o)
  ++ filter (fun p => negb (isArrayIndex (fst p))) o.

Definition keys (o : t A) : list string := map fst (entries o).
End Ops.

End JSObject.

(** [Array.prototype.sort] is stable; with a comparator that orders by a
    numeric rank the result is the stable arrangement by that rank. *)
Module JSArray.
Section Sort.
Context {A : Type}.
Variable before : A -> A -> bool.
(** [before a b]: the comparator puts [a] strictly before [b]. *)

Fixpoint insert (x : A) (l : list A) : list A :=
  match l with
  | [] => [x]
  | y :: r => if before y x then y :: insert x r else x :: y :: r
  end.

(** Elements are inserted from the last to the first, each behind the
    elements that must strictly precede it and ahead of all others, so
    that elements the comparator does not separate keep their order. *)
Definition sort (l : list A) : list A := fold_right insert [] l.
End Sort.

(** The comparator [(a, b) => rank(b) - rank(a)]: it puts [a] strictly
    before [b] when [b] has the smaller rank. *)
Definition descending {A : Type} (rank : A -> nat) (a b : A) : bool :=
  (rank b <? rank a)%nat.

Definition includes (l : list string) (x : string) : bool :=
  existsb (String.eqb x) l.

(** [l.slice(0, n)] *)
Definition slice0 {A : Type} (n : nat) (l : list A) : list A := firstn n l.
End JSArray.

(** ** Groups in closed form *)

Module Grouping.
Section Grouped.
Context {A : Type}.
Variable key : A -> string.

Definition hasKey (k : string) (x : A) : bool := String.eqb (key x) k.

(** The distinct elements of a list, each at its first occurrence. *)
Fixpoint firstOccurrences (l : list string) : list string :=
  match l with
  | [] => []
  | k :: r => k :: filter (fun k' => negb (String.eqb k' k)) (firstOccurrences r)
  end.

(** One group per distinct key, in the order the keys first occur, each
    holding the elements with that key in their original order. *)
Definition grouped (l : list A) : JSObject.t A :=
  map (fun k => (k, filter (hasKey k) l)) (firstOccurrences (map key l)).

Definition owns (o : JSObject.t A) (k : string) : bool :=
  match JSObject.getOwn o k with Some _ => true | None => false end.

(** What an object holds after more elements are grouped into it. *)
Definition extend (o : JSObject.t A) (l : list A) : JSObject.t A :=
  map (fun p => (fst p, snd p ++ filter (hasKey (fst p)) l)) o
  ++ map (fun k => (k, filter (hasKey k) l))
       (firstOccurrences (filter (fun k => negb (owns o k)) (map key l))).

End Grouped.
End Grouping.

(** ** Console output *)

Module Console.
Import JSNumber.

(** A value interpolated into a logged line. *)
Inductive Arg :=
| AStr (s : string)
| ACount (n : nat)
| ANum (x : Number)
| ADate (timestamp : string)
| AError (e : JSError).
(** [ADate t] stands for the text that
    [new Date(parseInt(t) * 1000).toISOString()] returns when that date is
    valid. *)

(** One call of [console.log] or of [console.error]: the fixed text of
    its template and the interpolated values in order. *)
Inductive Line :=
| Log (text : string) (args : list Arg)
| LogError (text : string) (args : list Arg).

Definition hasText (t : string) (l : Line) : bool :=
  match l with
  | Log t' _ => String.eqb t t'
  | LogError _ _ => false
  end.

(** A computation that prints lines and then returns or throws. *)
Definition Run (A : Type) : Type := list Line * Result A.

Definition ret {A} (a : A) : Run A := ([], inr a).
Definition throw {A} (e : JSError) : Run A := ([], inl e).
Definition log (text : string) (args : list Arg) : Run unit :=
  ([Log text args], inr tt).
Definition lift {A} (r : Result A) : Run A := ([], r).

(** [date.toISOString()] for [date = new Date(parseInt(timestamp) * 1000)]:
    a RangeError when the date is not valid. *)
Definition toISOString (timestamp : string) : Run Arg :=
  if JSDate.isValid (JSDate.ofSeconds timestamp)
  then ret (ADate timestamp)
  else throw (RangeError "Invalid time value").

Definition bind {A B} (m : Run A) (k : A -> Run B) : Run B :=
  match m with
  | (out, inl e) => (out, inl e)
  | (out, inr a) => let (out', r) := k a in (out ++ out', r)
  end.

Fixpoint forEach {A} (f : A -> Run unit) (l : list A) : Run unit :=
  match l with
  | [] => ret tt
  | x :: r => bind (f x) (fun _ => forEach f r)
  end.

(** [l.forEach((x, index) => ...)] *)
Definition indexed {A} (l : list A) : list (nat * A) :=
  combine (seq 0 (List.length l)) l.

Definition output {A} (m : Run A) : list Line := fst m.
Definition outcome {A} (m : Run A) : Result A := snd m.
End Console.

Declare Scope run_scope.
Delimit Scope run_scope with run.
Notation "x <- m ;; k" := (Console.bind m (fun x => k))
  (at level 61, m at next level, right associativity) : run_scope.
Notation "m ;;; k" := (Console.bind m (fun _ => k))
  (at level 61, right associativity) : run_scope.

(** ** Grouping and aggregation *)

Module Report.
Import JSString JSNumber Format Console.
Local Open Scope string_scope.
Local Open Scope run_scope.

Definition poolId (s : Snapshot.t) : string := Pool.id (Snapshot.pool s).

(** [snapshotsByPool] *)
Definition groupByPool (snapshots : list Snapshot.t)
  : Result (JSObject.t Snapshot.t) :=
  JSObject.groupBy poolId snapshots.

(** [snapshotsByUser], for the snapshots of one pool *)
Definition groupByUser (poolSnapshots : list Snapshot.t)
  : Result (JSObject.t Snapshot.t) :=
  JSObject.groupBy Snapshot.owner poolSnapshots.

(** [snapshotsByPosition]: a snapshot is grouped only if
    [snapshot.position?.id] is truthy. *)
Fixpoint groupPositionsInto (l : list Snapshot.t) (o : JSObject.t Snapshot.t)
  : Result (JSObject.t Snapshot.t) :=
  match l with
  | [] => inr o
  | snapshot :: r =>
      match Snapshot.positionId snapshot with
      | Some positionId =>
          if String.eqb positionId "" then groupPositionsInto r o
          else
            match JSObject.pushTo o positionId snapshot with
            | inr o' => groupPositionsInto r o'
            | inl e => inl e
            end
      | None => groupPositionsInto r o
      end
  end.

Definition groupByPosition (snapshots : list Snapshot.t)
  : Result (JSObject.t Snapshot.t) :=
  groupPositionsInto snapshots [].

(** The comparator [([, a], [, b]) => b.length - a.length] is negative,
    placing its first argument first, when [b] is the shorter. *)
Definition moreActive (a b : string * list Snapshot.t) : bool :=
  (List.length (snd b) <? List.length (snd a))%nat.

(** [Object.entries(snapshotsByPosition).sort(...)] *)
Definition sortPositions (snapshotsByPosition : JSObject.t Snapshot.t)
  : list (string * list Snapshot.t) :=
  JSArray.sort moreActive (JSObject.entries snapshotsByPosition).

(** The accumulators of one position block. *)
Record Totals := mkTotals {
  totalDeposited0 : Number;
  totalDeposited1 : Number;
  totalWithdrawn0 : Number;
  totalWithdrawn1 : Number;
  totalFees0 : Number;
  totalFees1 : Number;
  maxLiquidity : Number;
  currentLiquidity : Number }.

Definition initialTotals : Totals :=
  mkTotals zero zero zero zero zero zero zero zero.

(** The body of [positionSnapshots.forEach(snapshot => ...)].  The
    elements of a decoded response are distinct objects, so
    [snapshot === positionSnapshots[0]] holds at index 0 only. *)
Definition accumulate (t : Totals) (entry : nat * Snapshot.t) : Totals :=
  let (index, snapshot) := entry in
  let liquidity := parseFloatOrZero (Snapshot.liquidity snapshot) in
  mkTotals
    (add (totalDeposited0 t) (parseFloatOrZero (Snapshot.depositedToken0 snapshot)))
    (add (totalDeposited1 t) (parseFloatOrZero (Snapshot.depositedToken1 snapshot)))
    (add (totalWithdrawn0 t) (parseFloatOrZero (Snapshot.withdrawnToken0 snapshot)))
    (add (totalWithdrawn1 t) (parseFloatOrZero (Snapshot.withdrawnToken1 snapshot)))
    (add (totalFees0 t) (parseFloatOrZero (Snapshot.collectedFeesToken0 snapshot)))
    (add (totalFees1 t) (parseFloatOrZero (Snapshot.collectedFeesToken1 snapshot)))
    (if gt liquidity (maxLiquidity t) then liquidity else maxLiquidity t)
    (if (index =? 0)%nat then liquidity else currentLiquidity t).

Definition positionTotals (positionSnapshots : list Snapshot.t) : Totals :=
  fold_left accumulate (indexed positionSnapshots) initialTotals.

(** [netToken0] and [netToken1] *)
Definition netToken0 (t : Totals) : Number :=
  sub (totalDeposited0 t) (totalWithdrawn0 t).
Definition netToken1 (t : Totals) : Number :=
  sub (totalDeposited1 t) (totalWithdrawn1 t).

Definition positive (field : option string) : bool :=
  gt (parseFloatOrZero field) zero.

Definition hasDeposits (s : Snapshot.t) : bool :=
  positive (Snapshot.depositedToken0 s) || positive (Snapshot.depositedToken1 s).
Definition hasWithdrawals (s : Snapshot.t) : bool :=
  positive (Snapshot.withdrawnToken0 s) || positive (Snapshot.withdrawnToken1 s).
Definition hasFees (s : Snapshot.t) : bool :=
  positive (Snapshot.collectedFeesToken0 s) || positive (Snapshot.collectedFeesToken1 s).

(** The predicate of [positionSnapshots.filter(...)] *)
Definition significant (s : Snapshot.t) : bool :=
  hasDeposits s || hasWithdrawals s || hasFees s.

Definition significantSnapshots (positionSnapshots : list Snapshot.t)
  : list Snapshot.t :=
  filter significant positionSnapshots.

Definition when (b : bool) (m : Run unit) : Run unit :=
  if b then m else ret tt.

(** One entry of the activity timeline.  The template of its first line
    is evaluated, and may throw, before anything is printed. *)
Definition timelineEvent (pool : Pool.t) (entry : nat * Snapshot.t)
  : Run unit :=
  let (index, snapshot) := entry in
  let t0 := AStr (Token.name (Pool.token0 pool)) in
  let t1 := AStr (Token.name (Pool.token1 pool)) in
  date <- toISOString (Snapshot.timestamp snapshot) ;;
  log "event"
    [ACount (index + 1); date; AStr (Snapshot.blockNumber snapshot)] ;;;
  when (hasDeposits snapshot)
    (log "Deposited"
       [AStr (formatTokenAmount (Snapshot.depositedToken0 snapshot)); t0;
        AStr (formatTokenAmount (Snapshot.depositedToken1 snapshot)); t1]) ;;;
  when (hasWithdrawals snapshot)
    (log "Withdrawn"
       [AStr (formatTokenAmount (Snapshot.withdrawnToken0 snapshot)); t0;
        AStr (formatTokenAmount (Snapshot.withdrawnToken1 snapshot)); t1]) ;;;
  when (hasFees snapshot)
    (log "Fees"
       [AStr (formatTokenAmount (Snapshot.collectedFeesToken0 snapshot)); t0;
        AStr (formatTokenAmount (Snapshot.collectedFeesToken1 snapshot)); t1]).

(** The timeline of one position block: at most five events, and a note
    counting the rest. *)
Definition timeline (pool : Pool.t) (positionSnapshots : list Snapshot.t)
  : Run unit :=
  let significantSnapshots := significantSnapshots positionSnapshots in
  when (0 <? List.length significantSnapshots)%nat
    (log "ACTIVITY TIMELINE" [ACount (List.length significantSnapshots)] ;;;
     forEach (timelineEvent pool)
       (indexed (JSArray.slice0 5 significantSnapshots)) ;;;
     when (5 <? List.length significantSnapshots)%nat
       (log "more events" [ACount (List.length significantSnapshots - 5)])).

(** The body of [sortedPositions.forEach(([positionId, positionSnapshots]) => ...)] *)
Definition positionBlock (entry : string * list Snapshot.t) : Run unit :=
  let (positionId, positionSnapshots) := entry in
  match positionSnapshots with
  | [] => throw (TypeError "Cannot read properties of undefined")
  | firstSnapshot :: _ =>
      let pool := Snapshot.pool firstSnapshot in
      let owner := Snapshot.owner firstSnapshot in
      let t := positionTotals positionSnapshots in
      let t0 := AStr (Token.name (Pool.token0 pool)) in
      let t1 := AStr (Token.name (Pool.token1 pool)) in
      let amount (x : Number) := AStr (formatTokenAmount (Some (toString x))) in
      log "Position ID" [AStr positionId] ;;;
      log "Owner" [AStr owner] ;;;
      log "Pool" [t0; t1; AStr (Pool.id pool)] ;;;
      log "Activity" [ACount (List.length positionSnapshots)] ;;;
      log "Current Liquidity" [ANum (currentLiquidity t)] ;;;
      log "Peak Liquidity" [ANum (maxLiquidity t)] ;;;
      log "TOTALS ACROSS ALL ACTIVITY" [] ;;;
      log "Total Deposited Token0" [amount (totalDeposited0 t); t0] ;;;
      log "Total Deposited Token1" [amount (totalDeposited1 t); t1] ;;;
      log "Total Withdrawn Token0" [amount (totalWithdrawn0 t); t0] ;;;
      log "Total Withdrawn Token1" [amount (totalWithdrawn1 t); t1] ;;;
      log "Total Fees Token0" [amount (totalFees0 t); t0] ;;;
      log "Total Fees Token1" [amount (totalFees1 t); t1] ;;;
      log "NET POSITION" [] ;;;
      log "Net Token0" [amount (netToken0 t); t0] ;;;
      log "Net Token1" [amount (netToken1 t); t1] ;;;
      timeline pool positionSnapshots
  end.

(** The numerator of the average: [snapshots.filter(s => s.position?.id).length] *)
Definition withPositionId (snapshots : list Snapshot.t) : list Snapshot.t :=
  filter Snapshot.hasPositionId snapshots.

Definition averageActivity (snapshots : list Snapshot.t)
  (sortedPositions : list (string * list Snapshot.t)) : string :=
  toFixed
    (div (ofZ (Z.of_nat (List.length (withPositionId snapshots))))
         (ofZ (Z.of_nat (List.length sortedPositions))))
    1.

Definition displayPositionTransactions (snapshots : list Snapshot.t)
  : Run unit :=
  log "=== TRANSACTIONS BY POSITION ID ===" [] ;;;
  snapshotsByPosition <- lift (groupByPosition snapshots) ;;
  if (List.length (JSObject.keys snapshotsByPosition) =? 0)%nat then
    log "No positions found with valid position IDs" []
  else
    let sortedPositions := sortPositions snapshotsByPosition in
    forEach positionBlock sortedPositions ;;;
    log "POSITION SUMMARY" [] ;;;
    log "Total Unique Positions" [ACount (List.length sortedPositions)] ;;;
    match sortedPositions with
    | [] => throw (TypeError "Cannot read properties of undefined")
    | (positionId, positionSnapshots) :: _ =>
        log "Most Active Position"
          [AStr positionId; ACount (List.length positionSnapshots)]
    end ;;;
    log "Average Activity per Position"
      [AStr (averageActivity snapshots sortedPositions)].

(** The key under which a snapshot with a position id is grouped. *)
Definition positionKey (s : Snapshot.t) : string :=
  match Snapshot.positionId s with
  | Some i => i
  | None => EmptyString
  end.

(** The line that opens an entry of the timeline. *)
Definition eventLine (entry : nat * Snapshot.t) : Line :=
  Log "event"
    [ ACount (fst entry + 1);
      ADate (Snapshot.timestamp (snd entry));
      AStr (Snapshot.blockNumber (snd entry)) ].

(** The parsed amounts of one field, in the order of the snapshots. *)
Definition amounts (field : Snapshot.t -> option string)
  (l : list Snapshot.t) : list Number :=
  map (fun s => parseFloatOrZero (field s)) l.

(** A running sum, from left to right, starting at zero. *)
Definition sum (xs : list Number) : Number := fold_left add xs zero.

End Report.

(** ** The K-HYPE reports *)

Module KHype.
Import JSString JSNumber Format Console Report.
Local Open Scope string_scope.
Local Open Scope run_scope.

Definition KHYPE_TOKEN_ID : string :=
  "0xfd739d4e423301ce9385c1fb8850539d657c296d".

(** The allow-list of the filtering script. *)
Definition FILTER_USERS : list string :=
  [ "0x06253f963c242f3ac57201ff8298d7e5df3e8c4c";
    "0x43395c11f8f81db0cee08dedd2d45c377a955387" ].

(** [snapshots.filter(snapshot =>
       FILTER_USERS.includes(snapshot.owner.toLowerCase()))],
    with the allow-list as a parameter. *)
Definition filterSnapshots (filterUsers : list string)
  (snapshots : list Snapshot.t) : list Snapshot.t :=
  filter
    (fun snapshot =>
       JSArray.includes filterUsers (toLowerCase (Snapshot.owner snapshot)))
    snapshots.

(** [new Set(l).size] *)
Definition setSize (l : list string) : nat :=
  List.length (nodup string_dec l).

Fixpoint join (sep : string) (l : list string) : string :=
  match l with
  | [] => ""
  | [x] => x
  | x :: r => x ++ sep ++ join sep r
  end.

(** [snapshot.position?.id || 'N/A'] *)
Definition positionIdOrNA (s : Snapshot.t) : string :=
  match Snapshot.positionId s with
  | Some i => if String.eqb i "" then "N/A" else i
  | None => "N/A"
  end.

Definition snapshotBlock (pool : Pool.t) (entry : nat * Snapshot.t)
  : Run unit :=
  let (index, snapshot) := entry in
  let t0 := AStr (Token.name (Pool.token0 pool)) in
  let t1 := AStr (Token.name (Pool.token1 pool)) in
  date <- toISOString (Snapshot.timestamp snapshot) ;;
  log "Snapshot" [ACount (index + 1); date] ;;;
  log "Position ID" [AStr (positionIdOrNA snapshot)] ;;;
  log "Block" [AStr (Snapshot.blockNumber snapshot)] ;;;
  log "Liquidity"
    [AStr (match Snapshot.liquidity snapshot with
           | Some l => l | None => "null" end)] ;;;
  log "Deposited Token0" [AStr (formatTokenAmount (Snapshot.depositedToken0 snapshot)); t0] ;;;
  log "Deposited Token1" [AStr (formatTokenAmount (Snapshot.depositedToken1 snapshot)); t1] ;;;
  log "Withdrawn Token0" [AStr (formatTokenAmount (Snapshot.withdrawnToken0 snapshot)); t0] ;;;
  log "Withdrawn Token1" [AStr (formatTokenAmount (Snapshot.withdrawnToken1 snapshot)); t1] ;;;
  log "Collected Fees Token0" [AStr (formatTokenAmount (Snapshot.collectedFeesToken0 snapshot)); t0] ;;;
  log "Collected Fees Token1" [AStr (formatTokenAmount (Snapshot.collectedFeesToken1 snapshot)); t1] ;;;
  when (Snapshot.hasPositionId snapshot)
    (log "Position ID" [AStr (positionIdOrNA snapshot)]).

Definition userBlock (pool : Pool.t) (entry : string * list Snapshot.t)
  : Run unit :=
  let (owner, userSnapshots) := entry in
  log "User" [AStr owner; ACount (List.length userSnapshots)] ;;;
  forEach (snapshotBlock pool) (indexed userSnapshots).

(** The body of [Object.entries(snapshotsByPool).forEach(...)] *)
Definition poolBlock (entry : string * list Snapshot.t) : Run unit :=
  let (poolId, poolSnapshots) := entry in
  match poolSnapshots with
  | [] => throw (TypeError "Cannot read properties of undefined")
  | first :: _ =>
      let pool := Snapshot.pool first in
      log "Pool"
        [AStr (Token.name (Pool.token0 pool));
         AStr (Token.name (Pool.token1 pool)); AStr poolId] ;;;
      log "Token0"
        [AStr (Token.name (Pool.token0 pool));
         AStr (Token.id (Pool.token0 pool))] ;;;
      log "Token1"
        [AStr (Token.name (Pool.token1 pool));
         AStr (Token.id (Pool.token1 pool))] ;;;
      log "Snapshots" [ACount (List.length poolSnapshots)] ;;;
      snapshotsByUser <- lift (groupByUser poolSnapshots) ;;
      forEach (userBlock pool) (JSObject.entries snapshotsByUser)
  end.

Definition positionIds (snapshots : list Snapshot.t) : list string :=
  flat_map
    (fun s =>
       match Snapshot.positionId s with
       | Some i => if String.eqb i "" then [] else [i]
       | None => []
       end)
    snapshots.

Definition summary (title : string) (snapshots : list Snapshot.t)
  (snapshotsByPool : JSObject.t Snapshot.t) : Run unit :=
  let totalUsers := setSize (map Snapshot.owner snapshots) in
  let totalPositions := setSize (positionIds snapshots) in
  log title [] ;;;
  log "Total Snapshots" [ACount (List.length snapshots)] ;;;
  log "Unique Users" [ACount totalUsers] ;;;
  log "Unique Positions" [ACount totalPositions] ;;;
  log "Pools Covered" [ACount (List.length (JSObject.keys snapshotsByPool))].

(** [displayPositionSnapshots] of the script without a user filter *)
Definition displayAllPositionSnapshots (snapshots : list Snapshot.t)
  : Run unit :=
  log "=== K-HYPE POSITION SNAPSHOTS (Last 7 Days) ===" [] ;;;
  if (List.length snapshots =? 0)%nat then
    log "No position snapshots found for K-HYPE pools in the last 7 days" []
  else
    snapshotsByPool <- lift (groupByPool snapshots) ;;
    forEach poolBlock (JSObject.entries snapshotsByPool) ;;;
    summary "SUMMARY" snapshots snapshotsByPool.

(** [displayPositionSnapshots] of the script with the user filter *)
Definition displayPositionSnapshots (filterUsers : list string)
  (snapshots : list Snapshot.t) : Run unit :=
  let filteredSnapshots := filterSnapshots filterUsers snapshots in
  log "=== K-HYPE POSITION SNAPSHOTS (Last 7 Days) ===" [] ;;;
  log "Filtering for specific users" [AStr (join ", " filterUsers)] ;;;
  log "Filtered to"
    [ACount (List.length filteredSnapshots); ACount (List.length snapshots)] ;;;
  if (List.length filteredSnapshots =? 0)%nat then
    log "No position snapshots found for the filtered users in K-HYPE pools" []
  else
    snapshotsByPool <- lift (groupByPool filteredSnapshots) ;;
    forEach poolBlock (JSObject.entries snapshotsByPool) ;;;
    summary "SUMMARY (Filtered)" filteredSnapshots snapshotsByPool ;;;
    displayPositionTransactions filteredSnapshots.

End KHype.

(** ** The pool report *)

Module PoolReport.
Import JSString JSNumber Format Console Report.
Local Open Scope string_scope.
Local Open Scope run_scope.

Definition POOL_ID : string := "0xc06e0fea115e54c54125dfe2f0509d5be55e4005".

Definition recentSnapshot (pool : Pool.t) (entry : nat * Snapshot.t)
  : Run unit :=
  let (index, snapshot) := entry in
  let s0 := AStr (Token.symbol (Pool.token0 pool)) in
  let s1 := AStr (Token.symbol (Pool.token1 pool)) in
  date <- toISOString (Snapshot.timestamp snapshot) ;;
  log "Snapshot" [ACount (index + 1); date] ;;;
  log "Block" [AStr (Snapshot.blockNumber snapshot)] ;;;
  log "Liquidity"
    [AStr (match Snapshot.liquidity snapshot with
           | Some l => l | None => "null" end)] ;;;
  log "Deposited" [s0; AStr (formatTokenAmount (Snapshot.depositedToken0 snapshot))] ;;;
  log "Deposited" [s1; AStr (formatTokenAmount (Snapshot.depositedToken1 snapshot))] ;;;
  log "Withdrawn" [s0; AStr (formatTokenAmount (Snapshot.withdrawnToken0 snapshot))] ;;;
  log "Withdrawn" [s1; AStr (formatTokenAmount (Snapshot.withdrawnToken1 snapshot))] ;;;
  log "Fees" [s0; AStr (formatTokenAmount (Snapshot.collectedFeesToken0 snapshot))] ;;;
  log "Fees" [s1; AStr (formatTokenAmount (Snapshot.collectedFeesToken1 snapshot))].

Definition tickRange (s : Snapshot.t) : option (string * string) :=
  match Snapshot.position s with
  | Some p =>
      match Position.tickLower p, Position.tickUpper p with
      | Some lo, Some hi => Some (lo, hi)
      | _, _ => None
      end
  | None => None
  end.

Definition positionBlock (pool : Pool.t) (entry : string * list Snapshot.t)
  : Run unit :=
  let (positionId, positionSnapshots) := entry in
  match positionSnapshots with
  | [] => throw (TypeError "Cannot read properties of undefined")
  | firstSnapshot :: _ =>
      log "Position ID" [AStr positionId] ;;;
      log "Owner" [AStr (Snapshot.owner firstSnapshot)] ;;;
      log "Snapshots" [ACount (List.length positionSnapshots)] ;;;
      match tickRange firstSnapshot with
      | Some (lo, hi) => log "Tick Range" [AStr lo; AStr hi]
      | None => ret tt
      end ;;;
      forEach (recentSnapshot pool)
        (indexed (JSArray.slice0 3 positionSnapshots)) ;;;
      when (3 <? List.length positionSnapshots)%nat
        (log "more snapshots" [ACount (List.length positionSnapshots - 3)])
  end.

(** [displayPositionSnapshots(snapshots, pool)] of the pool script *)
Definition displayPositionSnapshots (snapshots : list Snapshot.t)
  (pool : Pool.t) : Run unit :=
  log "=== POSITION SNAPSHOTS (Last 7 Days) ===" [] ;;;
  if (List.length snapshots =? 0)%nat then
    log "No position snapshots found in the last 7 days" []
  else
    snapshotsByPosition <- lift (groupByPosition snapshots) ;;
    let sortedPositions := sortPositions snapshotsByPosition in
    forEach (positionBlock pool) sortedPositions ;;;
    log "SNAPSHOTS SUMMARY" [] ;;;
    log "Total Snapshots" [ACount (List.length snapshots)] ;;;
    log "Unique Positions" [ACount (List.length sortedPositions)] ;;;
    log "Unique Owners" [ACount (KHype.setSize (map Snapshot.owner snapshots))] ;;;
    match sortedPositions with
    | (positionId, positionSnapshots) :: _ =>
        log "Most Active Position"
          [AStr positionId; ACount (List.length positionSnapshots)]
    | [] => log "Most Active Position" [AStr "undefined"; AStr "undefined"]
    end.

End PoolReport.

(** ** The fetchers *)

Module Fetcher.
Import JSString JSNumber Console.
Local Open Scope string_scope.

Definition SUBGRAPH_URL : string :=
  "https://api.upheaval.fi/subgraphs/name/upheaval/exchange-v3".

Inductive Query :=
| POOL_INFO_QUERY
| CURRENT_POSITIONS_QUERY
| POSITION_SNAPSHOTS_QUERY
| ALL_POOLS_QUERY.

Inductive Variable_ :=
| VString (s : string)
| VStrings (l : list string).

(** The body of one HTTP POST. *)
Record Request := mkRequest {
  url : string;
  query : Query;
  variables : list (string * Variable_) }.

(** A current position of the pool, as [CURRENT_POSITIONS_QUERY]
    returns it. *)
Record CurrentPosition := mkCurrentPosition {
  cp_id : string;
  cp_owner : string;
  cp_liquidity : string }.

(** The [data] member of a decoded response; a field that the response
    lacks, or that is [null], is [None]. *)
Record Data := mkData {
  pool : option Pool.t;
  pools : option (list Pool.t);
  positions : option (list CurrentPosition);
  positionSnapshots : option (list Snapshot.t) }.

(** A decoded response.  [errors] is [None] when the member is absent or
    [null]; an array, even an empty one, is truthy. *)
Record Body := mkBody {
  errors : option (list string);
  data : option Data }.

(** What [await fetch(...)] followed by [await response.json()] yields:
    a rejection, or the decoded body. *)
Inductive Reply :=
| Rejected (e : JSError)
| Decoded (b : Body).

(** The environment of a run: the reply the network gives to the
    [n]-th request, the requests sent so far, the console, and the time
    value of the date seven calendar days before now (the clock of a run
    lies within the range of Date, so that this date is valid). *)
Record World := mkWorld {
  replies : nat -> Reply;
  sent : list Request;
  console : list Line;
  sevenDaysAgo : Z }.

Definition IO (A : Type) : Type := World -> Result A * World.

Definition ret {A} (a : A) : IO A := fun w => (inr a, w).
Definition throw {A} (e : JSError) : IO A := fun w => (inl e, w).

Definition bind {A B} (m : IO A) (k : A -> IO B) : IO B :=
  fun w =>
    match m w with
    | (inr a, w') => k a w'
    | (inl e, w') => (inl e, w')
    end.

(** [try { m } catch (error) { h error }] *)
Definition tryCatch {A} (m : IO A) (h : JSError -> IO A) : IO A :=
  fun w =>
    match m w with
    | (inr a, w') => (inr a, w')
    | (inl e, w') => h e w'
    end.

Definition print (l : Line) : IO unit :=
  fun w =>
    (inr tt, mkWorld (replies w) (sent w) (console w ++ [l]) (sevenDaysAgo w)).

(** One request: it is recorded, and the network answers it. *)
Definition post (r : Request) : IO Body :=
  fun w =>
    let w' := mkWorld (replies w) (sent w ++ [r]) (console w) (sevenDaysAgo w) in
    match replies w (List.length (sent w)) with
    | Rejected e => (inl e, w')
    | Decoded b => (inr b, w')
    end.

(** [getSevenDaysAgo]: [Math.floor(sevenDaysAgo.getTime() / 1000)] *)
Definition getSevenDaysAgo : IO Z :=
  fun w => (inr (sevenDaysAgo w / 1000)%Z, w).

Definition stringify (errs : list string) : string :=
  "[" ++ KHype.join "," errs ++ "]".

Definition graphQLErrors (errs : list string) : JSError :=
  Error ("GraphQL errors: " ++ stringify errs).

(** Reading a member of [data.data] when [data.data] is [undefined]. *)
Definition dataOf (b : Body) : IO Data :=
  match data b with
  | Some d => ret d
  | None => throw (TypeError "Cannot read properties of undefined")
  end.

(** Reading [.length] of a result array that the response lacks. *)
Definition required {A} (field : option A) : IO A :=
  match field with
  | Some v => ret v
  | None => throw (TypeError "Cannot read properties of undefined")
  end.

End Fetcher.

Declare Scope io_scope.
Delimit Scope io_scope with io.
Notation "x <- m ;; k" := (Fetcher.bind m (fun x => k))
  (at level 61, m at next level, right associativity) : io_scope.
Notation "m ;;; k" := (Fetcher.bind m (fun _ => k))
  (at level 61, right associativity) : io_scope.

Module PoolFetcher.
Import JSNumber Console Fetcher.
Local Open Scope string_scope.
Local Open Scope io_scope.

Definition POOL_ID : string := PoolReport.POOL_ID.


Definition fetchCurrentPositions : IO (list CurrentPosition) :=
  tryCatch
    (print (Log "Fetching current positions for pool" [AStr POOL_ID]) ;;;
     data <- post (mkRequest SUBGRAPH_URL CURRENT_POSITIONS_QUERY
                     [("poolId", VString POOL_ID)]) ;;
     match errors data with
     | Some errs => throw (graphQLErrors errs)
     | None =>
         d <- dataOf data ;;
         ps <- required (positions d) ;;
         print (Log "Found current positions" [ACount (List.length ps)]) ;;;
         ret ps
     end)
    (fun error =>
       print (LogError "Error fetching current positions:" [AError error]) ;;;
       throw error).

Definition fetchPositionSnapshots : IO (list Snapshot.t) :=
  tryCatch
    (sevenDaysAgoTimestamp <- getSevenDaysAgo ;;
     print (Log "Fetching position snapshots for pool" [AStr POOL_ID]) ;;;
     print (Log "Time range: Last 7 days"
              [ANum (ofZ (sevenDaysAgoTimestamp * 1000))]) ;;;
     data <- post (mkRequest SUBGRAPH_URL POSITION_SNAPSHOTS_QUERY
                     [("poolId", VString POOL_ID);
                      ("timestamp",
                       VString (toString (ofZ sevenDaysAgoTimestamp)))]) ;;
     match errors data with
     | Some errs => throw (graphQLErrors errs)
     | None =>
         d <- dataOf data ;;
         ss <- required (positionSnapshots d) ;;
         print (Log "Found position snapshots" [ACount (List.length ss)]) ;;;
         ret ss
     end)
    (fun error =>
       print (LogError "Error fetching position snapshots:" [AError error]) ;;;
       throw error).

End PoolFetcher.

Module KHypeFetcher.
Import JSString JSNumber Console Fetcher.
Local Open Scope string_scope.
Local Open Scope io_scope.

(** The fetchers of the two K-HYPE scripts differ in their endpoint only,
    which is a parameter here.  (In the script with the user filter the
    literal of [SUBGRAPH_URL] is followed by a stray quote; no endpoint is
    defined for it.) *)

(** The predicate of [allPools.filter(...)] *)
Definition isKHypePool (p : Pool.t) : bool :=
  String.eqb (toLowerCase (Token.id (Pool.token0 p)))
             (toLowerCase KHype.KHYPE_TOKEN_ID)
  || String.eqb (toLowerCase (Token.id (Pool.token1 p)))
                (toLowerCase KHype.KHYPE_TOKEN_ID).

(** The two K-HYPE scripts share their fetchers up to the endpoint. *)
Definition fetchKHypePools (SUBGRAPH_URL : string) : IO (list Pool.t) :=
  tryCatch
    (print (Log "Fetching K-HYPE pools..." []) ;;;
     data <- post (mkRequest SUBGRAPH_URL ALL_POOLS_QUERY []) ;;
     match errors data with
     | Some errs => throw (graphQLErrors errs)
     | None =>
         d <- dataOf data ;;
         allPools <- required (pools d) ;;
         let kHypePools := filter isKHypePool allPools in
         print (Log "Found pools with K-HYPE"
                  [ACount (List.length kHypePools);
                   ACount (List.length allPools)]) ;;;
         ret kHypePools
     end)
    (fun error =>
       print (LogError "Error fetching K-HYPE pools:" [AError error]) ;;; throw error).

Definition fetchKHypePositionSnapshots (SUBGRAPH_URL : string)
  : IO (list Snapshot.t) :=
  tryCatch
    (kHypePools <- fetchKHypePools SUBGRAPH_URL ;;
     let kHypePoolIds := map Pool.id kHypePools in
     sevenDaysAgoTimestamp <- getSevenDaysAgo ;;
     print (Log "Fetching position snapshots for K-HYPE pools..." []) ;;;
     print (Log "Time range: Last 7 days"
              [ANum (ofZ (sevenDaysAgoTimestamp * 1000))]) ;;;
     print (Log "Pool IDs" [ACount (List.length kHypePoolIds)]) ;;;
     data <- post (mkRequest SUBGRAPH_URL POSITION_SNAPSHOTS_QUERY
                     [("poolIds", VStrings kHypePoolIds);
                      ("timestamp",
                       VString (toString (ofZ sevenDaysAgoTimestamp)))]) ;;
     match errors data with
     | Some errs =>
         print (LogError "GraphQL errors:" [AStr (stringify errs)]) ;;;
         throw (graphQLErrors errs)
     | None =>
         d <- dataOf data ;;
         ss <- required (positionSnapshots d) ;;
         print (Log "Found position snapshots" [ACount (List.length ss)]) ;;;
         ret ss
     end)
    (fun error =>
       print (LogError "Error fetching position snapshots:" [AError error]) ;;;
       throw error).

End KHypeFetcher.

(** ** Outcomes of a request *)

Module Outcome.
Import Console Fetcher.

(** What a reply amounts to for a caller that needs one field of the
    data: the transport failed, the response carries errors, the field (or
    the data as a whole) is absent, or the field is delivered. *)
Inductive Verdict (A : Type) :=
| TransportFailed (e : JSError)
| GraphQLErrors (errs : list string)
| Missing
| Delivered (a : A).
Arguments TransportFailed {A} e.
Arguments GraphQLErrors {A} errs.
Arguments Missing {A}.
Arguments Delivered {A} a.

Definition verdict {A : Type} (field : Data -> option A) (r : Reply)
  : Verdict A :=
  match r with
  | Rejected e => TransportFailed e
  | Decoded b =>
      match errors b with
      | Some errs => GraphQLErrors errs
      | None =>
          match data b with
          | None => Missing
          | Some d =>
              match field d with
              | None => Missing
              | Some a => Delivered a
              end
          end
      end
  end.

(** The reply to the next request, and to the one after it. *)
Definition nextReply (w : World) : Reply := replies w (List.length (sent w)).
Definition secondReply (w : World) : Reply :=
  replies w (S (List.length (sent w))).

(** The error was printed last, by [console.error] under the given
    label, before it was thrown again. *)
Definition reported (label : string) (e : JSError) (w w' : World) : Prop :=
  exists lines,
    console w' = console w ++ lines ++ [LogError label [AError e]].

(** Nothing was printed by [console.error]. *)
Definition quiet (w w' : World) : Prop :=
  exists lines,
    console w' = console w ++ lines
    /\ Forall (fun l => match l with Log _ _ => True | LogError _ _ => False end)
         lines.


Definition allPoolsRequest (url : string) : Request :=
  mkRequest url ALL_POOLS_QUERY [].

Definition timestampOf (w : World) : string :=
  JSNumber.toString (JSNumber.ofZ (sevenDaysAgo w / 1000)).

Definition snapshotsRequest (url : string) (w : World)
  (allPools : list Pool.t) : Request :=
  mkRequest url POSITION_SNAPSHOTS_QUERY
    [ ("poolIds"%string,
       VStrings (map Pool.id (filter KHypeFetcher.isKHypePool allPools)));
      ("timestamp"%string, VString (timestampOf w)) ].

End Outcome.

(** ** Sample data *)

Module Sample.
Local Open Scope string_scope.

Definition khype : Token.t :=
  Token.mk KHype.KHYPE_TOKEN_ID "Kinetiq Staked HYPE" "kHYPE".
Definition whype : Token.t :=
  Token.mk "0x5555555555555555555555555555555555555555" "Wrapped HYPE" "WHYPE".

Definition poolWith (id : string) : Pool.t := Pool.mk id khype whype.
Definition pool : Pool.t := poolWith PoolReport.POOL_ID.

Definition position (id : string) : option Position.t :=
  Some (Position.mk (Some id) None None).

(** A snapshot with no amounts. *)
Definition bare (owner : string) (p : Pool.t) (pos : option Position.t)
  : Snapshot.t :=
  Snapshot.mk "s" owner p pos "100" "1757500000" None
    None None None None None None.

(** A snapshot that records a deposit and a withdrawal of token 0 only. *)
Definition moved (owner deposited0 withdrawn0 : string) : Snapshot.t :=
  Snapshot.mk "s" owner pool (position "7") "100" "1757500000" None
    (Some deposited0) None (Some withdrawn0) None None None.

(** A snapshot with the given six amounts. *)
Definition amounts (d0 d1 w0 w1 f0 f1 : string) : Snapshot.t :=
  Snapshot.mk "s" "0xa" pool (position "7") "100" "1757500000" (Some "10")
    (Some d0) (Some d1) (Some w0) (Some w1) (Some f0) (Some f1).

Definition quiet : Snapshot.t := amounts "0" "0" "0" "0" "0" "0".
Definition deposit : Snapshot.t := amounts "1.5" "0" "0" "0" "0" "0".

(** A deposit whose timestamp is no number. *)
Definition undated : Snapshot.t :=
  Snapshot.mk "s" "0xa" pool (position "7") "100" "soon" (Some "10")
    (Some "1.5") (Some "0") (Some "0") (Some "0") (Some "0") (Some "0").

Definition okWorld (b : Fetcher.Body) : Fetcher.World :=
  Fetcher.mkWorld (fun _ => Fetcher.Decoded b) [] [] 1757500000000.

(** The position ids "2" and "1", met in this order. *)
Definition twoPositions : list Snapshot.t :=
  [ bare "0xa" pool (position "2"); bare "0xa" pool (position "1") ].

End Sample.

(** ** The properties as the specification words them *)

Module Stated.
Import JSString JSNumber Format.

(** The precision rule by magnitude: six places from magnitude one on,
    twelve places for a magnitude strictly between zero and one. *)
Definition placesByMagnitude (a : option string) : Prop :=
  let v := parseFloatValue a in
  (ge (abs v) one = true ->
   decimalPlaces (formatTokenAmount a) = Some 6%nat)
  /\ (gt (abs v) zero = true /\ lt (abs v) one = true ->
      decimalPlaces (formatTokenAmount a) = Some 12%nat).

(** The owner allow-list: an empty list keeps every snapshot; otherwise a
    snapshot is kept when its owner equals some entry up to letter case. *)
Definition matchesOwner (owner entry : string) : bool :=
  String.eqb (toLowerCase owner) (toLowerCase entry).

Definition allowListFilter (users : list string)
  (snapshots : list Snapshot.t) : list Snapshot.t :=
  match users with
  | [] => snapshots
  | _ => filter (fun s => existsb (matchesOwner (Snapshot.owner s)) users)
           snapshots
  end.

(** The groups of an object partition a list by a key: the keys are
    distinct, every group holds exactly the elements with its key, in
    their order, and the groups together hold the elements of the list. *)
Definition partitionsInto {A : Type} (key : A -> string) (l : list A)
  (o : JSObject.t A) : Prop :=
  NoDup (JSObject.keys o)
  /\ Permutation (flat_map snd (JSObject.entries o)) l
  /\ Forall (fun p => snd p = filter (Grouping.hasKey key (fst p)) l)
       (JSObject.entries o).

(** Neither the pool id nor the owner of a snapshot names a property that
    objects inherit. *)
Definition plainKeys (s : Snapshot.t) : bool :=
  negb (JSObject.inherited (Report.poolId s))
  && negb (JSObject.inherited (Snapshot.owner s)).

(** Grouping by pool and then by owner partitions the snapshots. *)
Definition partitionsExactly (snapshots : list Snapshot.t) : Prop :=
  exists byPool,
    Report.groupByPool snapshots = inr byPool
    /\ partitionsInto Report.poolId snapshots byPool
    /\ Forall
         (fun p =>
            exists byUser,
              Report.groupByUser (snd p) = inr byUser
              /\ partitionsInto Snapshot.owner (snd p) byUser)
         (JSObject.entries byPool).

Definition activity (g : string * list Snapshot.t) : nat :=
  List.length (snd g).

(** The most active positions come first. *)
Definition mostActiveFirst (sorted : list (string * list Snapshot.t)) : Prop :=
  StronglySorted (fun a b => (activity b <= activity a)%nat) sorted.

(** Positions of equal activity stand in the order of a reference list. *)
Definition tiesFollow (reference sorted : list (string * list Snapshot.t))
  : Prop :=
  forall n,
    filter (fun g => (activity g =? n)%nat) sorted
    = filter (fun g => (activity g =? n)%nat) reference.

(** The order of the position blocks: by descending activity, ties in the
    order in which the groups were created. *)
Definition orderedByActivity (snapshotsByPosition : JSObject.t Snapshot.t)
  : Prop :=
  mostActiveFirst (Report.sortPositions snapshotsByPosition)
  /\ tiesFollow snapshotsByPosition (Report.sortPositions snapshotsByPosition).

Definition sixAmounts (s : Snapshot.t) : list (option string) :=
  [ Snapshot.depositedToken0 s; Snapshot.depositedToken1 s;
    Snapshot.withdrawnToken0 s; Snapshot.withdrawnToken1 s;
    Snapshot.collectedFeesToken0 s; Snapshot.collectedFeesToken1 s ].

(** At least one of the six amounts is not zero. *)
Definition anyNonZero (s : Snapshot.t) : bool :=
  existsb (fun f => negb (strictEq (parseFloatOrZero f) zero)) (sixAmounts s).

(** At least one of the six amounts parses to a number greater than
    zero; an absent or empty amount counts as zero. *)
Definition anyPositive (s : Snapshot.t) : bool :=
  existsb (fun amount => gt (parseFloatOrZero amount) zero) (sixAmounts s).

(** The date of a snapshot is valid. *)
Definition validDate (s : Snapshot.t) : bool :=
  JSDate.validTimestamp (Snapshot.timestamp s).

(** The elements at the head of a list that satisfy a test. *)
Fixpoint leading {A : Type} (test : A -> bool) (l : list A) : list A :=
  match l with
  | x :: r => if test x then x :: leading test r else []
  | [] => []
  end.

(** A snapshot is on the timeline exactly when an amount is not zero. *)
Definition includedWhenNonZero (s : Snapshot.t) : Prop :=
  Report.significant s = anyNonZero s.

End Stated.

(** ** The order of Numbers *)

Module NumberOrder.
Import JSNumber.

(** Three integers that order the Numbers other than NaN as the
    relational operators do: by sign, then exponent, then mantissa. *)
Definition rank1 (x : Number) : Z :=
  match x with
  | S754_infinity s => if s then -2 else 2
  | S754_finite s _ _ => if s then -1 else 1
  | _ => 0
  end.

Definition rank2 (x : Number) : Z :=
  match x with
  | S754_finite s _ e => if s then - e else e
  | _ => 0
  end.

Definition rank3 (x : Number) : Z :=
  match x with
  | S754_finite s m _ => if s then Zneg m else Zpos m
  | _ => 0
  end.

Definition below (x y : Number) : Prop :=
  rank1 x < rank1 y
  \/ (rank1 x = rank1 y
      /\ (rank2 x < rank2 y \/ (rank2 x = rank2 y /\ rank3 x < rank3 y))).

Definition isNaN (x : Number) : bool :=
  match x with S754_nan => true | _ => false end.

(** The running maximum of [liquidity > maxLiquidity]. *)
Definition runningMax (M x : Number) : Number := if gt x M then x else M.

End NumberOrder.

(** ** Counting printed lines *)

(** How many printed lines carry a given text. *)
Definition countText (t : string) (out : list Console.Line) : nat :=
  List.length (filter (Console.hasText t) out).

(** ** The entry points of the K-HYPE scripts *)

Module Main.
Import Console Fetcher.
Local Open Scope string_scope.
Local Open Scope io_scope.

(** A report prints on the console of the run. *)
Definition display {A : Type} (m : Run A) : IO A :=
  fun w =>
    (outcome m,
     mkWorld (replies w) (sent w) (console w ++ output m) (sevenDaysAgo w)).

(** [main] of a K-HYPE script, for the report it prints: the snapshots,
    or [None] for [undefined] when an error was caught. *)
Definition mainWith (SUBGRAPH_URL : string)
  (report : list Snapshot.t -> Run unit) : IO (option (list Snapshot.t)) :=
  tryCatch
    (snapshots <- KHypeFetcher.fetchKHypePositionSnapshots SUBGRAPH_URL ;;
     display (report snapshots) ;;;
     ret (Some snapshots))
    (fun error =>
       print (LogError "Failed to fetch K-HYPE position snapshots:"
                [AError error]) ;;;
       ret None).

(** [main] of the script without a user filter *)
Definition main : IO (option (list Snapshot.t)) :=
  mainWith SUBGRAPH_URL KHype.displayAllPositionSnapshots.

End Main.

(** * Properties *)

(** ** Digit strings *)

Section DigitFacts.
Import JSString.

Lemma isDigit_digitChar (d : Z) :
  0 <= d <= 9 -> isDigit (digitChar d) = true.
Proof.
  intros H.
  assert (d = 0 \/ d = 1 \/ d = 2 \/ d = 3 \/ d = 4 \/ d = 5 \/ d = 6
          \/ d = 7 \/ d = 8 \/ d = 9) as Hd by lia.
  repeat (destruct Hd as [-> | Hd]; [reflexivity |]).
  subst d. reflexivity.
Qed.

Lemma digitChar_not_zero (d : Z) :
  1 <= d <= 9 -> digitChar d <> "0"%char.
Proof.
  intros H.
  assert (d = 1 \/ d = 2 \/ d = 3 \/ d = 4 \/ d = 5 \/ d = 6
          \/ d = 7 \/ d = 8 \/ d = 9) as Hd by lia.
  repeat (destruct Hd as [-> | Hd]; [discriminate |]).
  subst d. discriminate.
Qed.

Lemma decimalAux_digits (fuel : nat) :
  forall n acc,
    0 <= n ->
    forallb isDigit acc = true ->
    forallb isDigit (decimalAux fuel n acc) = true.
Proof.
  induction fuel as [| k IH]; intros n acc Hn Hacc; simpl.
  - rewrite isDigit_digitChar, Hacc; [reflexivity |].
    pose proof (Z.mod_pos_bound n 10). lia.
  - destruct (n <? 10) eqn:Hlt.
    + apply Z.ltb_lt in Hlt. simpl.
      rewrite isDigit_digitChar, Hacc; [reflexivity | lia].
    + apply IH.
      * apply Z.div_pos; lia.
      * simpl. rewrite isDigit_digitChar, Hacc; [reflexivity |].
        pose proof (Z.mod_pos_bound n 10). lia.
Qed.

Lemma decimalAux_length (fuel : nat) :
  forall n acc, (List.length acc < List.length (decimalAux fuel n acc))%nat.
Proof.
  induction fuel as [| k IH]; intros n acc; simpl.
  - lia.
  - destruct (n <? 10); simpl; [lia |].
    specialize (IH (n / 10) (digitChar (n mod 10) :: acc)). simpl in IH. lia.
Qed.

Lemma decimal_digits (n : Z) :
  0 <= n -> forallb isDigit (decimal n) = true.
Proof. intros H. apply decimalAux_digits; [assumption | reflexivity]. Qed.

Lemma decimal_nonempty (n : Z) : (0 < List.length (decimal n))%nat.
Proof.
  unfold decimal.
  pose proof (decimalAux_length (Z.to_nat (Z.log2 n)) n []) as H.
  simpl in H. lia.
Qed.

(** The numeral of a positive integer is not the text "0". *)
Lemma decimal_positive_not_zero (n : Z) :
  1 <= n -> decimal n <> ["0"%char].
Proof.
  intros Hn. unfold decimal.
  destruct (Z.to_nat (Z.log2 n)) as [| k] eqn:Hfuel; simpl.
  - assert (n = 1) as ->.
    { destruct (Z.eq_dec n 1) as [|Hne]; [assumption | exfalso].
      assert (1 <= Z.log2 n) by (apply Z.log2_le_pow2; simpl; lia).
      lia. }
    discriminate.
  - destruct (n <? 10) eqn:Hlt.
    + apply Z.ltb_lt in Hlt. intros Heq. injection Heq as Heq.
      revert Heq. apply digitChar_not_zero. lia.
    + intros Heq.
      pose proof (decimalAux_length k (n / 10) [digitChar (n mod 10)]) as H.
      rewrite Heq in H. simpl in H. lia.
Qed.

Lemma forallb_firstn {A} (f : A -> bool) (n : nat) (l : list A) :
  forallb f l = true -> forallb f (firstn n l) = true.
Proof.
  revert n. induction l as [| x l IH]; intros [| n] H; simpl in *;
    try reflexivity.
  apply andb_true_iff in H as [Hx Hl]. rewrite Hx. simpl. auto.
Qed.

Lemma forallb_skipn {A} (f : A -> bool) (n : nat) (l : list A) :
  forallb f l = true -> forallb f (skipn n l) = true.
Proof.
  revert n. induction l as [| x l IH]; intros [| n] H; simpl in *;
    try reflexivity; try assumption.
  apply andb_true_iff in H as [Hx Hl]. auto.
Qed.

Lemma zeros_digits (k : nat) : forallb isDigit (zeros k) = true.
Proof. induction k; simpl; auto. Qed.

Lemma spanDigits_stop (a : list ascii) (c : ascii) (b : list ascii) :
  forallb isDigit a = true ->
  isDigit c = false ->
  spanDigits (a ++ c :: b) = (a, c :: b).
Proof.
  intros Ha Hc. induction a as [| x a IH]; simpl in *.
  - rewrite Hc. reflexivity.
  - apply andb_true_iff in Ha as [Hx Ha]. rewrite Hx, (IH Ha). reflexivity.
Qed.

End DigitFacts.

(** ** Fixed-point notation *)

Section FixedFacts.
Import JSString JSNumber Format.

Lemma roundHalfUp_nonneg (m : positive) (e : Z) (f : nat) :
  0 <= roundHalfUp m e f.
Proof.
  unfold roundHalfUp. destruct (0 <=? e) eqn:He.
  - apply Z.leb_le in He.
    apply Z.mul_nonneg_nonneg; [apply Z.mul_nonneg_nonneg |];
      try lia; apply Z.pow_nonneg; lia.
  - apply Z.leb_gt in He.
    apply Z.div_pos.
    + assert (0 <= 10 ^ Z.of_nat f) by (apply Z.pow_nonneg; lia).
      assert (0 <= 2 ^ (- e)) by (apply Z.pow_nonneg; lia).
      nia.
    + apply Z.pow_pos_nonneg; lia.
Qed.

(** With [f > 0] fraction digits the digit string has an integer part of
    at least one digit, a point, and exactly [f] digits after it. *)
Lemma fixedDigits_shape (n : Z) (f : nat) :
  0 <= n ->
  exists a b,
    fixedDigits n (S f) = a ++ "."%char :: b
    /\ a <> []
    /\ forallb isDigit a = true
    /\ forallb isDigit b = true
    /\ List.length b = S f.
Proof.
  intros Hn. unfold fixedDigits.
  set (m := decimal n).
  set (m' := if (List.length m <=? S f)%nat
             then zeros (S f + 1 - List.length m) ++ m else m).
  assert (Hdig : forallb isDigit m' = true).
  { unfold m'. destruct (List.length m <=? S f)%nat.
    - rewrite forallb_app, zeros_digits. simpl. apply decimal_digits, Hn.
    - apply decimal_digits, Hn. }
  assert (Hlen : (S f < List.length m')%nat).
  { unfold m'. destruct (List.length m <=? S f)%nat eqn:Hle.
    - apply Nat.leb_le in Hle. rewrite length_app. unfold zeros.
      rewrite repeat_length. lia.
    - apply Nat.leb_gt in Hle. lia. }
  exists (firstn (List.length m' - S f) m'), (skipn (List.length m' - S f) m').
  repeat split.
  - intros Hnil. apply (f_equal (@List.length ascii)) in Hnil.
    rewrite length_firstn in Hnil. simpl in Hnil. lia.
  - apply forallb_firstn, Hdig.
  - apply forallb_skipn, Hdig.
  - rewrite length_skipn. lia.
Qed.

Lemma isDigit_not_minus (c : ascii) :
  isDigit c = true -> (code c =? 45) = false.
Proof.
  unfold isDigit. intros H. apply andb_true_iff in H as [H _].
  apply Z.leb_le in H. apply Z.eqb_neq. lia.
Qed.

(** A numeral of that shape, with or without a minus sign, has as many
    decimal places as it has digits after the point. *)
Lemma decimalPlaces_numeral (neg : bool) (a b : list ascii) :
  a <> [] ->
  forallb isDigit a = true ->
  forallb isDigit b = true ->
  decimalPlaces
    (string_of_list_ascii
       ((if neg then ["-"%char] else []) ++ a ++ "."%char :: b))
  = Some (List.length b).
Proof.
  intros Ha Hda Hdb. unfold decimalPlaces.
  rewrite list_ascii_of_string_of_list_ascii. cbv zeta.
  destruct a as [| x a]; [contradiction |].
  pose proof Hda as Hda'. simpl in Hda'.
  apply andb_true_iff in Hda' as [Hx _].
  destruct neg.
  - change (["-"%char] ++ (x :: a) ++ "."%char :: b)
      with ("-"%char :: ((x :: a) ++ "."%char :: b)).
    cbv iota. change (code "-" =? 45) with true. cbv iota.
    rewrite spanDigits_stop by (assumption || reflexivity).
    simpl. rewrite Hdb. reflexivity.
  - change ([] ++ (x :: a) ++ "."%char :: b)
      with (x :: (a ++ "."%char :: b)).
    cbv iota. rewrite (isDigit_not_minus x Hx).
    change (x :: a ++ "."%char :: b) with ((x :: a) ++ "."%char :: b).
    rewrite spanDigits_stop by (assumption || reflexivity).
    simpl. rewrite Hdb. reflexivity.
Qed.

Lemma decimalPlaces_fixedDigits (neg : bool) (n : Z) (f : nat) :
  0 <= n ->
  decimalPlaces
    (string_of_list_ascii
       ((if neg then ["-"%char] else []) ++ fixedDigits n (S f)))
  = Some (S f).
Proof.
  intros Hn.
  destruct (fixedDigits_shape n f Hn) as (a & b & -> & Ha & Hda & Hdb & Hlen).
  rewrite decimalPlaces_numeral by assumption. now rewrite Hlen.
Qed.

Lemma fixedDigits_long (n : Z) (f : nat) :
  0 <= n -> (2 <= List.length (fixedDigits n (S f)))%nat.
Proof.
  intros Hn.
  destruct (fixedDigits_shape n f Hn) as (a & b & -> & Ha & _ & _ & Hlen).
  rewrite length_app. simpl. lia.
Qed.

End FixedFacts.

(** ** Comparison of Numbers *)

Section CompareFacts.
Import JSNumber.

Lemma SFcompare_antisym (x y : Number) :
  SFcompare y x = option_map CompOpp (SFcompare x y).
Proof.
  destruct x as [sx | sx | | sx mx ex], y as [sy | sy | | sy my ey];
    simpl; try reflexivity;
    try (destruct sx; reflexivity); try (destruct sy; reflexivity);
    try (destruct sx, sy; reflexivity).
  pose proof (Pos.compare_cont_antisym mx my Eq) as Hm. simpl in Hm.
  destruct sx, sy; simpl; try reflexivity;
    rewrite (Z.compare_antisym ex ey);
    destruct (ex ?= ey); simpl; try reflexivity;
    rewrite <- Hm; try rewrite CompOpp_involutive; reflexivity.
Qed.

Lemma lt_not_ge (x y : Number) : lt x y = true -> ge x y = false.
Proof.
  unfold lt, ge, SFltb, SFleb. rewrite (SFcompare_antisym x y).
  destruct (SFcompare x y) as [[| |] |]; simpl; congruence.
Qed.

End CompareFacts.

(** ** Shortest digit strings *)

Section ToStringFacts.
Import JSString JSNumber.

Lemma candidates_range (x : Number) (m : positive) (e k : Z) (c : Z * Z) :
  In c (candidates x m e k) -> 10 ^ (k - 1) <= snd c.
Proof.
  unfold candidates.
  set (cand := fun n s : Z =>
    if (10 ^ (k - 1) <=? s) && (s <? 10 ^ k) && roundsTo x s (n - k)
    then [(n, s)] else []).
  assert (Hcand : forall n s, In c (cand n s) -> 10 ^ (k - 1) <= snd c).
  { intros n s. unfold cand.
    destruct (10 ^ (k - 1) <=? s) eqn:Hlo; simpl; [| tauto].
    destruct ((s <? 10 ^ k) && roundsTo x s (n - k)); simpl; [| tauto].
    intros [<- | []]. simpl. now apply Z.leb_le. }
  intros Hin.
  repeat (apply in_app_or in Hin as [Hin | Hin]); eauto.
Qed.

Lemma closer_picks (m : positive) (e k : Z) (a b : Z * Z) :
  closer m e k a b = a \/ closer m e k a b = b.
Proof.
  unfold closer.
  repeat match goal with |- context [if ?c then _ else _] => destruct c end;
    auto.
Qed.

Lemma fold_closer_picks (m : positive) (e k : Z) (cs : list (Z * Z)) :
  forall c, In (fold_left (closer m e k) cs c) (c :: cs).
Proof.
  induction cs as [| d cs IH]; intros c; cbn [fold_left].
  - apply in_eq.
  - destruct (IH (closer m e k c d)) as [H | H].
    + rewrite <- H.
      destruct (closer_picks m e k c d) as [-> | ->];
        [apply in_eq | apply in_cons, in_eq].
    + apply in_cons, in_cons, H.
Qed.

Lemma shortest_digits_positive (fuel : nat) (x : Number) (m : positive)
  (e : Z) :
  forall k, 1 <= k -> 1 <= snd (shortest fuel x m e k).
Proof.
  assert (Hpow : forall k, 1 <= k -> 1 <= 10 ^ (k - 1)).
  { intros k Hk.
    assert (0 < 10 ^ (k - 1)) by (apply Z.pow_pos_nonneg; lia). lia. }
  induction fuel as [| f IH]; intros k Hk; simpl;
    destruct (candidates x m e k) as [| c cs] eqn:Hc; simpl.
  - specialize (Hpow k Hk). lia.
  - pose proof (fold_closer_picks m e k cs c) as Hin. rewrite <- Hc in Hin.
    apply candidates_range in Hin. specialize (Hpow k Hk). lia.
  - apply IH. lia.
  - pose proof (fold_closer_picks m e k cs c) as Hin. rewrite <- Hc in Hin.
    apply candidates_range in Hin. specialize (Hpow k Hk). lia.
Qed.

Lemma app_singleton {A} (l1 l2 : list A) (c : A) :
  l1 ++ l2 = [c] -> l1 <> [] -> l1 = [c].
Proof.
  destruct l1 as [| a l1]; [congruence |].
  destruct l1; simpl; intros H _; [| discriminate].
  injection H as -> H. reflexivity.
Qed.

Lemma not_singleton_with {A} (l1 l2 : list A) (sep c : A) :
  sep <> c -> l1 ++ sep :: l2 <> [c].
Proof.
  intros Hne Heq.
  assert (In sep [c]) as [H | []] by (rewrite <- Heq; apply in_elt).
  congruence.
Qed.

(** The text of a positive finite Number is never "0". *)
Lemma toStringPositive_not_zero (x : Number) (m : positive) (e : Z) :
  toStringPositive x m e <> ["0"%char].
Proof.
  unfold toStringPositive.
  pose proof (shortest_digits_positive 16 x m e 1 ltac:(lia)) as Hs.
  destruct (shortest 16 x m e 1) as [[n k] s]. simpl in Hs.
  pose proof (decimal_positive_not_zero s Hs) as Hds.
  pose proof (decimal_nonempty s) as Hne.
  destruct ((-5 <=? n) && (n <=? 21)).
  - destruct (k <=? n); [| destruct (0 <? n)].
    + intros Heq. apply app_singleton in Heq; [contradiction |].
      intros Hnil. rewrite Hnil in Hne. simpl in Hne. lia.
    + apply not_singleton_with. discriminate.
    + discriminate.
  - destruct (decimal s) as [| d [| d' r]].
    + discriminate.
    + discriminate.
    + discriminate.
Qed.

Lemma toFixed_not_zero (x : Number) (f : nat) :
  toFixed x (S f) <> "0"%string.
Proof.
  assert (Hinj : forall l, string_of_list_ascii l = "0"%string ->
                           l = ["0"%char]).
  { intros l H. apply (f_equal list_ascii_of_string) in H.
    now rewrite list_ascii_of_string_of_list_ascii in H. }
  destruct x as [s | s | | s m e]; unfold toFixed.
  - intros H. apply Hinj in H.
    pose proof (fixedDigits_long 0 f ltac:(lia)) as Hlen.
    rewrite H in Hlen. simpl in Hlen. lia.
  - destruct s; discriminate.
  - discriminate.
  - intros H. apply Hinj in H.
    destruct (ge (S754_finite false m e) ten21).
    + set (body := toStringPositive (S754_finite false m e) m e) in *.
      destruct s; cbn [app] in H.
      * discriminate H.
      * now apply toStringPositive_not_zero in H.
    + pose proof (fixedDigits_long (roundHalfUp m e (S f)) f
                    (roundHalfUp_nonneg m e (S f))) as Hlen.
      set (body := fixedDigits (roundHalfUp m e (S f)) (S f)) in *.
      destruct s; cbn [app] in H.
      * discriminate H.
      * rewrite H in Hlen. simpl in Hlen. lia.
Qed.

End ToStringFacts.

(** ** Formatting *)

Section FormatFacts.
Import JSString JSNumber Format.

Lemma one_eq : one = S754_finite false 4503599627370496 (-52).
Proof. reflexivity. Qed.

Lemma ten21_eq : ten21 = S754_finite false 7629394531250000 17.
Proof. reflexivity. Qed.

(** A value below one is below [10^21]. *)
Lemma below_one_below_ten21 (m : positive) (e : Z) :
  lt (S754_finite false m e) one = true ->
  ge (S754_finite false m e) ten21 = false.
Proof.
  rewrite one_eq, ten21_eq. unfold lt, ge, SFltb, SFleb, SFcompare.
  destruct (Z.compare_spec e (-52)); try discriminate;
    destruct (Z.compare_spec 17 e); try reflexivity; lia.
Qed.

Lemma finite_not_zero (s : bool) (m : positive) (e : Z) :
  strictEq (S754_finite s m e) zero = false.
Proof. destruct s; reflexivity. Qed.

Lemma negative_not_ge_one (m : positive) (e : Z) :
  ge (S754_finite true m e) one = false.
Proof. reflexivity. Qed.

(** What the formatter returns for a text that is neither empty nor "0". *)
Lemma formatTokenAmount_parsed (s : string) :
  String.eqb s "" = false ->
  String.eqb s "0" = false ->
  formatTokenAmount (Some s) =
    let numAmount := parseFloat s in
    if strictEq numAmount zero then "0"%string
    else if ge numAmount one then toFixed numAmount 6
    else toFixed numAmount 12.
Proof. intros H1 H2. unfold formatTokenAmount. now rewrite H1, H2. Qed.

Lemma toFixed_places (s : bool) (m : positive) (e : Z) (f : nat) :
  ge (S754_finite false m e) ten21 = false ->
  decimalPlaces (toFixed (S754_finite s m e) (S f)) = Some (S f).
Proof.
  intros H. unfold toFixed. rewrite H.
  apply decimalPlaces_fixedDigits, roundHalfUp_nonneg.
Qed.

End FormatFacts.

(** C3: [formatTokenAmount a] is the text "0" exactly when [a] is falsy
    (absent or empty) or the Number that [parseFloat] makes of it is zero. *)
Theorem formatTokenAmount_zero_iff (a : option string) :
  Format.formatTokenAmount a = "0"%string <->
  Format.falsy a = true
  \/ JSNumber.strictEq (Format.parseFloatValue a) JSNumber.zero = true.
Proof.
  destruct a as [s |]; simpl; [| tauto].
  destruct (String.eqb s "") eqn:He; simpl; [tauto |].
  destruct (String.eqb s "0") eqn:Hz.
  - apply String.eqb_eq in Hz. subst s. split; [right; reflexivity | reflexivity].
  - destruct (JSNumber.strictEq (JSNumber.parseFloat s) JSNumber.zero) eqn:Heq.
    + tauto.
    + split.
      * intros H. exfalso.
        destruct (JSNumber.ge (JSNumber.parseFloat s) JSNumber.one);
          revert H; apply toFixed_not_zero.
      * intros [H | H]; discriminate.
Qed.

Example formatTokenAmount_small :
  Format.formatTokenAmount (Some "0.0000000001"%string) = "0.000000000100"%string.
Proof. vm_compute. reflexivity. Qed.

Example formatTokenAmount_two :
  Format.formatTokenAmount (Some "2"%string) = "2.000000"%string.
Proof. vm_compute. reflexivity. Qed.

Example formatTokenAmount_negative :
  Format.formatTokenAmount (Some "-5"%string) = "-5.000000000000"%string.
Proof. vm_compute. reflexivity. Qed.

Example formatTokenAmount_huge :
  Format.formatTokenAmount (Some "1e21"%string) = "1e+21"%string
  /\ Format.decimalPlaces "1e+21" = None.
Proof. vm_compute. split; reflexivity. Qed.

(** C2, as stated, fails at "-5": its magnitude is at least one, yet the
    result has twelve decimal places. *)
Lemma placesByMagnitude_fails_negative :
  ~ Stated.placesByMagnitude (Some "-5"%string).
Proof.
  intros [H _].
  assert (Hge : JSNumber.ge (JSNumber.abs (Format.parseFloatValue (Some "-5"%string)))
                  JSNumber.one = true) by (vm_compute; reflexivity).
  assert (Hplaces : Format.decimalPlaces (Format.formatTokenAmount (Some "-5"%string))
                    = Some 12%nat) by (vm_compute; reflexivity).
  specialize (H Hge). rewrite Hplaces in H. discriminate H.
Qed.

(** C2, as stated, fails as well from [10^21] on, where [toFixed] falls
    back to exponent notation. *)
Lemma placesByMagnitude_fails_huge :
  ~ Stated.placesByMagnitude (Some "1e21"%string).
Proof.
  intros [H _].
  assert (Hge : JSNumber.ge (JSNumber.abs (Format.parseFloatValue (Some "1e21"%string)))
                  JSNumber.one = true) by (vm_compute; reflexivity).
  assert (Hplaces : Format.decimalPlaces (Format.formatTokenAmount (Some "1e21"%string))
                    = None) by (vm_compute; reflexivity).
  specialize (H Hge). rewrite Hplaces in H. discriminate H.
Qed.

(** C2, amended: when the parsed value [v] satisfies [1 <= v < 10^21] the
    result is a decimal numeral with exactly 6 digits after the point; when
    its magnitude lies strictly between 0 and 1 the result has exactly 12. *)
Theorem formatTokenAmount_places (a : option string) :
  let v := Format.parseFloatValue a in
  (JSNumber.ge v JSNumber.one = true /\ JSNumber.lt v JSNumber.ten21 = true ->
   Format.decimalPlaces (Format.formatTokenAmount a) = Some 6%nat)
  /\ (JSNumber.gt (JSNumber.abs v) JSNumber.zero = true
      /\ JSNumber.lt (JSNumber.abs v) JSNumber.one = true ->
      Format.decimalPlaces (Format.formatTokenAmount a) = Some 12%nat).
Proof.
  cbv zeta. rewrite one_eq, ten21_eq.
  destruct a as [s |]; [| split; intros [H1 H2]; discriminate H1].
  destruct (String.eqb s "") eqn:He.
  { apply String.eqb_eq in He. subst s.
    split; intros [H1 H2]; discriminate H1. }
  destruct (String.eqb s "0") eqn:Hz.
  { apply String.eqb_eq in Hz. subst s.
    split; intros [H1 H2]; discriminate H1. }
  rewrite (formatTokenAmount_parsed s He Hz). cbv zeta.
  unfold Format.parseFloatValue.
  destruct (JSNumber.parseFloat s) as [sg | sg | | sg m e].
  - split; intros [H1 H2]; destruct sg; discriminate H1.
  - split; intros [H1 H2]; destruct sg;
      first [discriminate H1 | discriminate H2].
  - split; intros [H1 H2]; discriminate H1.
  - rewrite finite_not_zero. rewrite <- one_eq, <- ten21_eq.
    split; intros H1.
    + destruct H1 as [H1 H2]. destruct sg; [rewrite one_eq in H1; discriminate H1 |].
      rewrite H1. apply toFixed_places, lt_not_ge, H2.
    + destruct H1 as [_ H2].
      change (JSNumber.abs (S754_finite sg m e))
        with (S754_finite false m e) in H2.
      assert (Hlow : JSNumber.ge (S754_finite sg m e) JSNumber.one = false).
      { destruct sg; [reflexivity | apply lt_not_ge, H2]. }
      rewrite Hlow. apply toFixed_places, below_one_below_ten21, H2.
Qed.

Lemma formatTokenAmount_places_witness :
  Format.decimalPlaces (Format.formatTokenAmount (Some "2"%string)) = Some 6%nat
  /\ Format.decimalPlaces (Format.formatTokenAmount (Some "0.0000000001"%string))
     = Some 12%nat.
Proof.
  split.
  - apply (proj1 (formatTokenAmount_places (Some "2"%string))).
    split; vm_compute; reflexivity.
  - apply (proj2 (formatTokenAmount_places (Some "0.0000000001"%string))).
    split; vm_compute; reflexivity.
Defined.

(** ** Objects as maps *)

Section ObjectFacts.
Import JSObject Grouping.
Context {A : Type}.
Variable key : A -> string.

Lemma getOwn_none_iff (o : t A) (k : string) :
  getOwn o k = None <-> ~ In k (map fst o).
Proof.
  induction o as [| [k' v] o IH]; simpl.
  - tauto.
  - destruct (String.eqb k k') eqn:E.
    + apply String.eqb_eq in E. subst. split; [discriminate | tauto].
    + apply String.eqb_neq in E. rewrite IH. split.
      * intros H [H' | H']; [congruence | tauto].
      * tauto.
Qed.

Lemma set_new (o : t A) (k : string) (v : list A) :
  getOwn o k = None -> set o k v = o ++ [(k, v)].
Proof.
  induction o as [| [k' v'] o IH]; simpl; [reflexivity |].
  destruct (String.eqb k k'); [discriminate |].
  intros H. now rewrite IH.
Qed.

Lemma set_owned (o : t A) (k : string) (v : list A) :
  getOwn o k <> None -> map fst (set o k v) = map fst o.
Proof.
  induction o as [| [k' v'] o IH]; simpl; [congruence |].
  destruct (String.eqb k k') eqn:E; simpl; [reflexivity |].
  intros H. now rewrite IH.
Qed.

Lemma getOwn_set_same (o : t A) (k : string) (v : list A) :
  getOwn (set o k v) k = Some v.
Proof.
  induction o as [| [k' v'] o IH]; simpl.
  - now rewrite String.eqb_refl.
  - destruct (String.eqb k k') eqn:E; simpl; rewrite E; [reflexivity | exact IH].
Qed.

Lemma getOwn_set_other (o : t A) (k k' : string) (v : list A) :
  k' <> k -> getOwn (set o k v) k' = getOwn o k'.
Proof.
  intros Hne. induction o as [| [k0 v0] o IH]; simpl.
  - apply String.eqb_neq in Hne. now rewrite Hne.
  - destruct (String.eqb k k0) eqn:E; simpl.
    + apply String.eqb_eq in E. subst k0.
      apply String.eqb_neq in Hne. now rewrite Hne.
    + now rewrite IH.
Qed.

Lemma set_set (o : t A) (k : string) (v w : list A) :
  set (set o k v) k w = set o k w.
Proof.
  induction o as [| [k' v'] o IH]; simpl.
  - now rewrite String.eqb_refl.
  - destruct (String.eqb k k') eqn:E; simpl; rewrite E; [reflexivity |].
    now rewrite IH.
Qed.

(** [pushTo] in one step: the element is appended to the group of its
    key, which is created last if the object has none; a key that is only
    inherited makes it throw. *)
Lemma pushTo_cases (o : t A) (k : string) (x : A) :
  pushTo o k x =
    match getOwn o k with
    | Some l => inr (set o k (l ++ [x]))
    | None =>
        if inherited k then inl (TypeError "push is not a function")
        else inr (o ++ [(k, [x])])
    end.
Proof.
  unfold pushTo, get.
  destruct (getOwn o k) as [l |] eqn:Hown.
  - rewrite Hown. reflexivity.
  - destruct (inherited k) eqn:Hinh.
    + rewrite Hown. reflexivity.
    + rewrite getOwn_set_same, set_set. simpl. now rewrite set_new.
Qed.

Lemma filter_and {B} (P Q : B -> bool) (l : list B) :
  filter P (filter Q l) = filter (fun x => Q x && P x) l.
Proof.
  induction l as [| x l IH]; simpl; [reflexivity |].
  destruct (Q x); simpl; [destruct (P x) |]; now rewrite IH.
Qed.

Lemma firstOccurrences_filter (P : string -> bool) (l : list string) :
  firstOccurrences (filter P l) = filter P (firstOccurrences l).
Proof.
  induction l as [| a l IH]; simpl; [reflexivity |].
  destruct (P a) eqn:Pa; simpl.
  - rewrite IH, !filter_and. f_equal. apply filter_ext.
    intros x. apply andb_comm.
  - rewrite IH, filter_and. apply filter_ext_in. intros x _.
    destruct (String.eqb x a) eqn:E; simpl; [| reflexivity].
    apply String.eqb_eq in E. subst x. now rewrite Pa.
Qed.

Lemma In_firstOccurrences (l : list string) (k : string) :
  In k (firstOccurrences l) <-> In k l.
Proof.
  induction l as [| a l IH]; simpl; [tauto |].
  rewrite filter_In, IH. split.
  - intros [H | [H _]]; auto.
  - intros [H | H]; [now left |].
    destruct (String.eqb k a) eqn:E.
    + apply String.eqb_eq in E. now left.
    + right. now split.
Qed.

Lemma NoDup_firstOccurrences (l : list string) : NoDup (firstOccurrences l).
Proof.
  induction l as [| a l IH]; simpl; constructor.
  - rewrite filter_In. intros [_ H]. now rewrite String.eqb_refl in H.
  - now apply NoDup_filter.
Qed.

Lemma owns_false_iff (o : t A) (k : string) :
  owns o k = false <-> ~ In k (map fst o).
Proof.
  rewrite <- getOwn_none_iff. unfold owns.
  destruct (getOwn o k); split; congruence.
Qed.

Lemma filter_hasKey_same (x : A) (l : list A) :
  filter (hasKey key (key x)) (x :: l) = x :: filter (hasKey key (key x)) l.
Proof. simpl. unfold hasKey at 1. now rewrite String.eqb_refl. Qed.

Lemma filter_hasKey_other (x : A) (l : list A) (k : string) :
  key x <> k -> filter (hasKey key k) (x :: l) = filter (hasKey key k) l.
Proof.
  intros H. simpl. unfold hasKey at 1.
  apply String.eqb_neq in H. now rewrite H.
Qed.

(** Elements whose key differs from every listed key leave the listed
    groups as they are. *)
Lemma groups_without (x : A) (l : list A) (ks : list string) :
  ~ In (key x) ks ->
  map (fun k => (k, filter (hasKey key k) (x :: l))) ks
  = map (fun k => (k, filter (hasKey key k) l)) ks.
Proof.
  intros Hnot. apply map_ext_in. intros k Hk. simpl. unfold hasKey at 1.
  destruct (String.eqb (key x) k) eqn:E; [| reflexivity].
  apply String.eqb_eq in E. congruence.
Qed.

Lemma extended_without (x : A) (l : list A) (o : t A) :
  ~ In (key x) (map fst o) ->
  map (fun p => (fst p, snd p ++ filter (hasKey key (fst p)) (x :: l))) o
  = map (fun p => (fst p, snd p ++ filter (hasKey key (fst p)) l)) o.
Proof.
  intros Hnot. apply map_ext_in. intros p Hp. simpl. unfold hasKey at 1.
  destruct (String.eqb (key x) (fst p)) eqn:E; [| reflexivity].
  apply String.eqb_eq in E. exfalso. apply Hnot. rewrite E.
  now apply in_map.
Qed.

Lemma extend_owned (o : t A) (x : A) (l : list A) (c : list A) :
  NoDup (map fst o) ->
  getOwn o (key x) = Some c ->
  extend key (set o (key x) (c ++ [x])) l = extend key o (x :: l).
Proof.
  intros Hnd Hown. unfold extend. f_equal.
  - clear - Hnd Hown. induction o as [| [k' v'] o IH]; [discriminate |].
    inversion Hnd as [| ? ? Hnotin Hnd']; subst.
    cbn [getOwn] in Hown. cbn [set].
    destruct (String.eqb (key x) k') eqn:E.
    + apply String.eqb_eq in E. subst k'. injection Hown as ->.
      cbn [map fst snd]. rewrite filter_hasKey_same, <- app_assoc.
      cbn [app]. f_equal. symmetry. now apply extended_without.
    + cbn [map fst snd]. apply String.eqb_neq in E.
      rewrite (filter_hasKey_other x l k' E). f_equal. now apply IH.
  - assert (Hsame : forall k, owns (set o (key x) (c ++ [x])) k = owns o k).
    { intros k. unfold owns. destruct (string_dec k (key x)) as [-> | Hne].
      - now rewrite getOwn_set_same, Hown.
      - now rewrite getOwn_set_other. }
    rewrite (filter_ext _ (fun k => negb (owns o k)))
      by (intros k; now rewrite Hsame).
    simpl. unfold owns at 2. rewrite Hown. simpl.
    symmetry. apply groups_without.
    rewrite In_firstOccurrences, filter_In. intros [_ H].
    unfold owns in H. now rewrite Hown in H.
Qed.

Lemma extend_new (o : t A) (x : A) (l : list A) :
  getOwn o (key x) = None ->
  extend key (o ++ [(key x, [x])]) l = extend key o (x :: l).
Proof.
  intros Hown. pose proof Hown as Hnot. apply getOwn_none_iff in Hnot.
  unfold extend. rewrite map_app, (extended_without x l o Hnot), <- app_assoc.
  f_equal.
  assert (Hks :
    firstOccurrences (filter (fun k => negb (owns o k)) (map key (x :: l)))
    = key x :: filter (fun k' => negb (String.eqb k' (key x)))
                 (firstOccurrences
                    (filter (fun k => negb (owns o k)) (map key l)))).
  { cbn [map filter]. unfold owns at 1. rewrite Hown. reflexivity. }
  rewrite Hks. cbn [map]. rewrite filter_hasKey_same. cbn [app]. f_equal.
  assert (Hfilter :
    filter (fun k => negb (owns (o ++ [(key x, [x])]) k)) (map key l)
    = filter (fun k' => negb (String.eqb k' (key x)))
        (filter (fun k => negb (owns o k)) (map key l))).
  { rewrite filter_and. apply filter_ext. intros k. unfold owns.
    clear. induction o as [| [k' v'] o IH]; simpl.
    - destruct (String.eqb k (key x)); reflexivity.
    - destruct (String.eqb k k'); [reflexivity | exact IH]. }
  rewrite Hfilter, firstOccurrences_filter.
  symmetry. apply groups_without.
  rewrite filter_In. intros [_ H]. now rewrite String.eqb_refl in H.
Qed.

(** Grouping in closed form.  When no key is the name of an inherited
    property the loop ends normally, and the object holds the groups it had,
    each extended by the new elements with its key, followed by one new
    group per new key in order of first occurrence. *)
Lemma groupInto_extend (l : list A) :
  forall o,
    NoDup (map fst o) ->
    (forall x, In x l -> inherited (key x) = false) ->
    groupInto key l o = inr (extend key o l).
Proof.
  induction l as [| x l IH]; intros o Hnd Hkeys.
  - simpl. unfold extend. simpl. rewrite app_nil_r. f_equal.
    clear. induction o as [| [k v] o IH]; simpl; [reflexivity |].
    now rewrite app_nil_r, <- IH.
  - simpl. rewrite pushTo_cases.
    destruct (getOwn o (key x)) as [c |] eqn:Hown.
    + rewrite IH.
      * f_equal. now apply extend_owned.
      * rewrite set_owned by congruence. exact Hnd.
      * intros y Hy. apply Hkeys. now right.
    + rewrite (Hkeys x) by now left.
      rewrite IH.
      * f_equal. now apply extend_new.
      * rewrite map_app. simpl.
        apply (Permutation_NoDup (Permutation_cons_append (map fst o) (key x))).
        constructor; [now apply getOwn_none_iff | exact Hnd].
      * intros y Hy. apply Hkeys. now right.
Qed.

Lemma groupBy_grouped (l : list A) :
  (forall x, In x l -> inherited (key x) = false) ->
  groupBy key l = inr (grouped key l).
Proof.
  intros H. unfold groupBy. rewrite groupInto_extend; [| constructor | exact H].
  f_equal. unfold extend, grouped. simpl. f_equal. f_equal.
  clear. induction (map key l) as [| k ks IH]; simpl; [reflexivity |].
  now rewrite IH.
Qed.

End ObjectFacts.

Section GroupedFacts.
Import JSObject Grouping.
Context {A : Type}.
Variable key : A -> string.

(** A key that is only inherited stops the loop with a TypeError,
    whatever was grouped before. *)
Lemma groupInto_throws (l : list A) :
  forall o,
    (forall k, owns o k = true -> inherited k = false) ->
    existsb (fun x => inherited (key x)) l = true ->
    groupInto key l o = inl (TypeError "push is not a function").
Proof.
  induction l as [| x l IH]; intros o Hinv Hex; [discriminate |].
  simpl in *. rewrite pushTo_cases.
  destruct (getOwn o (key x)) as [c |] eqn:Hown.
  - assert (Hx : inherited (key x) = false).
    { apply Hinv. unfold owns. now rewrite Hown. }
    rewrite Hx in Hex. simpl in Hex. apply IH; [| exact Hex].
    intros k Hk. apply Hinv. unfold owns in *.
    destruct (string_dec k (key x)) as [-> | Hne].
    + now rewrite Hown.
    + now rewrite getOwn_set_other in Hk.
  - destruct (inherited (key x)) eqn:Hx; [reflexivity |].
    simpl in Hex. apply IH; [| exact Hex].
    intros k Hk. destruct (string_dec k (key x)) as [-> | Hne]; [exact Hx |].
    apply Hinv. unfold owns in *.
    rewrite <- (set_new o (key x) [x] Hown) in Hk.
    now rewrite getOwn_set_other in Hk.
Qed.

(** Grouping, completely: it throws exactly when some key names an
    inherited property, and otherwise yields the groups in closed form. *)
Lemma groupBy_cases (l : list A) :
  groupBy key l =
    if existsb (fun x => inherited (key x)) l
    then inl (TypeError "push is not a function")
    else inr (grouped key l).
Proof.
  destruct (existsb (fun x => inherited (key x)) l) eqn:Hex.
  - apply groupInto_throws; [discriminate | exact Hex].
  - apply groupBy_grouped. intros x Hx.
    destruct (inherited (key x)) eqn:E; [| reflexivity].
    assert (existsb (fun x => inherited (key x)) l = true) as Habs
      by (apply existsb_exists; eauto).
    congruence.
Qed.

Lemma grouped_keys (l : list A) :
  map fst (grouped key l) = firstOccurrences (map key l).
Proof.
  unfold grouped. rewrite map_map. simpl. apply map_id.
Qed.

Lemma grouped_NoDup (l : list A) : NoDup (map fst (grouped key l)).
Proof. rewrite grouped_keys. apply NoDup_firstOccurrences. Qed.

Lemma grouped_In (l : list A) (k : string) (g : list A) :
  In (k, g) (grouped key l) <->
  In k (map key l) /\ g = filter (hasKey key k) l.
Proof.
  unfold grouped. rewrite in_map_iff. split.
  - intros (k' & Heq & Hin). injection Heq as -> <-.
    rewrite In_firstOccurrences in Hin. now split.
  - intros [Hin ->]. exists k. split; [reflexivity |].
    now apply In_firstOccurrences.
Qed.

Lemma filter_split {B} (P Q : B -> bool) (l : list B) :
  (forall x, In x l -> P x && Q x = false) ->
  Permutation (filter P l ++ filter Q l) (filter (fun x => P x || Q x) l).
Proof.
  induction l as [| x l IH]; intros Hdis; simpl; [constructor |].
  assert (IH' := IH (fun y Hy => Hdis y (or_intror Hy))).
  specialize (Hdis x (or_introl eq_refl)).
  destruct (P x), (Q x); simpl in *; try discriminate.
  - now constructor.
  - rewrite <- IH'. symmetry. apply Permutation_middle.
  - exact IH'.
Qed.

Lemma groups_partition (l : list A) (ks : list string) :
  NoDup ks ->
  Permutation (flat_map (fun k => filter (hasKey key k) l) ks)
    (filter (fun x => existsb (String.eqb (key x)) ks) l).
Proof.
  induction 1 as [| k ks Hnotin Hnd IH]; simpl.
  - induction l; simpl; auto.
  - rewrite IH. apply filter_split.
    intros x _. unfold hasKey.
    destruct (String.eqb (key x) k) eqn:E; simpl; [| reflexivity].
    apply String.eqb_eq in E. subst k.
    destruct (existsb (String.eqb (key x)) ks) eqn:Hex; [| reflexivity].
    apply existsb_exists in Hex as (k' & Hin & Heq).
    apply String.eqb_eq in Heq. subst k'. contradiction.
Qed.

(** The groups together hold exactly the elements of the input. *)
Lemma grouped_partition (l : list A) :
  Permutation (flat_map snd (grouped key l)) l.
Proof.
  unfold grouped. rewrite flat_map_concat_map, map_map. simpl.
  rewrite <- flat_map_concat_map.
  rewrite groups_partition by apply NoDup_firstOccurrences.
  rewrite (filter_ext_in _ (fun _ => true)).
  - clear. induction l; simpl; auto.
  - intros x Hx. apply existsb_exists. exists (key x).
    split; [| apply String.eqb_refl].
    apply In_firstOccurrences. now apply in_map.
Qed.

(** [Object.entries] lists every own property once. *)
Lemma insertByIndex_perm (p : string * list A) (l : t A) :
  Permutation (insertByIndex p l) (p :: l).
Proof.
  induction l as [| q l IH]; simpl; [reflexivity |].
  destruct (indexOf (fst p) <=? indexOf (fst q)); [reflexivity |].
  rewrite IH. apply perm_swap.
Qed.

Lemma sortByIndex_perm (l : t A) : Permutation (sortByIndex l) l.
Proof.
  induction l as [| p l IH]; simpl; [constructor |].
  rewrite insertByIndex_perm. now constructor.
Qed.

Lemma filter_complement_perm {B} (P : B -> bool) (l : list B) :
  Permutation (filter P l ++ filter (fun x => negb (P x)) l) l.
Proof.
  induction l as [| x l IH]; simpl; [constructor |].
  destruct (P x); simpl.
  - now constructor.
  - rewrite <- Permutation_middle. now constructor.
Qed.

Lemma entries_perm (o : t A) : Permutation (entries o) o.
Proof.
  unfold entries. rewrite sortByIndex_perm. apply filter_complement_perm.
Qed.

(** Without array-index keys, [Object.entries] follows creation order. *)
Lemma entries_plain (o : t A) :
  forallb (fun p => negb (isArrayIndex (fst p))) o = true ->
  entries o = o.
Proof.
  intros H. unfold entries.
  assert (Hnone : filter (fun p => isArrayIndex (fst p)) o = []).
  { induction o as [| p o IH]; simpl in *; [reflexivity |].
    apply andb_true_iff in H as [Hp Ho].
    apply negb_true_iff in Hp. rewrite Hp. auto. }
  rewrite Hnone. simpl.
  induction o as [| p o IH]; simpl in *; [reflexivity |].
  apply andb_true_iff in H as [Hp Ho]. rewrite Hp. f_equal.
  apply IH; [exact Ho |].
  apply negb_true_iff in Hp. rewrite Hp in Hnone. exact Hnone.
Qed.

End GroupedFacts.

(** ** The user filter *)

Section FilterFacts.
Import JSString.

Lemma lowerChar_idempotent (c : ascii) : lowerChar (lowerChar c) = lowerChar c.
Proof.
  destruct c as [[] [] [] [] [] [] [] []]; reflexivity.
Qed.

Lemma toLowerCase_idempotent (s : string) :
  toLowerCase (toLowerCase s) = toLowerCase s.
Proof.
  induction s as [| c s IH]; simpl; [reflexivity |].
  now rewrite lowerChar_idempotent, IH.
Qed.

(** Every snapshot the filter keeps has an owner that matches an entry of
    the allow-list up to letter case, and the kept snapshots stand in their
    original order. *)
Lemma filterSnapshots_sound (users : list string) (snapshots : list Snapshot.t) :
  KHype.filterSnapshots users snapshots
  = filter
      (fun s =>
         JSArray.includes users (toLowerCase (Snapshot.owner s)))
      (Stated.allowListFilter users snapshots).
Proof.
  unfold KHype.filterSnapshots, Stated.allowListFilter.
  destruct users as [| u us]; [reflexivity |].
  rewrite filter_and. apply filter_ext. intros s.
  destruct (JSArray.includes (u :: us) (toLowerCase (Snapshot.owner s))) eqn:E;
    [| now rewrite andb_false_r].
  rewrite andb_true_r.
  unfold JSArray.includes in E. apply existsb_exists in E as (x & Hin & Hx).
  apply String.eqb_eq in Hx. symmetry. apply existsb_exists. exists x.
  split; [exact Hin |]. unfold Stated.matchesOwner.
  rewrite <- Hx, toLowerCase_idempotent. apply String.eqb_refl.
Qed.

(** With an allow-list written in lower case the filter matches owners up
    to letter case. *)
Lemma filterSnapshots_lower_case (users : list string)
  (snapshots : list Snapshot.t) :
  users <> [] ->
  Forall (fun u => toLowerCase u = u) users ->
  KHype.filterSnapshots users snapshots
  = Stated.allowListFilter users snapshots.
Proof.
  intros Hne Hlow. unfold KHype.filterSnapshots, Stated.allowListFilter.
  destruct users as [| u us]; [contradiction |].
  apply filter_ext. intros s. unfold JSArray.includes.
  set (us' := u :: us) in *. clearbody us'. clear Hne.
  induction Hlow as [| x xs Hx _ IH]; simpl; [reflexivity |].
  rewrite IH. f_equal. unfold Stated.matchesOwner. now rewrite Hx.
Qed.

End FilterFacts.

(** C1: with an empty allow-list the filter removes every snapshot, where
    the specification, like the header of the script, keeps them all. *)
Theorem filterSnapshots_empty_allow_list (snapshots : list Snapshot.t) :
  KHype.filterSnapshots [] snapshots = []
  /\ Stated.allowListFilter [] snapshots = snapshots.
Proof.
  split; [| reflexivity].
  unfold KHype.filterSnapshots. induction snapshots; simpl; auto.
Qed.

(** With an empty allow-list the report stops after the message that no
    snapshot was found. *)
Lemma displayPositionSnapshots_empty_allow_list (snapshots : list Snapshot.t) :
  KHype.displayPositionSnapshots [] snapshots
  = ([ Console.Log "=== K-HYPE POSITION SNAPSHOTS (Last 7 Days) ===" [];
       Console.Log "Filtering for specific users" [Console.AStr ""];
       Console.Log "Filtered to"
         [Console.ACount 0; Console.ACount (List.length snapshots)];
       Console.Log
         "No position snapshots found for the filtered users in K-HYPE pools"
         [] ],
     inr tt).
Proof.
  unfold KHype.displayPositionSnapshots.
  rewrite (proj1 (filterSnapshots_empty_allow_list snapshots)). reflexivity.
Qed.

(** C4: an allow-list entry written with capital letters matches no
    owner, although the owner equals it up to letter case. *)
Theorem filterSnapshots_capital_entry :
  let s := Sample.bare "0xabc" Sample.pool None in
  KHype.filterSnapshots ["0xABC"%string] [s] = []
  /\ Stated.allowListFilter ["0xABC"%string] [s] = [s].
Proof. split; reflexivity. Qed.

(** ** Grouping by pool, owner and position *)

Lemma partitionsInto_grouped {A : Type} (key : A -> string) (l : list A) :
  Stated.partitionsInto key l (Grouping.grouped key l).
Proof.
  pose proof (entries_perm (Grouping.grouped key l)) as Hperm.
  repeat split.
  - unfold JSObject.keys.
    apply (Permutation_NoDup (Permutation_map fst (Permutation_sym Hperm))).
    apply grouped_NoDup.
  - rewrite (Permutation_flat_map snd Hperm). apply grouped_partition.
  - apply Forall_forall. intros [k g] Hin.
    apply (Permutation_in _ Hperm) in Hin.
    now apply grouped_In in Hin as [_ ->].
Qed.

(** C5, as stated, fails for a pool whose id names an inherited property:
    grouping throws, and no group is made. *)
Lemma partitionsExactly_fails_inherited :
  ~ Stated.partitionsExactly
      [Sample.bare "0xa" (Sample.poolWith "constructor") None].
Proof. intros (byPool & H & _). discriminate H. Qed.

(** C5, amended: when no pool id and no owner names a property inherited
    from [Object.prototype], grouping by pool and then by owner partitions
    the snapshots exactly. *)
Theorem grouping_partitions_exactly (snapshots : list Snapshot.t) :
  forallb Stated.plainKeys snapshots = true ->
  Stated.partitionsExactly snapshots.
Proof.
  intros Hplain.
  assert (Hall : forall s, In s snapshots ->
                   JSObject.inherited (Report.poolId s) = false
                   /\ JSObject.inherited (Snapshot.owner s) = false).
  { intros s Hs. rewrite forallb_forall in Hplain.
    specialize (Hplain s Hs). unfold Stated.plainKeys in Hplain.
    apply andb_true_iff in Hplain as [H1 H2].
    now rewrite negb_true_iff in H1, H2. }
  exists (Grouping.grouped Report.poolId snapshots). split; [| split].
  - apply groupBy_grouped. intros s Hs. now apply Hall.
  - apply partitionsInto_grouped.
  - apply Forall_forall. intros [p poolSnapshots] Hin.
    apply (Permutation_in _ (entries_perm _)) in Hin.
    apply grouped_In in Hin as [_ ->]. simpl.
    exists (Grouping.grouped Snapshot.owner
              (filter (Grouping.hasKey Report.poolId p) snapshots)).
    split; [| apply partitionsInto_grouped].
    apply groupBy_grouped. intros s Hs.
    apply filter_In in Hs as [Hs _]. now apply Hall.
Qed.

Lemma grouping_partitions_exactly_witness :
  Stated.partitionsExactly
    [ Sample.bare "0xa" (Sample.poolWith "0x1") None;
      Sample.bare "0xb" (Sample.poolWith "0x2") None;
      Sample.bare "0xa" (Sample.poolWith "0x1") None ].
Proof. apply grouping_partitions_exactly. reflexivity. Defined.

(** Grouping by position is grouping the snapshots that have a position
    id by that id. *)
Lemma groupPositionsInto_filtered (l : list Snapshot.t) :
  forall o,
    Report.groupPositionsInto l o
    = JSObject.groupInto Report.positionKey (Report.withPositionId l) o.
Proof.
  unfold Report.withPositionId.
  induction l as [| s l IH]; intros o; [reflexivity |].
  cbn [Report.groupPositionsInto filter].
  unfold Snapshot.hasPositionId at 1, Format.falsy.
  destruct (Snapshot.positionId s) as [i |] eqn:Hid; [| apply IH].
  destruct (String.eqb i "") eqn:E; [apply IH |].
  cbn [negb JSObject.groupInto]. unfold Report.positionKey at 1. rewrite Hid.
  destruct (JSObject.pushTo o i s); [reflexivity | apply IH].
Qed.

Lemma withPositionId_idempotent (l : list Snapshot.t) :
  Report.withPositionId (Report.withPositionId l) = Report.withPositionId l.
Proof.
  unfold Report.withPositionId. rewrite filter_and.
  apply filter_ext. intros s. apply andb_diag.
Qed.

Lemma groupByPosition_filtered (l : list Snapshot.t) :
  Report.groupByPosition l = Report.groupByPosition (Report.withPositionId l).
Proof.
  unfold Report.groupByPosition.
  now rewrite !groupPositionsInto_filtered, withPositionId_idempotent.
Qed.

Lemma groupByPosition_cases (l : list Snapshot.t) :
  Report.groupByPosition l =
    if existsb (fun s => JSObject.inherited (Report.positionKey s))
         (Report.withPositionId l)
    then inl (TypeError "push is not a function")
    else inr (Grouping.grouped Report.positionKey (Report.withPositionId l)).
Proof.
  unfold Report.groupByPosition. rewrite groupPositionsInto_filtered.
  apply groupBy_cases.
Qed.

(** C10: snapshots without a position id take no part in the grouping by
    position, hence in no per-position total, and the numerator of the
    average counts only the others: the whole position report is the one of
    the input with those snapshots removed, and every grouped snapshot has a
    position id. *)
Theorem snapshots_without_position_id_are_skipped (snapshots : list Snapshot.t) :
  Report.groupByPosition snapshots
  = Report.groupByPosition (Report.withPositionId snapshots)
  /\ match Report.groupByPosition snapshots with
     | inr snapshotsByPosition =>
         Forall
           (fun g => Forall (fun s => Snapshot.hasPositionId s = true) (snd g))
           snapshotsByPosition
     | inl _ => True
     end
  /\ Report.displayPositionTransactions snapshots
     = Report.displayPositionTransactions (Report.withPositionId snapshots)
  /\ (forall sortedPositions,
        Report.averageActivity snapshots sortedPositions
        = JSNumber.toFixed
            (JSNumber.div
               (JSNumber.ofZ
                  (Z.of_nat
                     (List.length (filter Snapshot.hasPositionId snapshots))))
               (JSNumber.ofZ (Z.of_nat (List.length sortedPositions))))
            1).
Proof.
  split; [apply groupByPosition_filtered |]. split; [| split].
  - rewrite groupByPosition_cases.
    destruct (existsb _ _); [exact I |].
    apply Forall_forall. intros [k g] Hin.
    apply grouped_In in Hin as [_ ->]. simpl.
    apply Forall_forall. intros s Hs.
    apply filter_In in Hs as [Hs _].
    unfold Report.withPositionId in Hs. now apply filter_In in Hs.
  - unfold Report.displayPositionTransactions, Report.averageActivity.
    now rewrite <- groupByPosition_filtered, withPositionId_idempotent.
  - reflexivity.
Qed.

(** ** Totals of a position *)

Section TotalsFacts.
Import JSNumber Format Report.

Lemma totals_fold (l : list Snapshot.t) :
  forall (a : nat) (t : Totals),
    let t' := fold_left accumulate (combine (seq a (List.length l)) l) t in
    totalDeposited0 t' = fold_left add (amounts Snapshot.depositedToken0 l) (totalDeposited0 t)
    /\ totalDeposited1 t' = fold_left add (amounts Snapshot.depositedToken1 l) (totalDeposited1 t)
    /\ totalWithdrawn0 t' = fold_left add (amounts Snapshot.withdrawnToken0 l) (totalWithdrawn0 t)
    /\ totalWithdrawn1 t' = fold_left add (amounts Snapshot.withdrawnToken1 l) (totalWithdrawn1 t)
    /\ totalFees0 t' = fold_left add (amounts Snapshot.collectedFeesToken0 l) (totalFees0 t)
    /\ totalFees1 t' = fold_left add (amounts Snapshot.collectedFeesToken1 l) (totalFees1 t).
Proof.
  induction l as [| s l IH]; intros a t; cbn zeta.
  - simpl. repeat split.
  - cbn [List.length seq combine fold_left amounts map].
    specialize (IH (S a) (accumulate t (a, s))). cbn zeta in IH.
    exact IH.
Qed.

Lemma positionTotals_sums (l : list Snapshot.t) :
  let t := positionTotals l in
  totalDeposited0 t = sum (amounts Snapshot.depositedToken0 l)
  /\ totalDeposited1 t = sum (amounts Snapshot.depositedToken1 l)
  /\ totalWithdrawn0 t = sum (amounts Snapshot.withdrawnToken0 l)
  /\ totalWithdrawn1 t = sum (amounts Snapshot.withdrawnToken1 l)
  /\ totalFees0 t = sum (amounts Snapshot.collectedFeesToken0 l)
  /\ totalFees1 t = sum (amounts Snapshot.collectedFeesToken1 l).
Proof. apply (totals_fold l 0%nat initialTotals). Qed.

End TotalsFacts.

(** C6: for every group of snapshots of a position and for each token, the
    net position is the total deposited minus the total withdrawn, the totals
    being the running sums of the parsed amounts; the two snapshots of the
    example give 3 deposited, 0.5 withdrawn and 2.5 net for token 0. *)
Theorem net_position_is_deposited_minus_withdrawn
  (positionSnapshots : list Snapshot.t) :
  let t := Report.positionTotals positionSnapshots in
  Report.netToken0 t
  = JSNumber.sub (Report.sum (Report.amounts Snapshot.depositedToken0 positionSnapshots))
                 (Report.sum (Report.amounts Snapshot.withdrawnToken0 positionSnapshots))
  /\ Report.netToken1 t
     = JSNumber.sub (Report.sum (Report.amounts Snapshot.depositedToken1 positionSnapshots))
                    (Report.sum (Report.amounts Snapshot.withdrawnToken1 positionSnapshots))
  /\ Report.netToken0 t
     = JSNumber.sub (Report.totalDeposited0 t) (Report.totalWithdrawn0 t)
  /\ Report.netToken1 t
     = JSNumber.sub (Report.totalDeposited1 t) (Report.totalWithdrawn1 t)
  /\ let e := Report.positionTotals
                [Sample.moved "0xA" "2" "0.5"; Sample.moved "0xA" "1" "0"] in
     Report.totalDeposited0 e = JSNumber.parseFloat "3"
     /\ Report.totalWithdrawn0 e = JSNumber.parseFloat "0.5"
     /\ Report.netToken0 e = JSNumber.parseFloat "2.5".
Proof.
  cbv zeta.
  destruct (positionTotals_sums positionSnapshots)
    as (Hd0 & Hd1 & Hw0 & Hw1 & _).
  unfold Report.netToken0, Report.netToken1.
  rewrite Hd0, Hd1, Hw0, Hw1.
  repeat split; vm_compute; reflexivity.
Qed.

(** ** Sorting *)

Section SortFacts.
Import JSArray.
Context {A : Type}.
Variable rank : A -> nat.

Lemma insert_perm (x : A) (l : list A) :
  Permutation (insert (descending rank) x l) (x :: l).
Proof.
  induction l as [| y l IH]; simpl; [reflexivity |].
  destruct ((descending rank) y x); [| reflexivity].
  rewrite IH. apply perm_swap.
Qed.

Lemma sort_perm (l : list A) : Permutation (sort (descending rank) l) l.
Proof.
  induction l as [| x l IH]; simpl; [constructor |].
  rewrite insert_perm. now constructor.
Qed.

Lemma insert_sorted (x : A) (l : list A) :
  StronglySorted (fun a b => (rank b <= rank a)%nat) l ->
  StronglySorted (fun a b => (rank b <= rank a)%nat) (insert (descending rank) x l).
Proof.
  induction 1 as [| y l Hl IH Hy]; simpl.
  - repeat constructor.
  - unfold descending at 1. destruct (rank x <? rank y)%nat eqn:E.
    + apply Nat.ltb_lt in E. constructor; [exact IH |].
      apply Forall_forall. intros z Hz.
      apply (Permutation_in _ (insert_perm x l)) in Hz as [<- | Hz]; [lia |].
      rewrite Forall_forall in Hy. now apply Hy.
    + apply Nat.ltb_ge in E. constructor; [now constructor |].
      constructor; [exact E |].
      rewrite Forall_forall in *. intros z Hz. specialize (Hy z Hz). lia.
Qed.

Lemma sort_sorted (l : list A) :
  StronglySorted (fun a b => (rank b <= rank a)%nat) (sort (descending rank) l).
Proof.
  induction l as [| x l IH]; simpl; [constructor | now apply insert_sorted].
Qed.

(** Stability: the elements of any one rank keep their order. *)
Lemma insert_stable (n : nat) (x : A) (l : list A) :
  filter (fun a => (rank a =? n)%nat) (insert (descending rank) x l)
  = filter (fun a => (rank a =? n)%nat) (x :: l).
Proof.
  induction l as [| y l IH]; [reflexivity |].
  cbn [insert]. unfold descending at 1.
  destruct (rank x <? rank y)%nat eqn:E; [| reflexivity].
  apply Nat.ltb_lt in E. cbn [filter] in *. rewrite IH.
  destruct (rank x =? n)%nat eqn:Ex, (rank y =? n)%nat eqn:Ey; try reflexivity.
  apply Nat.eqb_eq in Ex, Ey. lia.
Qed.

Lemma sort_stable (n : nat) (l : list A) :
  filter (fun a => (rank a =? n)%nat) (sort (descending rank) l)
  = filter (fun a => (rank a =? n)%nat) l.
Proof.
  induction l as [| x l IH]; [reflexivity |].
  cbn [sort fold_right]. fold (sort (descending rank) l).
  rewrite insert_stable. cbn [filter]. now rewrite IH.
Qed.

End SortFacts.

Section EntriesFacts.
Import JSObject.
Context {A : Type}.

Lemma insertByIndex_sorted (p : string * list A) (l : t A) :
  StronglySorted (fun a b => indexOf (fst a) <= indexOf (fst b)) l ->
  StronglySorted (fun a b => indexOf (fst a) <= indexOf (fst b))
    (insertByIndex p l).
Proof.
  induction 1 as [| q l Hl IH Hq]; simpl.
  - repeat constructor.
  - destruct (indexOf (fst p) <=? indexOf (fst q)) eqn:E.
    + apply Z.leb_le in E. constructor; [now constructor |].
      constructor; [exact E |].
      rewrite Forall_forall in *. intros z Hz. specialize (Hq z Hz). lia.
    + apply Z.leb_gt in E. constructor; [exact IH |].
      apply Forall_forall. intros z Hz.
      apply (Permutation_in _ (insertByIndex_perm p l)) in Hz as [<- | Hz];
        [lia |].
      rewrite Forall_forall in Hq. now apply Hq.
Qed.

Lemma sortByIndex_sorted (l : t A) :
  StronglySorted (fun a b => indexOf (fst a) <= indexOf (fst b))
    (sortByIndex l).
Proof.
  induction l as [| p l IH]; simpl; [constructor |].
  now apply insertByIndex_sorted.
Qed.

Lemma sortByIndex_all (P : string * list A -> bool) (l : t A) :
  forallb P l = true -> forallb P (sortByIndex l) = true.
Proof.
  intros H. apply forallb_forall. intros x Hx.
  apply (Permutation_in _ (sortByIndex_perm l)) in Hx.
  rewrite forallb_forall in H. now apply H.
Qed.

Lemma filter_all {B} (P : B -> bool) (l : list B) :
  forallb P l = true -> filter P l = l.
Proof.
  induction l as [| x l IH]; simpl; [reflexivity |].
  intros H. apply andb_true_iff in H as [Hx Hl]. now rewrite Hx, IH.
Qed.

Lemma filter_none {B} (P : B -> bool) (l : list B) :
  forallb (fun x => negb (P x)) l = true -> filter P l = [].
Proof.
  induction l as [| x l IH]; simpl; [reflexivity |].
  intros H. apply andb_true_iff in H as [Hx Hl].
  apply negb_true_iff in Hx. now rewrite Hx, IH.
Qed.

Lemma forallb_filter {B} (P : B -> bool) (l : list B) :
  forallb P (filter P l) = true.
Proof.
  induction l as [| x l IH]; simpl; [reflexivity |].
  destruct (P x) eqn:E; simpl; [now rewrite E |]; exact IH.
Qed.

(** The order of [Object.entries]: the properties whose key is an array
    index come first, by ascending index, and the others follow in the
    order of their creation. *)
Lemma entries_order (o : t A) :
  let indexed := filter (fun p => isArrayIndex (fst p)) (entries o) in
  let named := filter (fun p => negb (isArrayIndex (fst p))) (entries o) in
  entries o = indexed ++ named
  /\ StronglySorted (fun a b => indexOf (fst a) <= indexOf (fst b)) indexed
  /\ Permutation indexed (filter (fun p => isArrayIndex (fst p)) o)
  /\ named = filter (fun p => negb (isArrayIndex (fst p))) o.
Proof.
  cbv zeta. unfold entries.
  set (ix := filter (fun p => isArrayIndex (fst p)) o).
  set (nm := filter (fun p => negb (isArrayIndex (fst p))) o).
  assert (Hix : forallb (fun p => isArrayIndex (fst p)) (sortByIndex ix) = true)
    by (apply sortByIndex_all, forallb_filter).
  assert (Hnm : forallb (fun p => negb (isArrayIndex (fst p))) nm = true)
    by (apply (forallb_filter (fun p => negb (isArrayIndex (fst p))))).
  rewrite !filter_app.
  rewrite (filter_all _ _ Hix), (filter_none _ _ Hnm), app_nil_r.
  rewrite (filter_all _ _ Hnm).
  rewrite (filter_none (fun p => negb (isArrayIndex (fst p))) (sortByIndex ix)).
  - simpl. repeat split.
    + apply sortByIndex_sorted.
    + apply sortByIndex_perm.
  - apply forallb_forall. intros p Hp. rewrite negb_involutive.
    rewrite forallb_forall in Hix. now apply Hix.
Qed.

End EntriesFacts.

(** C7, as stated, fails for position ids that are array indices: the
    snapshots of position "2" are grouped before those of position "1", both
    positions have one snapshot, and position "1" is put first. *)
Lemma orderedByActivity_fails_array_index :
  exists snapshotsByPosition,
    Report.groupByPosition Sample.twoPositions = inr snapshotsByPosition
    /\ map fst snapshotsByPosition = ["2"%string; "1"%string]
    /\ map fst (Report.sortPositions snapshotsByPosition)
       = ["1"%string; "2"%string]
    /\ ~ Stated.orderedByActivity snapshotsByPosition.
Proof.
  eexists. split; [reflexivity |]. split; [reflexivity |].
  split; [reflexivity |].
  intros [_ Hties]. specialize (Hties 1%nat). discriminate Hties.
Qed.

(** C7, amended: the position blocks are put out by descending number of
    snapshots; positions with equally many snapshots keep the order of
    [Object.entries], in which the ids that are array indices come first by
    ascending index and the other ids follow in the order in which their
    groups were created. *)
Theorem positions_sorted_by_activity
  (snapshotsByPosition : JSObject.t Snapshot.t) :
  let sorted := Report.sortPositions snapshotsByPosition in
  let listed := JSObject.entries snapshotsByPosition in
  let indexed := filter (fun p => JSObject.isArrayIndex (fst p)) listed in
  let named := filter (fun p => negb (JSObject.isArrayIndex (fst p))) listed in
  Stated.mostActiveFirst sorted
  /\ Permutation sorted snapshotsByPosition
  /\ Stated.tiesFollow listed sorted
  /\ listed = indexed ++ named
  /\ StronglySorted
       (fun a b => JSObject.indexOf (fst a) <= JSObject.indexOf (fst b))
       indexed
  /\ named = filter (fun p => negb (JSObject.isArrayIndex (fst p)))
               snapshotsByPosition.
Proof.
  cbv zeta.
  destruct (entries_order snapshotsByPosition) as (H1 & H2 & _ & H4).
  cbv zeta in H1, H2, H4.
  split; [apply (sort_sorted Stated.activity) |].
  split; [unfold Report.sortPositions;
          rewrite (sort_perm Stated.activity); apply entries_perm |].
  split; [intros n; apply (sort_stable Stated.activity) |].
  auto.
Qed.

(** ** Printed lines *)

Section ConsoleFacts.
Import Console.

Lemma bind_returns {A B} (m : Run A) (k : A -> Run B) (a : A) :
  outcome m = inr a ->
  output (bind m k) = output m ++ output (k a)
  /\ outcome (bind m k) = outcome (k a).
Proof.
  destruct m as [out r]. simpl. intros ->. simpl.
  destruct (k a) as [out' r']. simpl. auto.
Qed.

Lemma bind_throws {A B} (m : Run A) (k : A -> Run B) (e : JSError) :
  outcome m = inl e ->
  output (bind m k) = output m /\ outcome (bind m k) = inl e.
Proof. destruct m as [out r]. simpl. intros ->. simpl. auto. Qed.

(** A loop whose body never throws prints the lines of its rounds in
    order and returns. *)
Lemma forEach_returns {A} (f : A -> Run unit) (l : list A) :
  (forall x, In x l -> outcome (f x) = inr tt) ->
  output (forEach f l) = flat_map (fun x => output (f x)) l
  /\ outcome (forEach f l) = inr tt.
Proof.
  induction l as [| x l IH]; intros H; simpl; [auto |].
  destruct (bind_returns (f x) (fun _ => forEach f l) tt
              (H x (or_introl eq_refl))) as [Ho Hr].
  destruct (IH (fun y Hy => H y (or_intror Hy))) as [IHo IHr].
  rewrite Ho, Hr, IHo, IHr. auto.
Qed.

Lemma filter_flat_map {A B} (P : B -> bool) (g : A -> list B) (l : list A) :
  filter P (flat_map g l) = flat_map (fun x => filter P (g x)) l.
Proof.
  induction l as [| x l IH]; simpl; [reflexivity |].
  now rewrite filter_app, IH.
Qed.

Lemma flat_map_singleton {A B} (g : A -> B) (l : list A) :
  flat_map (fun x => [g x]) l = map g l.
Proof. induction l; simpl; congruence. Qed.

Lemma flat_map_nil {A B} (l : list A) :
  flat_map (fun _ : A => @nil B) l = [].
Proof. induction l; simpl; auto. Qed.

End ConsoleFacts.

Section LoopFacts.
Import Console.

Lemma toISOString_valid (timestamp : string) :
  JSDate.validTimestamp timestamp = true ->
  toISOString timestamp = ret (ADate timestamp).
Proof.
  unfold toISOString, JSDate.validTimestamp. now intros ->.
Qed.

Lemma toISOString_invalid (timestamp : string) :
  JSDate.validTimestamp timestamp = false ->
  toISOString timestamp = throw (RangeError "Invalid time value").
Proof.
  unfold toISOString, JSDate.validTimestamp. now intros ->.
Qed.

(** A loop whose rounds either return or throw one and the same error
    returns exactly when all its rounds do. *)
Lemma forEach_outcome {A} (f : A -> Run unit) (ok : A -> bool) (e : JSError)
  (l : list A) :
  (forall x, In x l -> outcome (f x) = if ok x then inr tt else inl e) ->
  outcome (forEach f l) = if forallb ok l then inr tt else inl e.
Proof.
  induction l as [| x l IH]; intros H; [reflexivity |].
  cbn [forEach forallb].
  pose proof (H x (or_introl eq_refl)) as Hx.
  destruct (ok x).
  - destruct (bind_returns (f x) (fun _ => forEach f l) tt Hx) as [_ ->].
    apply IH. intros y Hy. apply H. now right.
  - now destruct (bind_throws (f x) (fun _ => forEach f l) e Hx) as [_ ->].
Qed.

(** When the rounds that throw print nothing, the loop prints the lines
    of the rounds ahead of the first one that throws. *)
Lemma forEach_leading {A} (f : A -> Run unit) (ok : A -> bool) (e : JSError)
  (l : list A) :
  (forall x, In x l -> ok x = true -> outcome (f x) = inr tt) ->
  (forall x, In x l -> ok x = false -> f x = throw e) ->
  output (forEach f l) = flat_map (fun x => output (f x)) (Stated.leading ok l).
Proof.
  induction l as [| x l IH]; intros Hok Hno; [reflexivity |].
  cbn [forEach Stated.leading].
  destruct (ok x) eqn:Hx.
  - destruct (bind_returns (f x) (fun _ => forEach f l) tt
                (Hok x (or_introl eq_refl) Hx)) as [-> _].
    cbn [flat_map]. f_equal. apply IH.
    + intros y Hy. apply Hok. now right.
    + intros y Hy. apply Hno. now right.
  - rewrite (Hno x (or_introl eq_refl) Hx). reflexivity.
Qed.

Lemma forallb_indexed {A} (P : A -> bool) (l : list A) :
  forallb (fun entry => P (snd entry)) (indexed l) = forallb P l.
Proof.
  unfold indexed. generalize 0%nat.
  induction l as [| x l IH]; intros a; [reflexivity |].
  cbn [List.length seq combine forallb snd]. now rewrite IH.
Qed.

Lemma leading_all {A} (P : A -> bool) (l : list A) :
  forallb P l = true -> Stated.leading P l = l.
Proof.
  induction l as [| x l IH]; [reflexivity |].
  cbn [forallb Stated.leading]. intros H.
  apply andb_true_iff in H as [-> Hl]. now rewrite IH.
Qed.

Lemma length_indexed {A} (l : list A) :
  List.length (indexed l) = List.length l.
Proof.
  unfold indexed. rewrite length_combine, length_seq. apply Nat.min_id.
Qed.

End LoopFacts.

(** ** The activity timeline *)

Section TimelineFacts.
Import Console Report.

Lemma significant_anyPositive (s : Snapshot.t) :
  significant s = Stated.anyPositive s.
Proof.
  unfold significant, hasDeposits, hasWithdrawals, hasFees,
    Stated.anyPositive, Stated.sixAmounts, positive. simpl.
  now rewrite orb_false_r, !orb_assoc.
Qed.

Lemma significantSnapshots_anyPositive (l : list Snapshot.t) :
  significantSnapshots l = filter Stated.anyPositive l.
Proof.
  unfold significantSnapshots. apply filter_ext, significant_anyPositive.
Qed.

(** An entry of the timeline whose date is valid opens with its line and
    returns; with a date that is not, it throws ahead of any line. *)
Lemma timelineEvent_dated (pool : Pool.t) (entry : nat * Snapshot.t) :
  Stated.validDate (snd entry) = true ->
  outcome (timelineEvent pool entry) = inr tt
  /\ filter (hasText "event") (output (timelineEvent pool entry))
     = [Report.eventLine entry]
  /\ filter (hasText "more events") (output (timelineEvent pool entry)) = []
  /\ filter (hasText "Position ID") (output (timelineEvent pool entry)) = [].
Proof.
  destruct entry as [index snapshot]. unfold Stated.validDate. cbn [snd].
  intros Hvalid. unfold timelineEvent, when.
  rewrite (toISOString_valid _ Hvalid).
  destruct (hasDeposits snapshot), (hasWithdrawals snapshot),
    (hasFees snapshot); repeat split.
Qed.

Lemma timelineEvent_undated (pool : Pool.t) (entry : nat * Snapshot.t) :
  Stated.validDate (snd entry) = false ->
  timelineEvent pool entry = throw (RangeError "Invalid time value").
Proof.
  destruct entry as [index snapshot]. unfold Stated.validDate. cbn [snd].
  intros Hvalid. unfold timelineEvent.
  now rewrite (toISOString_invalid _ Hvalid).
Qed.

Lemma timeline_events (pool : Pool.t) (events : list (nat * Snapshot.t)) :
  let dated := fun entry : nat * Snapshot.t => Stated.validDate (snd entry) in
  let run := forEach (timelineEvent pool) events in
  outcome run
  = (if forallb dated events
     then inr tt else inl (RangeError "Invalid time value"))
  /\ filter (hasText "event") (output run)
     = map Report.eventLine (Stated.leading dated events)
  /\ filter (hasText "more events") (output run) = []
  /\ filter (hasText "Position ID") (output run) = [].
Proof.
  cbv zeta.
  set (dated := fun entry : nat * Snapshot.t => Stated.validDate (snd entry)).
  split.
  { apply forEach_outcome. intros x _. destruct (dated x) eqn:Hx.
    - now apply timelineEvent_dated.
    - now rewrite timelineEvent_undated. }
  rewrite (forEach_leading (timelineEvent pool) dated
             (RangeError "Invalid time value")).
  - rewrite !filter_flat_map.
    assert (Hlead : forall x, In x (Stated.leading dated events) ->
                              dated x = true).
    { clear. induction events as [| y l IH]; [intros x [] |].
      cbn [Stated.leading]. destruct (dated y) eqn:Hy; [| intros x []].
      intros x [<- | Hx]; [exact Hy | now apply IH]. }
    repeat split.
    + rewrite <- flat_map_singleton.
      revert Hlead. generalize (Stated.leading dated events).
      induction l as [| x l IH]; intros Hl; [reflexivity |].
      cbn [flat_map]. rewrite IH by (intros y Hy; apply Hl; now right).
      f_equal. now apply timelineEvent_dated, Hl; left.
    + revert Hlead. generalize (Stated.leading dated events).
      induction l as [| x l IH]; intros Hl; [reflexivity |].
      cbn [flat_map]. rewrite IH by (intros y Hy; apply Hl; now right).
      rewrite app_nil_r. now apply timelineEvent_dated, Hl; left.
    + revert Hlead. generalize (Stated.leading dated events).
      induction l as [| x l IH]; intros Hl; [reflexivity |].
      cbn [flat_map]. rewrite IH by (intros y Hy; apply Hl; now right).
      rewrite app_nil_r. now apply timelineEvent_dated, Hl; left.
  - intros x _ Hx. now apply timelineEvent_dated.
  - intros x _ Hx. now apply timelineEvent_undated.
Qed.

(** The timeline of a position, line by line. *)
Lemma timeline_lines (pool : Pool.t) (positionSnapshots : list Snapshot.t) :
  let events := Report.significantSnapshots positionSnapshots in
  let shown := indexed (firstn 5 events) in
  let dated := fun entry : nat * Snapshot.t => Stated.validDate (snd entry) in
  let run := Report.timeline pool positionSnapshots in
  outcome run
  = (if forallb Stated.validDate (firstn 5 events)
     then inr tt else inl (RangeError "Invalid time value"))
  /\ filter (hasText "event") (output run)
     = map Report.eventLine (Stated.leading dated shown)
  /\ filter (hasText "more events") (output run)
     = (if forallb Stated.validDate (firstn 5 events)
           && (5 <? List.length events)%nat
        then [Log "more events" [ACount (List.length events - 5)]]
        else [])
  /\ filter (hasText "Position ID") (output run) = [].
Proof.
  cbv zeta. unfold Report.timeline, Report.when, JSArray.slice0.
  set (events := Report.significantSnapshots positionSnapshots).
  remember (List.length events) as n eqn:Hn.
  destruct (0 <? n)%nat eqn:Hpos.
  - destruct (timeline_events pool (indexed (firstn 5 events)))
      as (Hr & He & Hm & Hp).
    cbv zeta in Hr, He, Hm, Hp. rewrite forallb_indexed in Hr.
    destruct (forEach (timelineEvent pool) (indexed (firstn 5 events)))
      as [out r].
    cbn [outcome output fst snd] in Hr, He, Hm, Hp. subst r.
    unfold bind, log.
    destruct (forallb Stated.validDate (firstn 5 events));
      destruct (5 <? n)%nat;
      cbn [ret outcome output fst snd andb];
      rewrite ?filter_app, ?He, ?Hm, ?Hp; cbn [filter hasText app];
      rewrite ?app_nil_r; repeat split; try assumption.
  - apply Nat.ltb_ge in Hpos.
    assert (Hnil : events = []) by (apply length_zero_iff_nil; lia).
    assert (n = 0)%nat as -> by lia.
    rewrite Hnil. repeat split.
Qed.

End TimelineFacts.

(** C8, as stated, fails for a negative amount: it is not zero, and the
    snapshot is left off the timeline. *)
Lemma includedWhenNonZero_fails_negative :
  ~ Stated.includedWhenNonZero (Sample.amounts "-1" "0" "0" "0" "0" "0").
Proof.
  unfold Stated.includedWhenNonZero.
  assert (H1 : Report.significant (Sample.amounts "-1" "0" "0" "0" "0" "0")
               = false) by (vm_compute; reflexivity).
  assert (H2 : Stated.anyNonZero (Sample.amounts "-1" "0" "0" "0" "0" "0")
               = true) by (vm_compute; reflexivity).
  rewrite H1, H2. discriminate.
Qed.

(** C8, amended: the snapshots on the timeline of a group are, in their
    original order, exactly those of which at least one of the six amounts
    parses to a number greater than zero.  When the dates of the first five
    of them are valid, the timeline prints these, in order, and a note with
    the number of the remaining ones exactly when there are more than five.
    Otherwise it prints the events ahead of the first one whose date is not
    valid and throws a RangeError, without a note. *)
Theorem timeline_lists_positive_events (pool : Pool.t)
  (positionSnapshots : list Snapshot.t) :
  let events := filter Stated.anyPositive positionSnapshots in
  let shown := Console.indexed (firstn 5 events) in
  let run := Report.timeline pool positionSnapshots in
  let lines := filter (Console.hasText "event") (Console.output run) in
  let note := filter (Console.hasText "more events") (Console.output run) in
  Report.significantSnapshots positionSnapshots = events
  /\ if forallb Stated.validDate (firstn 5 events)
     then
       Console.outcome run = inr tt
       /\ lines = map Report.eventLine shown
       /\ List.length lines = Nat.min 5 (List.length events)
       /\ note
          = (if (5 <? List.length events)%nat
             then [Console.Log "more events"
                     [Console.ACount (List.length events - 5)]]
             else [])
     else
       Console.outcome run = inl (RangeError "Invalid time value")
       /\ lines
          = map Report.eventLine
              (Stated.leading (fun entry => Stated.validDate (snd entry)) shown)
       /\ note = [].
Proof.
  cbv zeta.
  split; [apply significantSnapshots_anyPositive |].
  destruct (timeline_lines pool positionSnapshots) as (Hr & He & Hm & _).
  cbv zeta in Hr, He, Hm.
  rewrite significantSnapshots_anyPositive in Hr, He, Hm.
  destruct (forallb Stated.validDate
              (firstn 5 (filter Stated.anyPositive positionSnapshots)))
    eqn:Hvalid.
  - rewrite leading_all in He by now rewrite forallb_indexed.
    split; [exact Hr |]. split; [exact He |]. split; [| exact Hm].
    rewrite He, length_map, length_indexed, length_firstn. reflexivity.
  - auto.
Qed.

(** A timeline with a date that is not valid: the event ahead of it is
    printed, then the RangeError is thrown. *)
Example timeline_stops_at_invalid_date :
  let run :=
    Report.timeline Sample.pool
      [Sample.deposit; Sample.undated; Sample.deposit] in
  Console.outcome run = inl (RangeError "Invalid time value")
  /\ filter (Console.hasText "event") (Console.output run)
     = [Report.eventLine (0%nat, Sample.deposit)].
Proof. vm_compute. split; reflexivity. Qed.

(** ** Requests *)

Section FetchFacts.
Import Console Fetcher Outcome.

Lemma reported_intro (label : string) (e : JSError) (w w' : World)
  (lines : list Line) :
  console w' = console w ++ lines ++ [LogError label [AError e]] ->
  reported label e w w'.
Proof. intros H. now exists lines. Qed.

Lemma quiet_intro (w w' : World) (lines : list Line) :
  console w' = console w ++ lines ->
  Forall (fun l => match l with Log _ _ => True | LogError _ _ => False end)
    lines ->
  quiet w w'.
Proof. intros H1 H2. now exists lines. Qed.

End FetchFacts.

(** Case analysis on a reply down to the fields of its data. *)
Ltac fetch_reply r :=
  let e := fresh "e" in
  let errs := fresh "errs" in
  let p := fresh "p" in
  let ps := fresh "ps" in
  let cps := fresh "cps" in
  let ss := fresh "ss" in
  destruct r as [e | [[errs |] [[[p |] [ps |] [cps |] [ss |]] |]]].

Ltac fetch_simpl :=
  cbn [fst snd Fetcher.replies Fetcher.sent Fetcher.console
       Fetcher.sevenDaysAgo Fetcher.errors Fetcher.data Fetcher.pool
       Fetcher.pools Fetcher.positions Fetcher.positionSnapshots].

Ltac fetch_report :=
  repeat match goal with
         | |- _ /\ _ => split
         | |- exists _ : JSError, _ => eexists
         | |- @eq (Result _) _ _ => reflexivity
         | |- @eq (JSError + _)%type _ _ => reflexivity
         | |- @eq (list Fetcher.Request) _ _ =>
             rewrite <- ?app_assoc; reflexivity
         | |- Outcome.reported _ _ _ _ =>
             unfold Outcome.reported; fetch_simpl; rewrite <- ?app_assoc;
             cbn [app];
             match goal with
             | |- exists _, _ ++ ?all = _ => exists (removelast all)
             end;
             reflexivity
         | |- Outcome.quiet _ _ =>
             unfold Outcome.quiet; fetch_simpl; rewrite <- ?app_assoc;
             cbn [app];
             eexists; split; [reflexivity | repeat constructor]
         end.

Ltac fetch_unfold :=
  unfold Fetcher.tryCatch, Fetcher.bind, Fetcher.post, Fetcher.print,
    Fetcher.dataOf, Fetcher.required, Fetcher.getSevenDaysAgo,
    Fetcher.throw, Fetcher.ret;
  fetch_simpl.


(** The query for the current positions of the pool. *)
Lemma fetchCurrentPositions_single_attempt (w : Fetcher.World) :
  let run := PoolFetcher.fetchCurrentPositions w in
  Fetcher.sent (snd run)
  = Fetcher.sent w
    ++ [Fetcher.mkRequest Fetcher.SUBGRAPH_URL Fetcher.CURRENT_POSITIONS_QUERY
          [("poolId"%string, Fetcher.VString PoolReport.POOL_ID)]]
  /\ match Outcome.verdict Fetcher.positions (Outcome.nextReply w) with
     | Outcome.Delivered ps =>
         fst run = inr ps /\ Outcome.quiet w (snd run)
     | Outcome.TransportFailed e =>
         fst run = inl e
         /\ Outcome.reported "Error fetching current positions:" e w (snd run)
     | Outcome.GraphQLErrors errs =>
         fst run = inl (Fetcher.graphQLErrors errs)
         /\ Outcome.reported "Error fetching current positions:"
              (Fetcher.graphQLErrors errs) w (snd run)
     | Outcome.Missing =>
         exists e,
           fst run = inl e
           /\ Outcome.reported "Error fetching current positions:" e w (snd run)
     end.
Proof.
  cbv zeta. unfold Outcome.verdict, Outcome.nextReply.
  unfold PoolFetcher.fetchCurrentPositions. fetch_unfold.
  fetch_reply (Fetcher.replies w (List.length (Fetcher.sent w)));
    fetch_simpl; fetch_report.
Qed.

(** The query for the position snapshots of the pool. *)
Lemma fetchPositionSnapshots_single_attempt (w : Fetcher.World) :
  let run := PoolFetcher.fetchPositionSnapshots w in
  Fetcher.sent (snd run)
  = Fetcher.sent w
    ++ [Fetcher.mkRequest Fetcher.SUBGRAPH_URL Fetcher.POSITION_SNAPSHOTS_QUERY
          [("poolId"%string, Fetcher.VString PoolReport.POOL_ID);
           ("timestamp"%string, Fetcher.VString (Outcome.timestampOf w))]]
  /\ match Outcome.verdict Fetcher.positionSnapshots (Outcome.nextReply w) with
     | Outcome.Delivered ss =>
         fst run = inr ss /\ Outcome.quiet w (snd run)
     | Outcome.TransportFailed e =>
         fst run = inl e
         /\ Outcome.reported "Error fetching position snapshots:" e w (snd run)
     | Outcome.GraphQLErrors errs =>
         fst run = inl (Fetcher.graphQLErrors errs)
         /\ Outcome.reported "Error fetching position snapshots:"
              (Fetcher.graphQLErrors errs) w (snd run)
     | Outcome.Missing =>
         exists e,
           fst run = inl e
           /\ Outcome.reported "Error fetching position snapshots:" e w (snd run)
     end.
Proof.
  cbv zeta. unfold Outcome.verdict, Outcome.nextReply.
  unfold PoolFetcher.fetchPositionSnapshots. fetch_unfold.
  fetch_reply (Fetcher.replies w (List.length (Fetcher.sent w)));
    fetch_simpl; fetch_report.
Qed.

(** The query for all pools: the pools that hold K-HYPE are returned. *)
Lemma fetchKHypePools_single_attempt (url : string) (w : Fetcher.World) :
  let run := KHypeFetcher.fetchKHypePools url w in
  Fetcher.sent (snd run) = Fetcher.sent w ++ [Outcome.allPoolsRequest url]
  /\ match Outcome.verdict Fetcher.pools (Outcome.nextReply w) with
     | Outcome.Delivered allPools =>
         fst run = inr (filter KHypeFetcher.isKHypePool allPools)
         /\ Outcome.quiet w (snd run)
     | Outcome.TransportFailed e =>
         fst run = inl e
         /\ Outcome.reported "Error fetching K-HYPE pools:" e w (snd run)
     | Outcome.GraphQLErrors errs =>
         fst run = inl (Fetcher.graphQLErrors errs)
         /\ Outcome.reported "Error fetching K-HYPE pools:"
              (Fetcher.graphQLErrors errs) w (snd run)
     | Outcome.Missing =>
         exists e,
           fst run = inl e
           /\ Outcome.reported "Error fetching K-HYPE pools:" e w (snd run)
     end.
Proof.
  cbv zeta. unfold Outcome.verdict, Outcome.nextReply.
  unfold KHypeFetcher.fetchKHypePools. fetch_unfold.
  fetch_reply (Fetcher.replies w (List.length (Fetcher.sent w)));
    fetch_simpl; fetch_report.
Qed.

Lemma length_sent_one (w : Fetcher.World) (r : Fetcher.Request) :
  List.length (Fetcher.sent w ++ [r]) = S (List.length (Fetcher.sent w)).
Proof. rewrite length_app. simpl. lia. Qed.

(** The snapshots of the K-HYPE pools: the pools are fetched first, and
    only if that succeeds are the snapshots requested. *)
Lemma fetchKHypePositionSnapshots_attempts (url : string) (w : Fetcher.World) :
  let run := KHypeFetcher.fetchKHypePositionSnapshots url w in
  let label := "Error fetching position snapshots:"%string in
  match Outcome.verdict Fetcher.pools (Outcome.nextReply w) with
  | Outcome.Delivered allPools =>
      Fetcher.sent (snd run)
      = Fetcher.sent w
        ++ [Outcome.allPoolsRequest url;
            Outcome.snapshotsRequest url w allPools]
      /\ match Outcome.verdict Fetcher.positionSnapshots (Outcome.secondReply w)
         with
         | Outcome.Delivered ss =>
             fst run = inr ss /\ Outcome.quiet w (snd run)
         | Outcome.TransportFailed e =>
             fst run = inl e /\ Outcome.reported label e w (snd run)
         | Outcome.GraphQLErrors errs =>
             fst run = inl (Fetcher.graphQLErrors errs)
             /\ Outcome.reported label (Fetcher.graphQLErrors errs) w (snd run)
         | Outcome.Missing =>
             exists e, fst run = inl e /\ Outcome.reported label e w (snd run)
         end
  | Outcome.TransportFailed e =>
      Fetcher.sent (snd run) = Fetcher.sent w ++ [Outcome.allPoolsRequest url]
      /\ fst run = inl e /\ Outcome.reported label e w (snd run)
  | Outcome.GraphQLErrors errs =>
      Fetcher.sent (snd run) = Fetcher.sent w ++ [Outcome.allPoolsRequest url]
      /\ fst run = inl (Fetcher.graphQLErrors errs)
      /\ Outcome.reported label (Fetcher.graphQLErrors errs) w (snd run)
  | Outcome.Missing =>
      Fetcher.sent (snd run) = Fetcher.sent w ++ [Outcome.allPoolsRequest url]
      /\ exists e, fst run = inl e /\ Outcome.reported label e w (snd run)
  end.
Proof.
  cbv zeta. unfold Outcome.verdict, Outcome.nextReply, Outcome.secondReply.
  unfold KHypeFetcher.fetchKHypePositionSnapshots,
    KHypeFetcher.fetchKHypePools.
  fetch_unfold.
  fetch_reply (Fetcher.replies w (List.length (Fetcher.sent w)));
    fetch_simpl; try solve [fetch_report].
  all: rewrite length_sent_one.
  all: fetch_reply (Fetcher.replies w (S (List.length (Fetcher.sent w))));
    fetch_simpl; fetch_report.
Qed.


(** * Further properties of the scripts *)

(** ** The grouping loops *)

Section ListedFacts.
Import JSObject Grouping.
Context {A : Type}.
Variable key : A -> string.

Lemma filter_keys (P : string -> bool) (g : string -> list A)
  (ks : list string) :
  map fst (filter (fun p => P (fst p)) (map (fun k => (k, g k)) ks))
  = filter P ks.
Proof.
  induction ks as [| k ks IH]; [reflexivity |].
  cbn [map filter fst]. destruct (P k); cbn [map fst]; now rewrite IH.
Qed.

(** The groups of a list as [Object.entries] lists them: one per distinct
    key, each holding the elements with its key in their order and none
    empty; the keys that are array indices first, by ascending index, then
    the other keys in the order of their first occurrence. *)
Lemma entries_grouped (l : list A) :
  let listed := entries (grouped key l) in
  let indexed := filter (fun p => isArrayIndex (fst p)) listed in
  let named := filter (fun p => negb (isArrayIndex (fst p))) listed in
  Permutation (map fst listed) (firstOccurrences (map key l))
  /\ Forall
       (fun g =>
          snd g = filter (fun x => String.eqb (key x) (fst g)) l
          /\ snd g <> [])
       listed
  /\ listed = indexed ++ named
  /\ StronglySorted (fun a b => indexOf (fst a) <= indexOf (fst b)) indexed
  /\ map fst named
     = filter (fun k => negb (isArrayIndex k)) (firstOccurrences (map key l)).
Proof.
  cbv zeta.
  destruct (entries_order (grouped key l)) as (H1 & H2 & _ & H4).
  cbv zeta in H1, H2, H4.
  split; [| split; [| split; [exact H1 | split; [exact H2 |]]]].
  - rewrite <- (grouped_keys key l).
    apply Permutation_map, entries_perm.
  - apply Forall_forall. intros [k g] Hin.
    apply (Permutation_in _ (entries_perm _)) in Hin.
    apply grouped_In in Hin as [Hk ->]. cbn [fst snd].
    split; [reflexivity |].
    apply in_map_iff in Hk as (x & Hx & Hin). intros Hnil.
    assert (In x (filter (hasKey key k) l)) as Habs.
    { apply filter_In. split; [exact Hin |].
      unfold hasKey. rewrite Hx. apply String.eqb_refl. }
    rewrite Hnil in Habs. exact Habs.
  - rewrite H4. unfold grouped.
    apply (filter_keys (fun k => negb (isArrayIndex k))).
Qed.

End ListedFacts.

(** X1: the grouping loop, completely.  It throws a TypeError exactly when
    the key of some element is the name of a property that the object
    inherits.  Otherwise [Object.entries] of the object it builds lists one
    group per distinct key, each holding the elements with its key in their
    original order: first the keys that are array indices, by ascending
    index, then the other keys in the order in which they first occur. *)
Theorem grouping_loop_complete {A : Type} (key : A -> string) (l : list A) :
  if existsb (fun x => JSObject.inherited (key x)) l
  then JSObject.groupBy key l = inl (TypeError "push is not a function")
  else
    exists o,
      JSObject.groupBy key l = inr o
      /\ let listed := JSObject.entries o in
         let indexed :=
           filter (fun p => JSObject.isArrayIndex (fst p)) listed in
         let named :=
           filter (fun p => negb (JSObject.isArrayIndex (fst p))) listed in
         Permutation (map fst listed)
           (Grouping.firstOccurrences (map key l))
         /\ Forall
              (fun g =>
                 snd g = filter (fun x => String.eqb (key x) (fst g)) l
                 /\ snd g <> [])
              listed
         /\ listed = indexed ++ named
         /\ StronglySorted
              (fun a b => JSObject.indexOf (fst a) <= JSObject.indexOf (fst b))
              indexed
         /\ map fst named
            = filter (fun k => negb (JSObject.isArrayIndex k))
                (Grouping.firstOccurrences (map key l)).
Proof.
  rewrite groupBy_cases.
  destruct (existsb (fun x => JSObject.inherited (key x)) l); [reflexivity |].
  exists (Grouping.grouped key l). split; [reflexivity |].
  apply entries_grouped.
Qed.

(** Keys that are array indices are listed by their value, not by first
    occurrence. *)
Example grouping_lists_indices_first :
  exists o,
    JSObject.groupBy (fun k : string => k)
      ["b"; "10"; "9"; "a"; "10"]%string = inr o
    /\ JSObject.keys o = ["9"; "10"; "b"; "a"]%string.
Proof. eexists. split; reflexivity. Qed.

Lemma StronglySorted_filter {A : Type} (R : A -> A -> Prop) (P : A -> bool)
  (l : list A) :
  StronglySorted R l -> StronglySorted R (filter P l).
Proof.
  induction 1 as [| x l Hl IH Hx]; simpl; [constructor |].
  destruct (P x); [| exact IH].
  constructor; [exact IH |].
  rewrite Forall_forall in *. intros y Hy.
  apply filter_In in Hy as [Hy _]. now apply Hx.
Qed.

Lemma grouped_of_groupBy {A : Type} (key : A -> string) (l : list A)
  (o : JSObject.t A) :
  JSObject.groupBy key l = inr o -> o = Grouping.grouped key l.
Proof.
  rewrite groupBy_cases. destruct (existsb _ l); [discriminate |].
  now intros [= <-].
Qed.

(** X2: grouping keeps the order of the input inside every group; in
    particular snapshots that arrive by descending timestamp stay so in each
    group. *)
Theorem groups_keep_input_order {A : Type} (R : A -> A -> Prop)
  (key : A -> string) (l : list A) (o : JSObject.t A) :
  JSObject.groupBy key l = inr o ->
  StronglySorted R l ->
  Forall (fun g => StronglySorted R (snd g)) (JSObject.entries o).
Proof.
  intros Hgroup Hsorted. apply grouped_of_groupBy in Hgroup. subst o.
  apply Forall_forall. intros [k g] Hin.
  apply (Permutation_in _ (entries_perm _)) in Hin.
  apply grouped_In in Hin as [_ ->]. simpl.
  now apply StronglySorted_filter.
Qed.

Lemma groups_keep_input_order_witness :
  Forall (fun g => StronglySorted (fun a b : nat => (b <= a)%nat) (snd g))
    (JSObject.entries
       [("odd"%string, [5; 3; 1]%nat); ("even"%string, [4; 2]%nat)]).
Proof.
  apply (groups_keep_input_order (fun a b : nat => (b <= a)%nat)
           (fun n => if Nat.even n then "even"%string else "odd"%string)
           [5; 4; 3; 2; 1]%nat).
  - reflexivity.
  - repeat constructor.
Defined.

(** X3: the groups by position.  When the loop ends normally,
    [Object.entries] lists one group per distinct position id; a group is
    never empty and holds exactly the snapshots with its id, in their
    original order.  The ids that are array indices (as numerals are) come
    first, by ascending index; the other ids follow in the order in which
    they first occur among the snapshots that have an id. *)
Theorem position_groups (snapshots : list Snapshot.t)
  (snapshotsByPosition : JSObject.t Snapshot.t) :
  Report.groupByPosition snapshots = inr snapshotsByPosition ->
  let ids :=
    Grouping.firstOccurrences
      (map Report.positionKey (Report.withPositionId snapshots)) in
  let listed := JSObject.entries snapshotsByPosition in
  let indexed := filter (fun p => JSObject.isArrayIndex (fst p)) listed in
  let named :=
    filter (fun p => negb (JSObject.isArrayIndex (fst p))) listed in
  Permutation (map fst listed) ids
  /\ Forall
       (fun g =>
          snd g <> []
          /\ snd g
             = filter
                 (fun s =>
                    Snapshot.hasPositionId s
                    && String.eqb (Report.positionKey s) (fst g))
                 snapshots)
       listed
  /\ listed = indexed ++ named
  /\ StronglySorted
       (fun a b => JSObject.indexOf (fst a) <= JSObject.indexOf (fst b))
       indexed
  /\ map fst named = filter (fun k => negb (JSObject.isArrayIndex k)) ids.
Proof.
  rewrite groupByPosition_cases. destruct (existsb _ _); [discriminate |].
  intros [= <-]. cbv zeta.
  destruct (entries_grouped Report.positionKey
              (Report.withPositionId snapshots)) as (H1 & H2 & H3 & H4 & H5).
  cbv zeta in H1, H2, H3, H4, H5.
  split; [exact H1 |]. split; [| split; [exact H3 | split; [exact H4 | exact H5]]].
  apply Forall_forall. intros g Hg.
  rewrite Forall_forall in H2. destruct (H2 g Hg) as [Heq Hne].
  split; [exact Hne |]. rewrite Heq.
  unfold Report.withPositionId. rewrite filter_and. reflexivity.
Qed.

Lemma position_groups_witness :
  let snapshotsByPosition :=
    [ ("2"%string, [Sample.bare "0xa" Sample.pool (Sample.position "2")]);
      ("1"%string, [Sample.bare "0xa" Sample.pool (Sample.position "1")]) ] in
  let ids :=
    Grouping.firstOccurrences
      (map Report.positionKey (Report.withPositionId Sample.twoPositions)) in
  let listed := JSObject.entries snapshotsByPosition in
  let indexed := filter (fun p => JSObject.isArrayIndex (fst p)) listed in
  let named :=
    filter (fun p => negb (JSObject.isArrayIndex (fst p))) listed in
  Permutation (map fst listed) ids
  /\ Forall
       (fun g =>
          snd g <> []
          /\ snd g
             = filter
                 (fun s =>
                    Snapshot.hasPositionId s
                    && String.eqb (Report.positionKey s) (fst g))
                 Sample.twoPositions)
       listed
  /\ listed = indexed ++ named
  /\ StronglySorted
       (fun a b => JSObject.indexOf (fst a) <= JSObject.indexOf (fst b))
       indexed
  /\ map fst named = filter (fun k => negb (JSObject.isArrayIndex k)) ids.
Proof.
  apply (position_groups Sample.twoPositions). reflexivity.
Defined.

(** The ids "2" and "1" are met in this order and listed as "1", "2". *)
Example position_groups_listed_by_index :
  exists snapshotsByPosition,
    Report.groupByPosition Sample.twoPositions = inr snapshotsByPosition
    /\ JSObject.keys snapshotsByPosition = ["1"; "2"]%string.
Proof. eexists. split; reflexivity. Qed.

(** X4: the pools are listed in the order in which they are first seen.
    When no pool id or owner names an inherited property and no pool id is
    an array index (hex addresses are neither), [Object.entries] of the
    groups by pool lists the distinct pool ids by first occurrence. *)
Theorem pools_listed_in_first_seen_order (snapshots : list Snapshot.t) :
  forallb Stated.plainKeys snapshots = true ->
  forallb (fun s => negb (JSObject.isArrayIndex (Report.poolId s))) snapshots
  = true ->
  exists snapshotsByPool,
    Report.groupByPool snapshots = inr snapshotsByPool
    /\ map fst (JSObject.entries snapshotsByPool)
       = Grouping.firstOccurrences (map Report.poolId snapshots).
Proof.
  intros Hplain Hnames.
  exists (Grouping.grouped Report.poolId snapshots). split.
  - apply groupBy_grouped. intros s Hs.
    rewrite forallb_forall in Hplain. specialize (Hplain s Hs).
    unfold Stated.plainKeys in Hplain.
    apply andb_true_iff in Hplain as [H _]. now apply negb_true_iff in H.
  - rewrite entries_plain; [apply grouped_keys |].
    apply forallb_forall. intros [k g] Hin. simpl.
    apply grouped_In in Hin as [Hk _].
    apply in_map_iff in Hk as (s & <- & Hs).
    rewrite forallb_forall in Hnames. now apply Hnames.
Qed.

Lemma pools_listed_in_first_seen_order_witness :
  exists snapshotsByPool,
    Report.groupByPool
      [ Sample.bare "0xa" (Sample.poolWith "0x2") None;
        Sample.bare "0xb" (Sample.poolWith "0x1") None;
        Sample.bare "0xc" (Sample.poolWith "0x2") None ]
    = inr snapshotsByPool
    /\ map fst (JSObject.entries snapshotsByPool)
       = Grouping.firstOccurrences
           (map Report.poolId
              [ Sample.bare "0xa" (Sample.poolWith "0x2") None;
                Sample.bare "0xb" (Sample.poolWith "0x1") None;
                Sample.bare "0xc" (Sample.poolWith "0x2") None ]).
Proof.
  apply pools_listed_in_first_seen_order; reflexivity.
Defined.

(** ** The user filter, continued *)

(** X5: whatever the allow-list, the filter keeps only snapshots of the
    input whose owner equals some entry up to letter case; filtering again
    changes nothing, and the result is no longer than the input. *)
Theorem filter_keeps_only_listed_owners (users : list string)
  (snapshots : list Snapshot.t) :
  let kept := KHype.filterSnapshots users snapshots in
  Forall
    (fun s =>
       In s snapshots
       /\ existsb (Stated.matchesOwner (Snapshot.owner s)) users = true)
    kept
  /\ KHype.filterSnapshots users kept = kept
  /\ (List.length kept <= List.length snapshots)%nat.
Proof.
  cbv zeta. unfold KHype.filterSnapshots. repeat split.
  - apply Forall_forall. intros s Hs. apply filter_In in Hs as [Hs Hin].
    split; [exact Hs |].
    unfold JSArray.includes in Hin.
    apply existsb_exists in Hin as (u & Hu & Heq).
    apply String.eqb_eq in Heq. apply existsb_exists. exists u.
    split; [exact Hu |]. unfold Stated.matchesOwner.
    rewrite <- Heq, toLowerCase_idempotent. apply String.eqb_refl.
  - rewrite filter_and. apply filter_ext. intros s. apply andb_diag.
  - apply filter_length_le.
Qed.

(** X6: with a non-empty allow-list written in lower case, as the one of
    the script is, the filter keeps exactly the snapshots whose owner equals
    some entry up to letter case. *)
Theorem filter_matches_lower_case_list (users : list string)
  (snapshots : list Snapshot.t) :
  users <> [] ->
  Forall (fun u => JSString.toLowerCase u = u) users ->
  KHype.filterSnapshots users snapshots
  = filter (fun s => existsb (Stated.matchesOwner (Snapshot.owner s)) users)
      snapshots.
Proof.
  intros Hne Hlow.
  rewrite (filterSnapshots_lower_case users snapshots Hne Hlow).
  destruct users; [contradiction | reflexivity].
Qed.

Lemma filter_matches_lower_case_list_witness :
  let snapshots :=
    [ Sample.bare "0x06253F963C242F3AC57201FF8298D7E5DF3E8C4C" Sample.pool None;
      Sample.bare "0x0000000000000000000000000000000000000001" Sample.pool None ]
  in
  KHype.filterSnapshots KHype.FILTER_USERS snapshots
  = filter
      (fun s =>
         existsb (Stated.matchesOwner (Snapshot.owner s)) KHype.FILTER_USERS)
      snapshots.
Proof.
  apply filter_matches_lower_case_list.
  - discriminate.
  - repeat constructor.
Defined.

(** ** The formatter, continued *)

(** X7: a text that is not empty and that [parseFloat] cannot read is
    printed as "NaN". *)
Theorem unparseable_amount_prints_NaN (s : string) :
  s <> EmptyString ->
  JSNumber.parseFloat s = JSNumber.NaN ->
  Format.formatTokenAmount (Some s) = "NaN"%string.
Proof.
  intros Hne Hnan.
  assert (He : String.eqb s "" = false) by now apply String.eqb_neq.
  assert (Hz : String.eqb s "0" = false).
  { apply String.eqb_neq. intros ->. discriminate Hnan. }
  rewrite (formatTokenAmount_parsed s He Hz). cbv zeta. rewrite Hnan.
  reflexivity.
Qed.

Lemma unparseable_amount_prints_NaN_witness :
  Format.formatTokenAmount (Some "n/a"%string) = "NaN"%string.
Proof.
  apply unparseable_amount_prints_NaN.
  - discriminate.
  - reflexivity.
Defined.

Lemma SFcompare_negated (m1 m2 : positive) (e1 e2 : Z) :
  SFcompare (S754_finite true m1 e1) (S754_finite true m2 e2)
  = SFcompare (S754_finite false m2 e2) (S754_finite false m1 e1).
Proof.
  simpl. rewrite (Z.compare_antisym e1 e2).
  pose proof (Pos.compare_cont_antisym m1 m2 Eq) as Hm. simpl in Hm.
  destruct (e1 ?= e2); simpl; try reflexivity. now rewrite Hm.
Qed.

(** X8: a negative amount above [-10^21], whatever its magnitude, is
    printed with twelve decimal places, a net position below zero for
    instance. *)
Theorem negative_amount_has_twelve_places (a : option string) :
  let v := Format.parseFloatValue a in
  JSNumber.lt v JSNumber.zero = true ->
  JSNumber.lt (SFopp JSNumber.ten21) v = true ->
  Format.decimalPlaces (Format.formatTokenAmount a) = Some 12%nat.
Proof.
  cbv zeta. rewrite ten21_eq. intros Hneg Hlow.
  destruct a as [s |]; [| discriminate Hneg].
  destruct (String.eqb s "") eqn:He.
  { apply String.eqb_eq in He. subst s. discriminate Hneg. }
  destruct (String.eqb s "0") eqn:Hz.
  { apply String.eqb_eq in Hz. subst s. discriminate Hneg. }
  rewrite (formatTokenAmount_parsed s He Hz). cbv zeta.
  unfold Format.parseFloatValue in *.
  destruct (JSNumber.parseFloat s) as [sg | sg | | sg m e].
  - destruct sg; discriminate Hneg.
  - destruct sg; [discriminate Hlow | discriminate Hneg].
  - discriminate Hneg.
  - destruct sg; [| discriminate Hneg].
    rewrite finite_not_zero, negative_not_ge_one.
    apply toFixed_places, lt_not_ge. rewrite ten21_eq.
    unfold JSNumber.lt, SFltb in *. simpl SFopp in Hlow.
    now rewrite SFcompare_negated in Hlow.
Qed.

Lemma negative_amount_has_twelve_places_witness :
  Format.decimalPlaces (Format.formatTokenAmount (Some "-2.5"%string))
  = Some 12%nat.
Proof.
  apply (negative_amount_has_twelve_places (Some "-2.5"%string));
    vm_compute; reflexivity.
Defined.

(** ** The totals of a position, continued *)

Lemma currentLiquidity_later (l : list Snapshot.t) :
  forall (a : nat) (t : Report.Totals),
    (0 < a)%nat ->
    Report.currentLiquidity
      (fold_left Report.accumulate (combine (seq a (List.length l)) l) t)
    = Report.currentLiquidity t.
Proof.
  induction l as [| s l IH]; intros a t Ha; [reflexivity |].
  cbn [List.length seq combine fold_left].
  rewrite IH by lia. unfold Report.accumulate.
  cbn [Report.currentLiquidity].
  destruct a; [lia | reflexivity].
Qed.

(** X9: the current liquidity of a position is the liquidity of the
    first snapshot of its group (the most recent one, as snapshots arrive by
    descending timestamp), read as zero when the field is absent. *)
Theorem current_liquidity_is_first_snapshot (s : Snapshot.t)
  (l : list Snapshot.t) :
  Report.currentLiquidity (Report.positionTotals (s :: l))
  = Format.parseFloatOrZero (Snapshot.liquidity s).
Proof.
  unfold Report.positionTotals, Console.indexed.
  cbn [List.length seq combine fold_left].
  rewrite currentLiquidity_later by lia. reflexivity.
Qed.

(** ** Comparing Numbers *)

Section OrderFacts.
Import JSNumber NumberOrder.

Lemma lt_below (x y : Number) :
  lt x y = true <-> isNaN x = false /\ isNaN y = false /\ below x y.
Proof.
  unfold lt, SFltb, below.
  destruct x as [sx | sx | | sx mx ex], y as [sy | sy | | sy my ey];
    try destruct sx; try destruct sy; cbn [SFcompare isNaN rank1 rank2 rank3];
    try change (Pos.compare_cont Eq mx my) with (mx ?= my)%positive;
    try (destruct (Z.compare_spec ex ey) as [Hc | Hc | Hc];
         destruct (Pos.compare_spec mx my) as [Hd | Hd | Hd]; cbn [CompOpp]);
    (split;
     [ intros Hlt; try discriminate Hlt; repeat split; lia
     | intros (Hx & Hy & Hb); try discriminate Hx; try discriminate Hy;
       try reflexivity; exfalso; lia ]).
Qed.

Lemma gt_false_iff (x y : Number) :
  isNaN x = false -> isNaN y = false ->
  gt x y = false <-> ~ below y x.
Proof.
  intros Hx Hy. unfold gt. fold (lt y x).
  destruct (lt y x) eqn:E.
  - apply lt_below in E as (_ & _ & H). split; [discriminate | tauto].
  - split; [| reflexivity]. intros _ H.
    assert (lt y x = true) by (apply lt_below; auto). congruence.
Qed.

Lemma gt_NaN_left (y : Number) : gt S754_nan y = false.
Proof. unfold gt, SFltb. destruct y; reflexivity. Qed.

Lemma runningMax_bounds (xs : list Number) :
  forall M,
    isNaN M = false ->
    let M' := fold_left runningMax xs M in
    isNaN M' = false
    /\ ~ below M' M
    /\ (M' = M \/ In M' xs)
    /\ Forall (fun x => gt x M' = false) xs.
Proof.
  induction xs as [| x xs IH]; intros M HM; cbv zeta; cbn [fold_left].
  - repeat split; auto. unfold below. lia.
  - assert (H1 : isNaN (runningMax M x) = false).
    { unfold runningMax. destruct (gt x M) eqn:E; [| exact HM].
      destruct x; try reflexivity. now rewrite gt_NaN_left in E. }
    destruct (IH (runningMax M x) H1) as (Hn & Hmono & Hin & Hall).
    cbv zeta in *.
    set (M' := fold_left runningMax xs (runningMax M x)) in *.
    assert (Hstep : ~ below (runningMax M x) M
                    /\ (isNaN x = false -> ~ below (runningMax M x) x)).
    { unfold runningMax. destruct (gt x M) eqn:E.
      - unfold gt in E. fold (lt M x) in E.
        apply lt_below in E as (_ & Hx & Hb).
        unfold below in *. split; [lia | intros _; lia].
      - split; [unfold below; lia |]. intros Hx.
        now apply (gt_false_iff x M Hx HM). }
    destruct Hstep as [Hs1 Hs2].
    repeat split.
    + exact Hn.
    + unfold below in *. lia.
    + destruct Hin as [-> | Hin]; [| right; now right].
      unfold runningMax. destruct (gt x M); [right; now left | now left].
    + constructor; [| exact Hall].
      destruct (isNaN x) eqn:Hx.
      * destruct x; try discriminate. apply gt_NaN_left.
      * apply (gt_false_iff x M' Hx Hn). specialize (Hs2 eq_refl).
        unfold below in *. lia.
Qed.

End OrderFacts.

Lemma maxLiquidity_fold (l : list Snapshot.t) :
  forall (a : nat) (t : Report.Totals),
    Report.maxLiquidity
      (fold_left Report.accumulate (combine (seq a (List.length l)) l) t)
    = fold_left NumberOrder.runningMax (Report.amounts Snapshot.liquidity l)
        (Report.maxLiquidity t).
Proof.
  induction l as [| s l IH]; intros a t; [reflexivity |].
  cbn [List.length seq combine fold_left Report.amounts map].
  now rewrite IH.
Qed.

(** X10: the peak liquidity of a position is zero or the liquidity of one
    of its snapshots, and the liquidity of no snapshot exceeds it. *)
Theorem peak_liquidity_bounds (positionSnapshots : list Snapshot.t) :
  let peak := Report.maxLiquidity (Report.positionTotals positionSnapshots) in
  (peak = JSNumber.zero
   \/ In peak (Report.amounts Snapshot.liquidity positionSnapshots))
  /\ Forall
       (fun s =>
          JSNumber.gt (Format.parseFloatOrZero (Snapshot.liquidity s)) peak
          = false)
       positionSnapshots.
Proof.
  cbv zeta. unfold Report.positionTotals, Console.indexed.
  rewrite maxLiquidity_fold.
  destruct (runningMax_bounds
              (Report.amounts Snapshot.liquidity positionSnapshots)
              JSNumber.zero eq_refl) as (_ & _ & Hin & Hall).
  cbv zeta in *. split; [exact Hin |].
  unfold Report.amounts in Hall. rewrite Forall_map in Hall. exact Hall.
Qed.

(** ** The position report *)

(** X11: when no snapshot has a position id, the position report consists
    of its heading and the notice that no position was found. *)
Theorem no_position_ids_notice (snapshots : list Snapshot.t) :
  Report.withPositionId snapshots = [] ->
  Report.displayPositionTransactions snapshots
  = ([ Console.Log "=== TRANSACTIONS BY POSITION ID ===" [];
       Console.Log "No positions found with valid position IDs" [] ],
     inr tt).
Proof.
  intros Hnone. unfold Report.displayPositionTransactions.
  rewrite groupByPosition_cases, Hnone. reflexivity.
Qed.

Lemma no_position_ids_notice_witness :
  Report.displayPositionTransactions
    [Sample.bare "0xa" Sample.pool None;
     Sample.bare "0xb" Sample.pool (Some (Position.mk None None None))]
  = ([ Console.Log "=== TRANSACTIONS BY POSITION ID ===" [];
       Console.Log "No positions found with valid position IDs" [] ],
     inr tt).
Proof. apply no_position_ids_notice. reflexivity. Defined.

(** X12: the position named as the most active one, the first after
    sorting, has at least as many snapshots as every other position. *)
Theorem most_active_position_is_maximal
  (snapshotsByPosition : JSObject.t Snapshot.t)
  (first : string * list Snapshot.t)
  (others : list (string * list Snapshot.t)) :
  Report.sortPositions snapshotsByPosition = first :: others ->
  Forall
    (fun g => (List.length (snd g) <= List.length (snd first))%nat)
    snapshotsByPosition.
Proof.
  intros Hsorted.
  pose proof (sort_sorted Stated.activity
                (JSObject.entries snapshotsByPosition)) as Hs.
  pose proof (sort_perm Stated.activity
                (JSObject.entries snapshotsByPosition)) as Hp.
  change (JSArray.sort (JSArray.descending Stated.activity)
            (JSObject.entries snapshotsByPosition))
    with (Report.sortPositions snapshotsByPosition) in Hs, Hp.
  rewrite Hsorted in Hs, Hp.
  apply StronglySorted_inv in Hs as [_ Hall].
  apply Forall_forall. intros g Hg.
  apply (Permutation_in _ (Permutation_sym (entries_perm _))) in Hg.
  apply (Permutation_in _ (Permutation_sym Hp)) in Hg as [<- | Hg].
  - lia.
  - rewrite Forall_forall in Hall. now apply Hall.
Qed.

Lemma most_active_position_is_maximal_witness :
  Forall
    (fun g => (List.length (snd g) <= 2)%nat)
    [ ("0xa"%string, [Sample.quiet]);
      ("0xb"%string, [Sample.quiet; Sample.deposit]) ].
Proof.
  apply (most_active_position_is_maximal
           [ ("0xa"%string, [Sample.quiet]);
             ("0xb"%string, [Sample.quiet; Sample.deposit]) ]
           ("0xb"%string, [Sample.quiet; Sample.deposit])
           [("0xa"%string, [Sample.quiet])]).
  reflexivity.
Defined.

(** ** Counting printed lines *)

Section CountFacts.
Import Console.

Lemma countText_app (t : string) (a b : list Line) :
  countText t (a ++ b) = (countText t a + countText t b)%nat.
Proof. unfold countText. now rewrite filter_app, length_app. Qed.

Lemma countText_flat_map {A} (t : string) (g : A -> list Line) (l : list A) :
  countText t (flat_map g l) = list_sum (map (fun x => countText t (g x)) l).
Proof.
  induction l as [| x l IH]; simpl; [reflexivity |].
  now rewrite countText_app, IH.
Qed.

(** A loop whose rounds all return prints as many lines of a text as
    its rounds do together. *)
Lemma forEach_count {A} (t : string) (f : A -> Run unit) (l : list A) :
  (forall x, In x l -> outcome (f x) = inr tt) ->
  outcome (forEach f l) = inr tt
  /\ countText t (output (forEach f l))
     = list_sum (map (fun x => countText t (output (f x))) l).
Proof.
  intros H. destruct (forEach_returns f l H) as [Ho Hr].
  split; [exact Hr |]. rewrite Ho. apply countText_flat_map.
Qed.

Lemma list_sum_ext_in {A} (f g : A -> nat) (l : list A) :
  (forall x, In x l -> f x = g x) ->
  list_sum (map f l) = list_sum (map g l).
Proof.
  intros H. f_equal. now apply map_ext_in.
Qed.

Lemma list_sum_ones {A} (l : list A) :
  list_sum (map (fun _ => 1%nat) l) = List.length l.
Proof. induction l; simpl; auto. Qed.

Lemma list_sum_lengths {A B} (h : A -> list B) (l : list A) :
  list_sum (map (fun x => List.length (h x)) l)
  = List.length (flat_map h l).
Proof.
  induction l as [| x l IH]; simpl; [reflexivity |].
  now rewrite length_app, IH.
Qed.

Lemma In_indexed {A} (l : list A) (e : nat * A) :
  In e (indexed l) -> In (snd e) l.
Proof.
  destruct e as [i x]. unfold indexed. intros H.
  now apply in_combine_r in H.
Qed.

End CountFacts.

(** ** Every snapshot is printed once *)

Section PrintFacts.
Import Console KHype.

Lemma forallb_perm {B} (P : B -> bool) (l l' : list B) :
  Permutation l l' -> forallb P l = forallb P l'.
Proof.
  induction 1 as [| x l l' _ IH | x y l | l l' l'' _ IH1 _ IH2];
    cbn [forallb]; [reflexivity | now rewrite IH | | congruence].
  now rewrite !andb_assoc, (andb_comm (P y)).
Qed.

Lemma forallb_flat_map {B C} (P : C -> bool) (h : B -> list C) (l : list B) :
  forallb P (flat_map h l) = forallb (fun x => forallb P (h x)) l.
Proof.
  induction l as [| x l IH]; [reflexivity |].
  cbn [flat_map forallb]. now rewrite forallb_app, IH.
Qed.

(** The groups of a partition satisfy a test together exactly when
    the elements of the list do. *)
Lemma forallb_groups (P : Snapshot.t -> bool) (key : Snapshot.t -> string)
  (l : list Snapshot.t) :
  forallb (fun g => forallb P (snd g))
    (JSObject.entries (Grouping.grouped key l))
  = forallb P l.
Proof.
  rewrite <- (forallb_flat_map P snd).
  apply forallb_perm.
  rewrite (Permutation_flat_map snd (entries_perm _)).
  apply grouped_partition.
Qed.

Lemma snapshotBlock_dated (pool : Pool.t) (entry : nat * Snapshot.t) :
  Stated.validDate (snd entry) = true ->
  outcome (snapshotBlock pool entry) = inr tt
  /\ countText "Snapshot" (output (snapshotBlock pool entry)) = 1%nat
  /\ countText "Pool" (output (snapshotBlock pool entry)) = 0%nat.
Proof.
  destruct entry as [index snapshot]. unfold Stated.validDate. cbn [snd].
  intros Hvalid. unfold snapshotBlock, Report.when.
  rewrite (toISOString_valid _ Hvalid).
  destruct (Snapshot.hasPositionId snapshot); repeat split.
Qed.

Lemma snapshotBlock_outcome (pool : Pool.t) (entry : nat * Snapshot.t) :
  outcome (snapshotBlock pool entry)
  = if Stated.validDate (snd entry)
    then inr tt else inl (RangeError "Invalid time value").
Proof.
  destruct (Stated.validDate (snd entry)) eqn:Hvalid.
  - now apply snapshotBlock_dated.
  - destruct entry as [index snapshot]. unfold Stated.validDate in Hvalid.
    cbn [snd] in Hvalid. unfold snapshotBlock.
    now rewrite (toISOString_invalid _ Hvalid).
Qed.

Lemma userBlock_outcome (pool : Pool.t) (entry : string * list Snapshot.t) :
  outcome (userBlock pool entry)
  = if forallb Stated.validDate (snd entry)
    then inr tt else inl (RangeError "Invalid time value").
Proof.
  destruct entry as [owner userSnapshots]. unfold userBlock. cbn [snd].
  pose proof (forEach_outcome (snapshotBlock pool)
                (fun e => Stated.validDate (snd e))
                (RangeError "Invalid time value") (indexed userSnapshots)
                (fun e _ => snapshotBlock_outcome pool e)) as H.
  rewrite forallb_indexed in H.
  unfold bind, log. cbn [fst snd app].
  destruct (forEach (snapshotBlock pool) (indexed userSnapshots)) as [out r].
  exact H.
Qed.

Lemma userBlock_count (pool : Pool.t) (entry : string * list Snapshot.t) :
  forallb Stated.validDate (snd entry) = true ->
  countText "Snapshot" (output (userBlock pool entry))
  = List.length (snd entry)
  /\ countText "Pool" (output (userBlock pool entry)) = 0%nat.
Proof.
  destruct entry as [owner userSnapshots]. cbn [snd]. intros Hvalid.
  unfold userBlock.
  assert (Hdated : forall e, In e (indexed userSnapshots) ->
                             Stated.validDate (snd e) = true).
  { intros e He. apply In_indexed in He.
    rewrite forallb_forall in Hvalid. now apply Hvalid. }
  assert (Hall : forall e, In e (indexed userSnapshots) ->
                           outcome (snapshotBlock pool e) = inr tt)
    by (intros e He; now apply snapshotBlock_dated, Hdated).
  destruct (forEach_count "Snapshot" (snapshotBlock pool)
              (indexed userSnapshots) Hall) as [Hr Hs].
  destruct (forEach_count "Pool" (snapshotBlock pool)
              (indexed userSnapshots) Hall) as [_ Hp].
  rewrite (list_sum_ext_in _ (fun _ => 1%nat)) in Hs
    by (intros e He; now apply snapshotBlock_dated, Hdated).
  rewrite (list_sum_ext_in _ (fun _ => 0%nat)) in Hp
    by (intros e He; now apply snapshotBlock_dated, Hdated).
  rewrite list_sum_ones, length_indexed in Hs.
  assert (Hzero : forall n, list_sum (map (fun _ : nat * Snapshot.t => 0%nat) n) = 0%nat)
    by (induction n; simpl; auto).
  rewrite Hzero in Hp.
  unfold bind, log. cbn [fst snd app].
  destruct (forEach (snapshotBlock pool) (indexed userSnapshots))
    as [out r]. cbn [outcome output fst snd] in *. subst r.
  split.
  - change (countText "Snapshot" out = List.length userSnapshots). exact Hs.
  - change (countText "Pool" out = 0%nat). exact Hp.
Qed.

Lemma poolBlock_outcome (poolId : string) (poolSnapshots : list Snapshot.t) :
  poolSnapshots <> [] ->
  (forall s, In s poolSnapshots ->
             JSObject.inherited (Snapshot.owner s) = false) ->
  outcome (poolBlock (poolId, poolSnapshots))
  = if forallb Stated.validDate poolSnapshots
    then inr tt else inl (RangeError "Invalid time value").
Proof.
  intros Hne Hown. unfold poolBlock.
  destruct poolSnapshots as [| first rest] eqn:Hg; [contradiction |].
  rewrite <- Hg in *. clear Hne.
  unfold Report.groupByUser.
  rewrite (groupBy_grouped Snapshot.owner poolSnapshots Hown).
  set (pool := Snapshot.pool first).
  pose proof (forEach_outcome (userBlock pool)
                (fun g => forallb Stated.validDate (snd g))
                (RangeError "Invalid time value")
                (JSObject.entries
                   (Grouping.grouped Snapshot.owner poolSnapshots))
                (fun g _ => userBlock_outcome pool g)) as H.
  rewrite forallb_groups in H.
  unfold bind, log, lift. cbn [fst snd app].
  destruct (forEach (userBlock pool)
              (JSObject.entries
                 (Grouping.grouped Snapshot.owner poolSnapshots)))
    as [out r].
  exact H.
Qed.

Lemma poolBlock_count (poolId : string) (poolSnapshots : list Snapshot.t) :
  poolSnapshots <> [] ->
  (forall s, In s poolSnapshots ->
             JSObject.inherited (Snapshot.owner s) = false) ->
  forallb Stated.validDate poolSnapshots = true ->
  countText "Snapshot" (output (poolBlock (poolId, poolSnapshots)))
  = List.length poolSnapshots
  /\ countText "Pool" (output (poolBlock (poolId, poolSnapshots))) = 1%nat.
Proof.
  intros Hne Hown Hvalid. unfold poolBlock.
  destruct poolSnapshots as [| first rest] eqn:Hg; [contradiction |].
  rewrite <- Hg in *. clear Hne.
  unfold Report.groupByUser.
  rewrite (groupBy_grouped Snapshot.owner poolSnapshots Hown).
  set (pool := Snapshot.pool first).
  set (byUser := Grouping.grouped Snapshot.owner poolSnapshots).
  assert (Hdated : forall e, In e (JSObject.entries byUser) ->
                             forallb Stated.validDate (snd e) = true).
  { pose proof (forallb_groups Stated.validDate Snapshot.owner poolSnapshots)
      as H. fold byUser in H. rewrite Hvalid in H.
    intros e He. rewrite forallb_forall in H. now apply H. }
  assert (Hall : forall e, In e (JSObject.entries byUser) ->
                           outcome (userBlock pool e) = inr tt).
  { intros e He. rewrite userBlock_outcome. now rewrite Hdated. }
  destruct (forEach_count "Snapshot" (userBlock pool)
              (JSObject.entries byUser) Hall) as [Hr Hs].
  destruct (forEach_count "Pool" (userBlock pool)
              (JSObject.entries byUser) Hall) as [_ Hp].
  rewrite (list_sum_ext_in _ (fun e => List.length (snd e))) in Hs
    by (intros e He; now apply userBlock_count, Hdated).
  rewrite (list_sum_ext_in _ (fun _ => 0%nat)) in Hp
    by (intros e He; now apply userBlock_count, Hdated).
  rewrite list_sum_lengths in Hs.
  rewrite (Permutation_length
             (Permutation_flat_map snd (entries_perm byUser))) in Hs.
  assert (Hlen : List.length (flat_map snd byUser)
                 = List.length poolSnapshots)
    by apply Permutation_length, grouped_partition.
  rewrite Hlen in Hs.
  assert (Hzero : forall n, list_sum (map (fun _ : string * list Snapshot.t => 0%nat) n) = 0%nat)
    by (induction n; simpl; auto).
  rewrite Hzero in Hp.
  unfold bind, log, lift. cbn [fst snd app].
  destruct (forEach (userBlock pool) (JSObject.entries byUser)) as [out r].
  cbn [outcome output fst snd] in *. subst r.
  split.
  - change (countText "Snapshot" out = List.length poolSnapshots). exact Hs.
  - change (S (countText "Pool" out) = 1%nat). now rewrite Hp.
Qed.

End PrintFacts.

Section ReportFacts.
Import Console.

Lemma plainKeys_all (snapshots : list Snapshot.t) :
  forallb Stated.plainKeys snapshots = true ->
  forall s, In s snapshots ->
            JSObject.inherited (Report.poolId s) = false
            /\ JSObject.inherited (Snapshot.owner s) = false.
Proof.
  intros Hplain s Hs. rewrite forallb_forall in Hplain.
  specialize (Hplain s Hs). unfold Stated.plainKeys in Hplain.
  apply andb_true_iff in Hplain as [H1 H2].
  now rewrite negb_true_iff in H1, H2.
Qed.

(** The groups by pool, under keys that are not inherited names: none is
    empty and each holds snapshots of the input. *)
Lemma pool_groups (snapshots : list Snapshot.t) (e : string * list Snapshot.t) :
  In e (JSObject.entries (Grouping.grouped Report.poolId snapshots)) ->
  snd e <> [] /\ (forall s, In s (snd e) -> In s snapshots).
Proof.
  destruct e as [p g]. intros Hin.
  apply (Permutation_in _ (entries_perm _)) in Hin.
  apply grouped_In in Hin as [Hp Hfilter]. cbn [snd]. split.
  - apply in_map_iff in Hp as (s & Hs & Hin). intros Hnil.
    assert (In s g) as Habs.
    { rewrite Hfilter. apply filter_In. split; [exact Hin |].
      unfold Grouping.hasKey. rewrite Hs. apply String.eqb_refl. }
    rewrite Hnil in Habs. exact Habs.
  - intros s Hs. rewrite Hfilter in Hs. now apply filter_In in Hs.
Qed.

(** The report by pool and user returns exactly when every date is
    valid, and throws a RangeError otherwise. *)
Lemma displayAllPositionSnapshots_outcome (snapshots : list Snapshot.t) :
  forallb Stated.plainKeys snapshots = true ->
  outcome (KHype.displayAllPositionSnapshots snapshots)
  = if forallb Stated.validDate snapshots
    then inr tt else inl (RangeError "Invalid time value").
Proof.
  intros Hplain. pose proof (plainKeys_all snapshots Hplain) as Hall.
  unfold KHype.displayAllPositionSnapshots.
  destruct snapshots as [| s0 rest] eqn:Hsn; [reflexivity |].
  rewrite <- Hsn in *.
  assert (Hlen : (List.length snapshots =? 0)%nat = false)
    by (rewrite Hsn; reflexivity).
  rewrite Hlen. unfold Report.groupByPool.
  rewrite (groupBy_grouped Report.poolId snapshots)
    by (intros s Hs; now apply Hall).
  set (byPool := Grouping.grouped Report.poolId snapshots).
  assert (H : outcome (forEach KHype.poolBlock (JSObject.entries byPool))
              = if forallb (fun g => forallb Stated.validDate (snd g))
                     (JSObject.entries byPool)
                then inr tt else inl (RangeError "Invalid time value")).
  { apply forEach_outcome. intros [p g] Hin.
    destruct (pool_groups snapshots (p, g) Hin) as [Hne Hsub].
    apply poolBlock_outcome; [exact Hne |].
    intros s Hs. now apply Hall, Hsub. }
  unfold byPool in H at 2. rewrite forallb_groups in H.
  unfold KHype.summary, bind, log, lift. cbn [fst snd app].
  destruct (forEach KHype.poolBlock (JSObject.entries byPool)) as [out r].
  cbn [outcome snd] in H. subst r.
  now destruct (forallb Stated.validDate snapshots).
Qed.

(** The report by pool and user, counted. *)
Lemma displayAllPositionSnapshots_counts (snapshots : list Snapshot.t) :
  forallb Stated.plainKeys snapshots = true ->
  forallb Stated.validDate snapshots = true ->
  let run := KHype.displayAllPositionSnapshots snapshots in
  countText "Snapshot" (output run) = List.length snapshots
  /\ countText "Pool" (output run)
     = List.length (Grouping.firstOccurrences (map Report.poolId snapshots)).
Proof.
  intros Hplain Hvalid. cbv zeta.
  pose proof (plainKeys_all snapshots Hplain) as Hall.
  unfold KHype.displayAllPositionSnapshots.
  destruct snapshots as [| s0 rest] eqn:Hsn; [repeat split |].
  rewrite <- Hsn in *.
  assert (Hlen : (List.length snapshots =? 0)%nat = false)
    by (rewrite Hsn; reflexivity).
  rewrite Hlen. unfold Report.groupByPool.
  rewrite (groupBy_grouped Report.poolId snapshots)
    by (intros s Hs; now apply Hall).
  set (byPool := Grouping.grouped Report.poolId snapshots).
  assert (Hdated : forall e, In e (JSObject.entries byPool) ->
                             forallb Stated.validDate (snd e) = true).
  { pose proof (forallb_groups Stated.validDate Report.poolId snapshots) as H.
    fold byPool in H. rewrite Hvalid in H.
    intros e He. rewrite forallb_forall in H. now apply H. }
  assert (Hblocks : forall e, In e (JSObject.entries byPool) ->
            outcome (KHype.poolBlock e) = inr tt
            /\ countText "Snapshot" (output (KHype.poolBlock e))
               = List.length (snd e)
            /\ countText "Pool" (output (KHype.poolBlock e)) = 1%nat).
  { intros [p g] Hin.
    destruct (pool_groups snapshots (p, g) Hin) as [Hne Hsub].
    assert (Hown : forall s, In s g ->
                             JSObject.inherited (Snapshot.owner s) = false)
      by (intros s Hs; now apply Hall, Hsub).
    pose proof (Hdated (p, g) Hin) as Hd. cbn [snd] in Hd.
    split.
    - now rewrite (poolBlock_outcome p g Hne Hown), Hd.
    - apply (poolBlock_count p g Hne Hown Hd). }
  destruct (forEach_count "Snapshot" KHype.poolBlock (JSObject.entries byPool))
    as [Hr Hs]; [intros e He; now apply Hblocks |].
  destruct (forEach_count "Pool" KHype.poolBlock (JSObject.entries byPool))
    as [_ Hp]; [intros e He; now apply Hblocks |].
  rewrite (list_sum_ext_in _ (fun e => List.length (snd e))) in Hs
    by (intros e He; now apply Hblocks).
  rewrite (list_sum_ext_in _ (fun _ => 1%nat)) in Hp
    by (intros e He; now apply Hblocks).
  rewrite list_sum_lengths in Hs. rewrite list_sum_ones in Hp.
  rewrite (Permutation_length
             (Permutation_flat_map snd (entries_perm byPool))) in Hs.
  assert (Hlen1 : List.length (flat_map snd byPool) = List.length snapshots)
    by apply Permutation_length, grouped_partition.
  rewrite Hlen1 in Hs.
  rewrite (Permutation_length (entries_perm byPool)) in Hp.
  assert (Hlen2 : List.length byPool
                  = List.length
                      (Grouping.firstOccurrences (map Report.poolId snapshots)))
    by apply length_map.
  rewrite Hlen2 in Hp.
  unfold KHype.summary, bind, log, lift.
  cbn [fst snd app].
  destruct (forEach KHype.poolBlock (JSObject.entries byPool))
    as [out r].
  cbn [outcome output fst snd] in *. subst r.
  split.
  - cbn [output fst].
    match goal with
    | |- countText ?t (?h :: out ++ ?tl) = _ =>
        change (countText t ([h] ++ out ++ tl) = List.length snapshots)
    end.
    rewrite !countText_app, Hs.
    repeat match goal with
           | |- context [countText ?t (?h :: ?tl)] =>
               let v := eval lazy in (countText t (h :: tl)) in
               change (countText t (h :: tl)) with v
           end.
    lia.
  - cbn [output fst].
    match goal with
    | |- countText ?t (?h :: out ++ ?tl) = ?n =>
        change (countText t ([h] ++ out ++ tl) = n)
    end.
    rewrite !countText_app, Hp.
    repeat match goal with
           | |- context [countText ?t (?h :: ?tl)] =>
               let v := eval lazy in (countText t (h :: tl)) in
               change (countText t (h :: tl)) with v
           end.
    lia.
Qed.

End ReportFacts.

(** X13: provided no pool id and no owner names an inherited property and
    the date of every snapshot is valid, the report by pool and user returns
    normally and prints every snapshot exactly once and one heading per
    distinct pool. *)
Theorem every_snapshot_is_printed_once (snapshots : list Snapshot.t) :
  forallb Stated.plainKeys snapshots = true ->
  forallb Stated.validDate snapshots = true ->
  let run := KHype.displayAllPositionSnapshots snapshots in
  Console.outcome run = inr tt
  /\ countText "Snapshot" (Console.output run) = List.length snapshots
  /\ countText "Pool" (Console.output run)
     = List.length (Grouping.firstOccurrences (map Report.poolId snapshots)).
Proof.
  intros Hplain Hvalid. cbv zeta. split.
  - now rewrite displayAllPositionSnapshots_outcome, Hvalid.
  - now apply displayAllPositionSnapshots_counts.
Qed.

Lemma every_snapshot_is_printed_once_witness :
  let snapshots :=
    [ Sample.bare "0xa" (Sample.poolWith "0x1") None;
      Sample.bare "0xb" (Sample.poolWith "0x2") None;
      Sample.bare "0xa" (Sample.poolWith "0x1") None ] in
  let run := KHype.displayAllPositionSnapshots snapshots in
  Console.outcome run = inr tt
  /\ countText "Snapshot" (Console.output run) = List.length snapshots
  /\ countText "Pool" (Console.output run)
     = List.length (Grouping.firstOccurrences (map Report.poolId snapshots)).
Proof.
  apply every_snapshot_is_printed_once; reflexivity.
Defined.

(** X22: a snapshot whose date is not valid stops the report by pool and
    user with a RangeError, wherever it stands, when no pool id and no owner
    names an inherited property. *)
Theorem report_stops_at_invalid_date (snapshots : list Snapshot.t) :
  forallb Stated.plainKeys snapshots = true ->
  forallb Stated.validDate snapshots = false ->
  Console.outcome (KHype.displayAllPositionSnapshots snapshots)
  = inl (RangeError "Invalid time value").
Proof.
  intros Hplain Hvalid.
  now rewrite displayAllPositionSnapshots_outcome, Hvalid.
Qed.

Lemma report_stops_at_invalid_date_witness :
  Console.outcome
    (KHype.displayAllPositionSnapshots
       [ Sample.bare "0xa" (Sample.poolWith "0x1") None;
         Sample.undated;
         Sample.bare "0xa" (Sample.poolWith "0x1") None ])
  = inl (RangeError "Invalid time value").
Proof.
  apply report_stops_at_invalid_date; reflexivity.
Defined.

(** ** The lines of the position report *)

Section BlockFacts.
Import Console Report.

Lemma flat_map_ext_in' {A B} (f g : A -> list B) (l : list A) :
  (forall x, In x l -> f x = g x) -> flat_map f l = flat_map g l.
Proof.
  induction l as [| x l IH]; intros H; simpl; [reflexivity |].
  rewrite (H x (or_introl eq_refl)), IH; [reflexivity |].
  intros y Hy. apply H. now right.
Qed.

Lemma filter_cons_log (t t' : string) (args : list Arg) (l : list Line) :
  filter (hasText t) (Log t' args :: l)
  = if String.eqb t t' then Log t' args :: filter (hasText t) l
    else filter (hasText t) l.
Proof. reflexivity. Qed.

Lemma In_firstn {A} (n : nat) (l : list A) (x : A) :
  In x (firstn n l) -> In x l.
Proof.
  revert l. induction n as [| n IH]; intros l Hx; [contradiction |].
  destruct l as [| y l]; [contradiction |].
  cbn [firstn] in Hx. destruct Hx as [<- | Hx]; [now left |].
  right. now apply IH.
Qed.

(** What holds of all snapshots holds of the first events of the
    timeline of any of them. *)
Lemma forallb_shown (P : Snapshot.t -> bool) (n : nat)
  (positionSnapshots : list Snapshot.t) :
  (forall s, In s positionSnapshots -> P s = true) ->
  forallb P (firstn n (significantSnapshots positionSnapshots)) = true.
Proof.
  intros H. apply forallb_forall. intros s Hs.
  apply In_firstn in Hs. unfold significantSnapshots in Hs.
  apply filter_In in Hs as [Hs _]. now apply H.
Qed.

End BlockFacts.

(** Decides which of the leading lines of a printed list carry a text;
    only the comparison of the two texts is evaluated. *)
Ltac filter_logs :=
  repeat (rewrite filter_cons_log;
          match goal with
          | |- context [String.eqb ?a ?b] =>
              let v := eval vm_compute in (String.eqb a b) in
              change (String.eqb a b) with v
          end;
          cbv iota).

Section BlockFacts2.
Import Console Report.

(** The block of one position whose timeline has valid dates: it
    returns, and names the position once. *)
Lemma positionBlock_heading (positionId : string)
  (positionSnapshots : list Snapshot.t) :
  positionSnapshots <> [] ->
  forallb Stated.validDate
    (firstn 5 (significantSnapshots positionSnapshots)) = true ->
  outcome (positionBlock (positionId, positionSnapshots)) = inr tt
  /\ filter (hasText "Position ID")
       (output (positionBlock (positionId, positionSnapshots)))
     = [Log "Position ID" [AStr positionId]].
Proof.
  intros Hne Hvalid. unfold positionBlock.
  destruct positionSnapshots as [| firstSnapshot rest] eqn:Hg;
    [contradiction |].
  rewrite <- Hg in *. clear Hne.
  destruct (timeline_lines (Snapshot.pool firstSnapshot) positionSnapshots)
    as (Hr & _ & _ & Hnone).
  cbv zeta in Hr, Hnone. rewrite Hvalid in Hr.
  unfold bind, log. cbn [fst snd app].
  destruct (timeline (Snapshot.pool firstSnapshot) positionSnapshots)
    as [out r]. cbn [outcome output fst snd] in *. subst r.
  split; [reflexivity |].
  filter_logs. now rewrite Hnone.
Qed.

End BlockFacts2.

(** X14: when the grouping by position ends normally and the date of
    every snapshot is valid, the position report returns normally and names
    every position exactly once, in the sorted order (most active first). *)
Theorem position_report_names_each_position (snapshots : list Snapshot.t)
  (snapshotsByPosition : JSObject.t Snapshot.t) :
  Report.groupByPosition snapshots = inr snapshotsByPosition ->
  forallb Stated.validDate snapshots = true ->
  let run := Report.displayPositionTransactions snapshots in
  Console.outcome run = inr tt
  /\ filter (Console.hasText "Position ID") (Console.output run)
     = map (fun g => Console.Log "Position ID" [Console.AStr (fst g)])
         (Report.sortPositions snapshotsByPosition).
Proof.
  intros Hgroup Hvalid. cbv zeta. unfold Report.displayPositionTransactions.
  rewrite Hgroup.
  rewrite groupByPosition_cases in Hgroup.
  destruct (existsb _ _); [discriminate |]. injection Hgroup as Hgroup.
  set (sorted := Report.sortPositions snapshotsByPosition).
  assert (Hperm : Permutation sorted snapshotsByPosition).
  { unfold sorted, Report.sortPositions.
    change (JSArray.sort Report.moreActive)
      with (JSArray.sort (JSArray.descending Stated.activity)
              (A := string * list Snapshot.t)).
    rewrite (sort_perm Stated.activity). apply entries_perm. }
  assert (Hblocks : forall g, In g sorted ->
            Console.outcome (Report.positionBlock g) = inr tt
            /\ filter (Console.hasText "Position ID")
                 (Console.output (Report.positionBlock g))
               = [Console.Log "Position ID" [Console.AStr (fst g)]]).
  { intros [k g] Hin. apply (Permutation_in _ Hperm) in Hin.
    rewrite <- Hgroup in Hin. apply grouped_In in Hin as [Hk Hfilter].
    apply positionBlock_heading.
    - apply in_map_iff in Hk as (s & Hs & Hin). intros Hnil.
      assert (In s g) as Habs.
      { rewrite Hfilter. apply filter_In. split; [exact Hin |].
        unfold Grouping.hasKey. rewrite Hs. apply String.eqb_refl. }
      rewrite Hnil in Habs. exact Habs.
    - apply forallb_shown. intros s Hs. rewrite Hfilter in Hs.
      apply filter_In in Hs as [Hs _].
      unfold Report.withPositionId in Hs. apply filter_In in Hs as [Hs _].
      rewrite forallb_forall in Hvalid. now apply Hvalid. }
  destruct (forEach_returns Report.positionBlock sorted) as [Ho Hr];
    [intros g Hg; now apply Hblocks |].
  assert (Hnames : filter (Console.hasText "Position ID")
                     (Console.output (Console.forEach Report.positionBlock sorted))
                   = map (fun g => Console.Log "Position ID"
                                     [Console.AStr (fst g)]) sorted).
  { rewrite Ho, filter_flat_map, <- flat_map_singleton.
    apply flat_map_ext_in'. intros g Hg. now apply Hblocks. }
  assert (Hlen : List.length (map fst (JSObject.entries snapshotsByPosition))
                 = List.length sorted).
  { rewrite length_map. symmetry.
    rewrite (Permutation_length Hperm).
    symmetry. apply Permutation_length, entries_perm. }
  unfold Console.bind, Console.log, Console.lift. cbn [fst snd app].
  unfold JSObject.keys. rewrite Hlen.
  change (Report.sortPositions snapshotsByPosition) with sorted.
  destruct (Console.forEach Report.positionBlock sorted) as [out r].
  cbn [Console.outcome Console.output fst snd] in *. subst r.
  destruct sorted as [| [topId topSnapshots] others] eqn:Hsorted.
  - cbn [List.length Nat.eqb map Console.outcome Console.output fst snd].
    split; [reflexivity |]. filter_logs. reflexivity.
  - cbn [List.length Nat.eqb Console.outcome Console.output fst snd app].
    split; [reflexivity |].
    rewrite filter_cons_log. cbv iota.
    change (String.eqb "Position ID" "=== TRANSACTIONS BY POSITION ID ===")
      with false. cbv iota.
    rewrite filter_app, Hnames. cbn [app].
    filter_logs. cbn [filter]. now rewrite app_nil_r.
Qed.

Lemma position_report_names_each_position_witness :
  let snapshots :=
    [ Sample.bare "0xa" Sample.pool (Sample.position "2");
      Sample.deposit;
      Sample.bare "0xb" Sample.pool (Sample.position "1");
      Sample.deposit ] in
  let run := Report.displayPositionTransactions snapshots in
  Console.outcome run = inr tt
  /\ filter (Console.hasText "Position ID") (Console.output run)
     = map (fun g => Console.Log "Position ID" [Console.AStr (fst g)])
         (Report.sortPositions
            [ ("2"%string, [Sample.bare "0xa" Sample.pool (Sample.position "2")]);
              ("7"%string, [Sample.deposit; Sample.deposit]);
              ("1"%string, [Sample.bare "0xb" Sample.pool (Sample.position "1")]) ]).
Proof.
  apply (position_report_names_each_position
           [ Sample.bare "0xa" Sample.pool (Sample.position "2");
             Sample.deposit;
             Sample.bare "0xb" Sample.pool (Sample.position "1");
             Sample.deposit ]);
    reflexivity.
Defined.

(** ** The pool report *)

Section PoolReportFacts.
Import Console PoolReport.

Lemma recentSnapshot_lines (pool : Pool.t) (entry : nat * Snapshot.t) :
  Stated.validDate (snd entry) = true ->
  outcome (recentSnapshot pool entry) = inr tt
  /\ filter (hasText "Snapshot") (output (recentSnapshot pool entry))
     = [Log "Snapshot"
          [ACount (fst entry + 1); ADate (Snapshot.timestamp (snd entry))]]
  /\ filter (hasText "more snapshots") (output (recentSnapshot pool entry))
     = [].
Proof.
  destruct entry as [index snapshot]. unfold Stated.validDate. cbn [snd].
  intros Hvalid. unfold recentSnapshot.
  rewrite (toISOString_valid _ Hvalid). repeat split.
Qed.

End PoolReportFacts.

(** X15: in the pool report the block of a position, when the dates of
    its first three snapshots are valid, shows these three, in order, and a
    note with the number of the remaining ones exactly when the position has
    more than three. *)
Theorem pool_report_shows_three_snapshots (pool : Pool.t) (positionId : string)
  (positionSnapshots : list Snapshot.t) :
  positionSnapshots <> [] ->
  forallb Stated.validDate (firstn 3 positionSnapshots) = true ->
  let run := PoolReport.positionBlock pool (positionId, positionSnapshots) in
  let n := List.length positionSnapshots in
  Console.outcome run = inr tt
  /\ filter (Console.hasText "Snapshot") (Console.output run)
     = map (fun e =>
              Console.Log "Snapshot"
                [Console.ACount (fst e + 1);
                 Console.ADate (Snapshot.timestamp (snd e))])
         (Console.indexed (firstn 3 positionSnapshots))
  /\ filter (Console.hasText "more snapshots") (Console.output run)
     = if (3 <? n)%nat
       then [Console.Log "more snapshots" [Console.ACount (n - 3)]]
       else [].
Proof.
  intros Hne Hvalid. cbv zeta. unfold PoolReport.positionBlock, JSArray.slice0.
  destruct positionSnapshots as [| firstSnapshot rest] eqn:Hg;
    [contradiction |].
  rewrite <- Hg in *. clear Hne.
  set (recent := Console.indexed (firstn 3 positionSnapshots)).
  assert (Hdated : forall e, In e recent -> Stated.validDate (snd e) = true).
  { intros e He. apply In_indexed in He.
    rewrite forallb_forall in Hvalid. now apply Hvalid. }
  destruct (forEach_returns (PoolReport.recentSnapshot pool) recent)
    as [Ho Hr]; [intros e He; now apply recentSnapshot_lines, Hdated |].
  assert (Hshown :
    filter (Console.hasText "Snapshot")
      (Console.output (Console.forEach (PoolReport.recentSnapshot pool) recent))
    = map (fun e =>
             Console.Log "Snapshot"
               [Console.ACount (fst e + 1);
                Console.ADate (Snapshot.timestamp (snd e))]) recent).
  { rewrite Ho, filter_flat_map, <- flat_map_singleton.
    apply flat_map_ext_in'. intros e He.
    now apply recentSnapshot_lines, Hdated. }
  assert (Hnote :
    filter (Console.hasText "more snapshots")
      (Console.output (Console.forEach (PoolReport.recentSnapshot pool) recent))
    = []).
  { rewrite Ho, filter_flat_map.
    rewrite <- (flat_map_nil (B := Console.Line) recent).
    apply flat_map_ext_in'. intros e He.
    now apply recentSnapshot_lines, Hdated. }
  unfold Console.bind, Console.log, Console.ret, Report.when.
  cbn [fst snd app].
  destruct (Console.forEach (PoolReport.recentSnapshot pool) recent)
    as [out r]. cbn [Console.outcome Console.output fst snd] in *. subst r.
  destruct (PoolReport.tickRange firstSnapshot) as [[lo hi] |];
    destruct (3 <? List.length positionSnapshots)%nat;
    unfold Console.ret;
    cbn [fst snd app Console.outcome Console.output];
    (split; [reflexivity |]); split;
    filter_logs; rewrite ?filter_app, ?Hshown, ?Hnote; cbn [app];
    filter_logs; cbn [filter]; rewrite ?app_nil_r; reflexivity.
Qed.

Lemma pool_report_shows_three_snapshots_witness :
  let g := [Sample.quiet; Sample.deposit; Sample.quiet; Sample.undated] in
  let run := PoolReport.positionBlock Sample.pool ("7"%string, g) in
  let n := List.length g in
  Console.outcome run = inr tt
  /\ filter (Console.hasText "Snapshot") (Console.output run)
     = map (fun e =>
              Console.Log "Snapshot"
                [Console.ACount (fst e + 1);
                 Console.ADate (Snapshot.timestamp (snd e))])
         (Console.indexed (firstn 3 g))
  /\ filter (Console.hasText "more snapshots") (Console.output run)
     = if (3 <? n)%nat
       then [Console.Log "more snapshots" [Console.ACount (n - 3)]]
       else [].
Proof.
  apply pool_report_shows_three_snapshots; [discriminate | reflexivity].
Defined.

(** ** The other fetchers *)

(** X16: the pools kept by [fetchKHypePools] are, in the order of the
    response, exactly those whose token0 or token1 id equals the K-HYPE
    token id up to letter case. *)
Theorem khype_pools_match_in_any_letter_case (url : string)
  (w : Fetcher.World) (allPools : list Pool.t) :
  Outcome.verdict Fetcher.pools (Outcome.nextReply w)
  = Outcome.Delivered allPools ->
  exists kHypePools,
    fst (KHypeFetcher.fetchKHypePools url w) = inr kHypePools
    /\ kHypePools = filter KHypeFetcher.isKHypePool allPools
    /\ forall p,
         In p kHypePools <->
         In p allPools
         /\ (JSString.toLowerCase (Token.id (Pool.token0 p))
             = JSString.toLowerCase KHype.KHYPE_TOKEN_ID
             \/ JSString.toLowerCase (Token.id (Pool.token1 p))
                = JSString.toLowerCase KHype.KHYPE_TOKEN_ID).
Proof.
  intros Hpools.
  pose proof (fetchKHypePools_single_attempt url w) as H.
  cbv zeta in H. rewrite Hpools in H. destruct H as (_ & Hret & _).
  exists (filter KHypeFetcher.isKHypePool allPools).
  split; [exact Hret |]. split; [reflexivity |].
  intros p. rewrite filter_In. unfold KHypeFetcher.isKHypePool.
  rewrite orb_true_iff, !String.eqb_eq. reflexivity.
Qed.

Lemma khype_pools_match_in_any_letter_case_witness :
  let mixed :=
    Pool.mk "0x2" Sample.whype
      (Token.mk "0xFD739D4E423301CE9385C1FB8850539D657C296D" "K" "K") in
  let allPools := [Sample.poolWith "0x1"; Pool.mk "0x3" Sample.whype Sample.whype;
                   mixed] in
  let w :=
    Sample.okWorld
      (Fetcher.mkBody None
         (Some (Fetcher.mkData None (Some allPools) None None))) in
  exists kHypePools,
    fst (KHypeFetcher.fetchKHypePools "u" w) = inr kHypePools
    /\ kHypePools = filter KHypeFetcher.isKHypePool allPools
    /\ forall p,
         In p kHypePools <->
         In p allPools
         /\ (JSString.toLowerCase (Token.id (Pool.token0 p))
             = JSString.toLowerCase KHype.KHYPE_TOKEN_ID
             \/ JSString.toLowerCase (Token.id (Pool.token1 p))
                = JSString.toLowerCase KHype.KHYPE_TOKEN_ID).
Proof.
  apply khype_pools_match_in_any_letter_case. reflexivity.
Defined.

(** X17: the queries for the current positions and for the position
    snapshots of the pool, and the query for all pools, each send one
    request; each throws, after reporting the error on the console under its
    own label, exactly when the transport fails, the response carries
    errors, or the list asked for is absent, and returns the list (for the
    pools: those that hold K-HYPE) otherwise. *)
Theorem list_queries_single_attempt (url : string) (w : Fetcher.World) :
  (let run := PoolFetcher.fetchCurrentPositions w in
   Fetcher.sent (snd run)
   = Fetcher.sent w
     ++ [Fetcher.mkRequest Fetcher.SUBGRAPH_URL Fetcher.CURRENT_POSITIONS_QUERY
           [("poolId"%string, Fetcher.VString PoolReport.POOL_ID)]]
   /\ match Outcome.verdict Fetcher.positions (Outcome.nextReply w) with
      | Outcome.Delivered ps =>
          fst run = inr ps /\ Outcome.quiet w (snd run)
      | Outcome.TransportFailed e =>
          fst run = inl e
          /\ Outcome.reported "Error fetching current positions:" e w (snd run)
      | Outcome.GraphQLErrors errs =>
          fst run = inl (Fetcher.graphQLErrors errs)
          /\ Outcome.reported "Error fetching current positions:"
               (Fetcher.graphQLErrors errs) w (snd run)
      | Outcome.Missing =>
          exists e,
            fst run = inl e
            /\ Outcome.reported "Error fetching current positions:" e w (snd run)
      end)
  /\ (let run := PoolFetcher.fetchPositionSnapshots w in
     Fetcher.sent (snd run)
     = Fetcher.sent w
       ++ [Fetcher.mkRequest Fetcher.SUBGRAPH_URL Fetcher.POSITION_SNAPSHOTS_QUERY
             [("poolId"%string, Fetcher.VString PoolReport.POOL_ID);
              ("timestamp"%string, Fetcher.VString (Outcome.timestampOf w))]]
     /\ match Outcome.verdict Fetcher.positionSnapshots (Outcome.nextReply w) with
        | Outcome.Delivered ss =>
            fst run = inr ss /\ Outcome.quiet w (snd run)
        | Outcome.TransportFailed e =>
            fst run = inl e
            /\ Outcome.reported "Error fetching position snapshots:" e w (snd run)
        | Outcome.GraphQLErrors errs =>
            fst run = inl (Fetcher.graphQLErrors errs)
            /\ Outcome.reported "Error fetching position snapshots:"
                 (Fetcher.graphQLErrors errs) w (snd run)
        | Outcome.Missing =>
            exists e,
              fst run = inl e
              /\ Outcome.reported "Error fetching position snapshots:" e w (snd run)
        end)
  /\ (let run := KHypeFetcher.fetchKHypePools url w in
     Fetcher.sent (snd run) = Fetcher.sent w ++ [Outcome.allPoolsRequest url]
     /\ match Outcome.verdict Fetcher.pools (Outcome.nextReply w) with
        | Outcome.Delivered allPools =>
            fst run = inr (filter KHypeFetcher.isKHypePool allPools)
            /\ Outcome.quiet w (snd run)
        | Outcome.TransportFailed e =>
            fst run = inl e
            /\ Outcome.reported "Error fetching K-HYPE pools:" e w (snd run)
        | Outcome.GraphQLErrors errs =>
            fst run = inl (Fetcher.graphQLErrors errs)
            /\ Outcome.reported "Error fetching K-HYPE pools:"
                 (Fetcher.graphQLErrors errs) w (snd run)
        | Outcome.Missing =>
            exists e,
              fst run = inl e
              /\ Outcome.reported "Error fetching K-HYPE pools:" e w (snd run)
        end).
Proof.
  split; [| split].
  - apply fetchCurrentPositions_single_attempt.
  - apply fetchPositionSnapshots_single_attempt.
  - apply fetchKHypePools_single_attempt.
Qed.

(** ** The entry points *)

(** The two ways through [main]. *)
Lemma mainWith_cases (url : string)
  (report : list Snapshot.t -> Console.Run unit) (w : Fetcher.World) :
  let run := Main.mainWith url report w in
  let fetched := KHypeFetcher.fetchKHypePositionSnapshots url w in
  match fst fetched with
  | inl e =>
      fst run = inr None
      /\ Fetcher.console (snd run)
         = Fetcher.console (snd fetched)
           ++ [Console.LogError "Failed to fetch K-HYPE position snapshots:"
                 [Console.AError e]]
      /\ Fetcher.sent (snd run) = Fetcher.sent (snd fetched)
  | inr snapshots =>
      Fetcher.sent (snd run) = Fetcher.sent (snd fetched)
      /\ match Console.outcome (report snapshots) with
         | inr _ =>
             fst run = inr (Some snapshots)
             /\ Fetcher.console (snd run)
                = Fetcher.console (snd fetched)
                  ++ Console.output (report snapshots)
         | inl e =>
             fst run = inr None
             /\ Fetcher.console (snd run)
                = (Fetcher.console (snd fetched)
                   ++ Console.output (report snapshots))
                  ++ [Console.LogError
                        "Failed to fetch K-HYPE position snapshots:"
                        [Console.AError e]]
         end
  end.
Proof.
  cbv zeta. unfold Main.mainWith, Fetcher.tryCatch, Fetcher.bind.
  destruct (KHypeFetcher.fetchKHypePositionSnapshots url w)
    as [[e | snapshots] w1]; cbn [fst snd].
  - unfold Fetcher.bind, Fetcher.print, Fetcher.ret.
    cbn [fst snd Fetcher.sent Fetcher.console]. repeat split.
  - unfold Fetcher.bind, Main.display, Fetcher.print, Fetcher.ret.
    destruct (report snapshots) as [out [e | []]];
      cbn [Console.outcome Console.output fst snd Fetcher.sent Fetcher.console];
      repeat split.
Qed.

(** X18: [main] never throws.  Whatever the network answers and whatever
    report is printed, it returns; it returns no snapshots exactly when the
    fetch or the report threw, and then the last line on the console is the
    failure message with that error. *)
Theorem main_never_throws (url : string)
  (report : list Snapshot.t -> Console.Run unit) (w : Fetcher.World) :
  let run := Main.mainWith url report w in
  let fetched := KHypeFetcher.fetchKHypePositionSnapshots url w in
  match fst fetched with
  | inl e =>
      fst run = inr None
      /\ Fetcher.console (snd run)
         = Fetcher.console (snd fetched)
           ++ [Console.LogError "Failed to fetch K-HYPE position snapshots:"
                 [Console.AError e]]
      /\ Fetcher.sent (snd run) = Fetcher.sent (snd fetched)
  | inr snapshots =>
      Fetcher.sent (snd run) = Fetcher.sent (snd fetched)
      /\ match Console.outcome (report snapshots) with
         | inr _ =>
             fst run = inr (Some snapshots)
             /\ Fetcher.console (snd run)
                = Fetcher.console (snd fetched)
                  ++ Console.output (report snapshots)
         | inl e =>
             fst run = inr None
             /\ Fetcher.console (snd run)
                = (Fetcher.console (snd fetched)
                   ++ Console.output (report snapshots))
                  ++ [Console.LogError
                        "Failed to fetch K-HYPE position snapshots:"
                        [Console.AError e]]
         end
  end.
Proof. exact (mainWith_cases url report w). Qed.

(** The report of the script without a filter stops at the first pool id
    that names an inherited property. *)
Lemma displayAllPositionSnapshots_throws (snapshots : list Snapshot.t) :
  existsb (fun s => JSObject.inherited (Report.poolId s)) snapshots = true ->
  Console.outcome (KHype.displayAllPositionSnapshots snapshots)
  = inl (TypeError "push is not a function").
Proof.
  intros Hex. unfold KHype.displayAllPositionSnapshots.
  destruct snapshots as [| s0 rest] eqn:Hsn; [discriminate |].
  rewrite <- Hsn in *.
  assert (Hlen : (List.length snapshots =? 0)%nat = false)
    by (rewrite Hsn; reflexivity).
  rewrite Hlen. unfold Report.groupByPool.
  rewrite groupBy_cases, Hex. reflexivity.
Qed.

Section MainFacts.
Import Fetcher.

(** [main] of the script without a filter, once both requests are
    answered with data: the requests it sent, and its result by the outcome
    of the report. *)
Lemma main_delivered (w : World) (allPools : list Pool.t)
  (snapshots : list Snapshot.t) :
  Outcome.verdict pools (Outcome.nextReply w) = Outcome.Delivered allPools ->
  Outcome.verdict positionSnapshots (Outcome.secondReply w)
  = Outcome.Delivered snapshots ->
  let run := Main.main w in
  sent (snd run)
  = sent w
    ++ [Outcome.allPoolsRequest SUBGRAPH_URL;
        Outcome.snapshotsRequest SUBGRAPH_URL w allPools]
  /\ match Console.outcome (KHype.displayAllPositionSnapshots snapshots) with
     | inr _ => fst run = inr (Some snapshots)
     | inl e =>
         fst run = inr None
         /\ Outcome.reported "Failed to fetch K-HYPE position snapshots:" e
              w (snd run)
     end.
Proof.
  intros Hpools Hsnaps. cbv zeta. unfold Main.main.
  pose proof (mainWith_cases SUBGRAPH_URL
                KHype.displayAllPositionSnapshots w) as Hmain.
  pose proof (fetchKHypePositionSnapshots_attempts SUBGRAPH_URL w)
    as Hfetch.
  cbv zeta in Hmain, Hfetch. rewrite Hpools, Hsnaps in Hfetch.
  destruct Hfetch as (Hsent & Hret & lines & Hconsole & _).
  rewrite Hret in Hmain. destruct Hmain as [Hsent' Hmain].
  split; [now rewrite Hsent', Hsent |].
  destruct (Console.outcome (KHype.displayAllPositionSnapshots snapshots))
    as [e | []].
  - destruct Hmain as [Hnone Hcon]. split; [exact Hnone |].
    exists (lines
            ++ Console.output (KHype.displayAllPositionSnapshots snapshots)).
    rewrite Hcon, Hconsole. now rewrite <- !app_assoc.
  - apply Hmain.
Qed.

End MainFacts.

(** X19: [main] of the script without a filter, when both requests are
    answered with data, no pool id and no owner names an inherited property
    and every date is valid: exactly the two requests are sent, and the
    snapshots are returned. *)
Theorem main_returns_the_snapshots (w : Fetcher.World)
  (allPools : list Pool.t) (snapshots : list Snapshot.t) :
  Outcome.verdict Fetcher.pools (Outcome.nextReply w)
  = Outcome.Delivered allPools ->
  Outcome.verdict Fetcher.positionSnapshots (Outcome.secondReply w)
  = Outcome.Delivered snapshots ->
  forallb Stated.plainKeys snapshots = true ->
  forallb Stated.validDate snapshots = true ->
  let run := Main.main w in
  Fetcher.sent (snd run)
  = Fetcher.sent w
    ++ [Outcome.allPoolsRequest Fetcher.SUBGRAPH_URL;
        Outcome.snapshotsRequest Fetcher.SUBGRAPH_URL w allPools]
  /\ fst run = inr (Some snapshots).
Proof.
  intros Hpools Hsnaps Hplain Hvalid. cbv zeta.
  destruct (main_delivered w allPools snapshots Hpools Hsnaps)
    as [Hsent Hrun].
  rewrite (displayAllPositionSnapshots_outcome snapshots Hplain), Hvalid
    in Hrun.
  now split.
Qed.

Lemma main_returns_the_snapshots_witness :
  let body :=
    Fetcher.mkBody None
      (Some (Fetcher.mkData None (Some [Sample.pool]) None
               (Some Sample.twoPositions))) in
  let w := Sample.okWorld body in
  let run := Main.main w in
  Fetcher.sent (snd run)
  = Fetcher.sent w
    ++ [Outcome.allPoolsRequest Fetcher.SUBGRAPH_URL;
        Outcome.snapshotsRequest Fetcher.SUBGRAPH_URL w [Sample.pool]]
  /\ fst run = inr (Some Sample.twoPositions).
Proof.
  apply main_returns_the_snapshots; reflexivity.
Defined.

(** X20: [main] reports a failure of the report as a failure to fetch.
    When both requests are answered with data and a pool id names an
    inherited property, the TypeError of the grouping loop is caught and
    printed under the label of the fetch, and nothing is returned. *)
Theorem main_reports_grouping_error_as_fetch_failure (w : Fetcher.World)
  (allPools : list Pool.t) (snapshots : list Snapshot.t) :
  Outcome.verdict Fetcher.pools (Outcome.nextReply w)
  = Outcome.Delivered allPools ->
  Outcome.verdict Fetcher.positionSnapshots (Outcome.secondReply w)
  = Outcome.Delivered snapshots ->
  existsb (fun s => JSObject.inherited (Report.poolId s)) snapshots = true ->
  let run := Main.main w in
  fst run = inr None
  /\ Outcome.reported "Failed to fetch K-HYPE position snapshots:"
       (TypeError "push is not a function") w (snd run).
Proof.
  intros Hpools Hsnaps Hex. cbv zeta.
  destruct (main_delivered w allPools snapshots Hpools Hsnaps) as [_ Hrun].
  now rewrite (displayAllPositionSnapshots_throws snapshots Hex) in Hrun.
Qed.

Lemma main_reports_grouping_error_as_fetch_failure_witness :
  let snapshots :=
    [ Sample.bare "0xa" Sample.pool None;
      Sample.bare "0xb" (Sample.poolWith "constructor") None ] in
  let body :=
    Fetcher.mkBody None
      (Some (Fetcher.mkData None (Some [Sample.pool]) None (Some snapshots)))
  in
  let w := Sample.okWorld body in
  let run := Main.main w in
  fst run = inr None
  /\ Outcome.reported "Failed to fetch K-HYPE position snapshots:"
       (TypeError "push is not a function") w (snd run).
Proof.
  apply (main_reports_grouping_error_as_fetch_failure
           (Sample.okWorld
              (Fetcher.mkBody None
                 (Some (Fetcher.mkData None (Some [Sample.pool]) None
                          (Some [ Sample.bare "0xa" Sample.pool None;
                                  Sample.bare "0xb"
                                    (Sample.poolWith "constructor") None ])))))
           [Sample.pool]
           [ Sample.bare "0xa" Sample.pool None;
             Sample.bare "0xb" (Sample.poolWith "constructor") None ]);
    reflexivity.
Defined.

(** X21: likewise for a date that is not valid.  When both requests are
    answered with data, no pool id and no owner names an inherited property
    and the date of some snapshot is not valid, the RangeError of the report
    is caught and printed under the label of the fetch, and nothing is
    returned. *)
Theorem main_reports_invalid_date_as_fetch_failure (w : Fetcher.World)
  (allPools : list Pool.t) (snapshots : list Snapshot.t) :
  Outcome.verdict Fetcher.pools (Outcome.nextReply w)
  = Outcome.Delivered allPools ->
  Outcome.verdict Fetcher.positionSnapshots (Outcome.secondReply w)
  = Outcome.Delivered snapshots ->
  forallb Stated.plainKeys snapshots = true ->
  forallb Stated.validDate snapshots = false ->
  let run := Main.main w in
  fst run = inr None
  /\ Outcome.reported "Failed to fetch K-HYPE position snapshots:"
       (RangeError "Invalid time value") w (snd run).
Proof.
  intros Hpools Hsnaps Hplain Hvalid. cbv zeta.
  destruct (main_delivered w allPools snapshots Hpools Hsnaps) as [_ Hrun].
  now rewrite (displayAllPositionSnapshots_outcome snapshots Hplain), Hvalid
    in Hrun.
Qed.

Lemma main_reports_invalid_date_as_fetch_failure_witness :
  let snapshots := [Sample.deposit; Sample.undated] in
  let body :=
    Fetcher.mkBody None
      (Some (Fetcher.mkData None (Some [Sample.pool]) None (Some snapshots)))
  in
  let w := Sample.okWorld body in
  let run := Main.main w in
  fst run = inr None
  /\ Outcome.reported "Failed to fetch K-HYPE position snapshots:"
       (RangeError "Invalid time value") w (snd run).
Proof.
  apply (main_reports_invalid_date_as_fetch_failure
           (Sample.okWorld
              (Fetcher.mkBody None
                 (Some (Fetcher.mkData None (Some [Sample.pool]) None
                          (Some [Sample.deposit; Sample.undated])))))
           [Sample.pool] [Sample.deposit; Sample.undated]);
    reflexivity.
Defined.
